(** * Telemetry backend of the Keccak teaching page (server.js)

    A shallow embedding of the telemetry core of [server.js]: the two
    validators, [clampDays], [utcDateOffset], [readJsonBody],
    [storeEvent], [buildStats], [buildHealth], the start-up code with the
    events of the client, and the callback of the server with its routes,
    followed by the properties the design document states about them.

    Conventions of the embedding.
    - A JavaScript string is a [string]; its characters are code units up
      to 255.  The validators are also given on strings of 16-bit code
      units ([Utf16]).
    - A JavaScript Number is a [spec_float] of the binary64 format.
    - The Redis server behind the [ioredis] client is a pair of finite maps
      (hashes and sets, by key) together with the time-to-live last set on a
      key.  A [MULTI]/[EXEC] block runs its commands in order with nothing in
      between.
    - What the environment decides (the clock, whether a round trip to
      Redis fails) is an explicit argument [Env]. *)

From Stdlib Require Import ZArith Lia Bool List Ascii String SpecFloat.
From Stdlib Require Import DecimalString DecimalZ.
From stdpp Require Import gmap strings list fin_maps.

Set Warnings "-register-all".
Local Open Scope string_scope.

(** ** JavaScript values *)

(** The values a decoded JSON body, a header or a query parameter can be.
    Objects keep their own properties in insertion order; a later binding of
    a key is dropped by [JSON.parse], so lookup takes the first one. *)
Inductive value : Type :=
  | VUndefined
  | VNull
  | VBool (b : bool)
  | VNumber (x : spec_float)
  | VString (s : string)
  | VArray (items : list value)
  | VObject (props : list (string * value)).

(** Own-property lookup in a property list. *)
Fixpoint assoc {A : Type} (k : string) (l : list (string * A)) : option A :=
  match l with
  | [] => None
  | (k', v) :: l' => if String.eqb k k' then Some v else assoc k l'
  end.

(** What a [throw] carries: an [Error] with its message, or any other value,
    kept as the text [String(err)] gives for it. *)
Inductive thrown : Type :=
  | ErrorObj (message : string)
  | Other (shown : string).

(** [err instanceof Error ? err.message : String(err)] *)
Definition errText (err : thrown) : string :=
  match err with
  | ErrorObj m => m
  | Other s => s
  end.

(** Property read [v.name] for the two names the handler reads ([event],
    [sessionId]); neither exists on a prototype.  Reading a property of
    [null] or [undefined] throws a [TypeError]; a primitive or an array has
    no such property. *)
Definition getProp (v : value) (name : string) : thrown + value :=
  match v with
  | VUndefined | VNull =>
      inl (ErrorObj "Cannot read properties of null or undefined")
  | VObject props =>
      inr (match assoc name props with Some x => x | None => VUndefined end)
  | _ => inr VUndefined
  end.

(** ** Regular expressions of the validators *)

(** The patterns on the strings of the handler's model, whose code units
    go up to 255; [Utf16] below gives them on strings of 16-bit code
    units. *)

Module Regex.

Definition code (c : ascii) : N := N_of_ascii c.

(** A class range [lo-hi]. *)
Definition in_range (lo hi c : ascii) : bool :=
  (code lo <=? code c)%N && (code c <=? code hi)%N.

(** [Canonicalize] for a pattern with the [i] flag and without [u]: the
    upper-case form of the code unit.  Below 128 that is the ASCII rule.
    From 128 on the result is never below 128: a code unit whose upper
    case would be an ASCII letter is left as it is.  In the range 224-254
    (except 247) the upper case is 32 below; the upper case of the other
    code units from 128 to 255 is themselves or lies beyond 255, which no
    ASCII class member reaches either. *)
Definition canonicalize (c : ascii) : N :=
  let n := code c in
  if ((97 <=? n) && (n <=? 122))%N then (n - 32)%N
  else if ((224 <=? n) && (n <=? 254) && negb (n =? 247))%N then (n - 32)%N
  else n.

(** The members of a class given by ranges and single characters. *)
Record class := {
  ranges : list (ascii * ascii);
  singles : list ascii
}.

Definition all_ascii : list ascii :=
  map (fun n => ascii_of_nat n) (seq 0 256).

Definition member (cl : class) (a : ascii) : bool :=
  existsb (fun r => in_range (fst r) (snd r) a) (ranges cl)
  || existsb (fun s => Ascii.eqb s a) (singles cl).

(** A character matches a class under [i] when some member of the class
    has the same canonical form. *)
Definition class_matches_i (cl : class) (c : ascii) : bool :=
  existsb (fun a => member cl a && (canonicalize a =? canonicalize c)%N)
          all_ascii.

(** The matcher of [C{min,max}$] after [count] repetitions: the greedy
    quantifier takes one more character when it may, and the alternative
    of stopping early leaves input before [$], which then fails. *)
Fixpoint rep_then_eol (cls : ascii -> bool) (min max count : nat)
         (rest : string) : bool :=
  match rest with
  | EmptyString => Nat.leb min count
  | String c rest' =>
      if Nat.ltb count max && cls c
      then rep_then_eol cls min max (S count) rest' || false
      else false
  end.

(** [^C{min,max}$] tried at offset [pos] of the input. *)
Definition anchored_at (cls : ascii -> bool) (min max pos : nat)
           (rest : string) : bool :=
  Nat.eqb pos 0 && rep_then_eol cls min max 0 rest.

(** [re.test(s)] for a pattern without [g] or [y]: the pattern is tried at
    every offset from 0 to the length of the input. *)
Fixpoint test_from (cls : ascii -> bool) (min max pos : nat)
         (rest : string) : bool :=
  anchored_at cls min max pos rest
  || match rest with
     | EmptyString => false
     | String _ rest' => test_from cls min max (S pos) rest'
     end.

Definition test (cl : class) (min max : nat) (s : string) : bool :=
  test_from (class_matches_i cl) min max 0 s.

End Regex.

(** [[a-z0-9_:-]] *)
Definition eventNameClass : Regex.class :=
  {| Regex.ranges := [("a", "z"); ("0", "9")]%char;
     Regex.singles := ["_"; ":"; "-"]%char |}.

(** [[a-z0-9-]] *)
Definition sessionIdClass : Regex.class :=
  {| Regex.ranges := [("a", "z"); ("0", "9")]%char;
     Regex.singles := ["-"]%char |}.

(** [typeof eventName === "string" && /^[a-z0-9_:-]{1,64}$/i.test(eventName)] *)
Definition isValidEventName (eventName : value) : bool :=
  match eventName with
  | VString s => Regex.test eventNameClass 1 64 s
  | _ => false
  end.

(** [typeof sessionId === "string" && /^[a-z0-9-]{6,80}$/i.test(sessionId)] *)
Definition isValidSessionId (sessionId : value) : bool :=
  match sessionId with
  | VString s => Regex.test sessionIdClass 6 80 s
  | _ => false
  end.

(** The character sets as the design document writes them. *)
Definition is_alnum (c : ascii) : bool :=
  let n := N_of_ascii c in
  ((65 <=? n) && (n <=? 90) || (97 <=? n) && (n <=? 122)
   || (48 <=? n) && (n <=? 57))%N.

Definition event_char (c : ascii) : bool :=
  is_alnum c || Ascii.eqb c "_" || Ascii.eqb c ":" || Ascii.eqb c "-".

Definition session_char (c : ascii) : bool :=
  is_alnum c || Ascii.eqb c "-".

Fixpoint all_chars (p : ascii -> bool) (s : string) : bool :=
  match s with
  | EmptyString => true
  | String c s' => p c && all_chars p s'
  end.

(** ** The validators on strings of 16-bit code units *)

(** The handler's model keeps strings with code units up to 255.  The
    validators are also given on JavaScript strings in full, sequences of
    16-bit code units, with the case-insensitive matching of a pattern
    that has the [i] flag and not the [u] flag. *)
Module Utf16.

Local Open Scope N_scope.

(** A string: its code units, each below 65536. *)
Definition ustring : Type := list N.

(** The code units of a string of the handler's model. *)
Definition units (s : string) : ustring :=
  map N_of_ascii (list_ascii_of_string s).

(** What a validator looks at in its argument: whether it is a string
    ([typeof x === "string"]) and, if so, its code units. *)
Definition stringOf (v : value) : option ustring :=
  match v with
  | VString s => Some (units s)
  | _ => None
  end.

(** The upper case of a code unit below 128. *)
Definition asciiUpper (c : N) : N :=
  if (97 <=? c) && (c <=? 122) then c - 32 else c.

Section Matching.

(** The upper case of the string made of one code unit from 128 on, by
    the default case conversion of the Unicode standard: the code units of
    the result.  The table belongs to the standard, not to the program. *)
Variable unicodeUpper : N -> list N.

(** [toUppercase] on the string made of the code unit [ch]. *)
Definition toUpperCase (ch : N) : list N :=
  if ch <? 128 then [asciiUpper ch] else unicodeUpper ch.

(** [Canonicalize(ch)] with [i] and without [u]: the upper case [cu] of
    [ch] when it is one code unit, except that a code unit from 128 on
    whose upper case is below 128 stays as it is. *)
Definition Canonicalize (ch : N) : N :=
  match toUpperCase ch with
  | [cu] => if (128 <=? ch) && (cu <? 128) then ch else cu
  | _ => ch
  end.

(** The code units from [lo] to [hi]. *)
Definition span (lo hi : N) : list N :=
  map (fun k => lo + N.of_nat k) (seq 0 (N.to_nat (hi + 1 - lo))).

(** The members of a class. *)
Definition members (cl : Regex.class) : list N :=
  flat_map (fun r => span (Regex.code (fst r)) (Regex.code (snd r)))
           (Regex.ranges cl)
  ++ map Regex.code (Regex.singles cl).

(** A code unit matches a class under [i] when some member of the class
    has the same canonical form. *)
Definition matches_class (cl : Regex.class) (ch : N) : bool :=
  existsb (fun a => Canonicalize a =? Canonicalize ch) (members cl).

(** [C{min,max}$] after [count] repetitions, as [Regex.rep_then_eol]. *)
Fixpoint repeat_then_end (cls : N -> bool) (min max count : nat)
         (rest : ustring) : bool :=
  match rest with
  | [] => Nat.leb min count
  | ch :: rest' =>
      if Nat.ltb count max && cls ch
      then repeat_then_end cls min max (S count) rest' || false
      else false
  end.

(** [^C{min,max}$] tried at offset [pos]. *)
Definition anchored (cls : N -> bool) (min max pos : nat) (rest : ustring)
  : bool :=
  Nat.eqb pos 0 && repeat_then_end cls min max 0 rest.

(** [re.test(s)]: the pattern is tried at every offset. *)
Fixpoint test_at (cls : N -> bool) (min max pos : nat) (rest : ustring)
  : bool :=
  anchored cls min max pos rest
  || match rest with
     | [] => false
     | _ :: rest' => test_at cls min max (S pos) rest'
     end.

Definition test (cl : Regex.class) (min max : nat) (s : ustring) : bool :=
  test_at (matches_class cl) min max 0 s.

(** [typeof eventName === "string" && /^[a-z0-9_:-]{1,64}$/i.test(eventName)] *)
Definition isValidEventName (eventName : option ustring) : bool :=
  match eventName with
  | Some s => test eventNameClass 1 64 s
  | None => false
  end.

(** [typeof sessionId === "string" && /^[a-z0-9-]{6,80}$/i.test(sessionId)] *)
Definition isValidSessionId (sessionId : option ustring) : bool :=
  match sessionId with
  | Some s => test sessionIdClass 6 80 s
  | None => false
  end.

End Matching.

(** The character sets as the design document writes them. *)
Definition alnum_unit (c : N) : bool :=
  (65 <=? c) && (c <=? 90) || (97 <=? c) && (c <=? 122)
  || (48 <=? c) && (c <=? 57).

Definition event_unit (c : N) : bool :=
  alnum_unit c || (c =? 95) || (c =? 58) || (c =? 45).

Definition session_unit (c : N) : bool :=
  alnum_unit c || (c =? 45).

(** A few rows of the case table of the standard: the sharp s becomes two
    letters, the micro sign and the y with diaeresis leave the range, the
    dotless i and the long s become ASCII letters, the other small letters
    of Latin-1 move by 32, and the Kelvin sign is a capital already. *)
Definition sampleUpper (ch : N) : list N :=
  if ch =? 223 then [83; 83]
  else if ch =? 181 then [924]
  else if ch =? 255 then [376]
  else if ch =? 305 then [73]
  else if ch =? 383 then [83]
  else if (224 <=? ch) && (ch <=? 254) && negb (ch =? 247) then [ch - 32]
  else [ch].

(** The check of a property of the code units below [n]. *)
Definition all_below (p : N -> bool) (n : nat) : bool :=
  forallb (fun k => p (N.of_nat k)) (seq 0 n).

End Utf16.

(** ** Numbers: [clampDays] and [Number.parseInt] *)

(** [Number.isFinite] on a Number. *)
Definition isFinite (x : spec_float) : bool :=
  match x with
  | S754_zero _ | S754_finite _ _ _ => true
  | S754_infinity _ | S754_nan => false
  end.

(** The integer [Math.floor] returns for a finite Number: the floor of
    [(-1)^s * m * 2^e].  A shift by a negative amount is the floored
    division by the power of two. *)
Definition floorZ (x : spec_float) : Z :=
  match x with
  | S754_finite s m e => Z.shiftl (cond_Zopp s (Zpos m)) e
  | _ => 0%Z
  end.

(** [clampDays]: the result is 7 or an integer between 1 and 30, given by
    its integer value. *)
Definition clampDays (days : spec_float) : Z :=
  if negb (isFinite days) then 7%Z
  else Z.min 30 (Z.max 1 (floorZ days)).

(** The Number nearest to an integer (round to nearest, ties to even,
    overflow to infinity); [neg] is the sign given to a zero. *)
Definition numberOfZ (neg : bool) (n : Z) : spec_float :=
  binary_normalize 53 1024 n 0 neg.

Module ParseInt.

(** [StrWhiteSpaceChar] among the code units below 256. *)
Definition is_space (c : ascii) : bool :=
  let n := N_of_ascii c in
  ((9 <=? n) && (n <=? 13) || (n =? 32) || (n =? 160))%N.

Fixpoint trim_start (s : string) : string :=
  match s with
  | String c s' => if is_space c then trim_start s' else s
  | EmptyString => EmptyString
  end.

Definition digit (c : ascii) : option Z :=
  let n := N_of_ascii c in
  if ((48 <=? n) && (n <=? 57))%N then Some (Z.of_N n - 48)%Z else None.

(** The value of the longest prefix of decimal digits, [None] when the
    prefix is empty. *)
Fixpoint digits_prefix (acc : option Z) (s : string) : option Z :=
  match s with
  | String c s' =>
      match digit c with
      | Some d =>
          digits_prefix
            (Some (10 * (match acc with Some a => a | None => 0 end) + d)%Z)
            s'
      | None => acc
      end
  | EmptyString => acc
  end.

(** [Number.parseInt(s, 10)] *)
Definition parseInt10 (s : string) : spec_float :=
  let t := trim_start s in
  let '(neg, body) :=
    match t with
    | String "-" r => (true, r)
    | String "+" r => (false, r)
    | _ => (false, t)
    end in
  match digits_prefix None body with
  | None => S754_nan
  | Some n => numberOfZ neg (if neg then - n else n)%Z
  end.

End ParseInt.

(** [url.searchParams.get(name)]: the first value of the name, or [null]. *)
Definition searchParam (query : list (string * string)) (name : string)
  : option string := assoc name query.

(** [a || b] on an optional string: [null], [undefined] and the empty
    string are falsy. *)
Definition or_else (a b : option string) : option string :=
  match a with
  | Some (String _ _) => a
  | _ => b
  end.

(** [clampDays(Number.parseInt(url.searchParams.get("days") || "7", 10))] *)
Definition requestedDays (query : list (string * string)) : Z :=
  match or_else (searchParam query "days") (Some "7") with
  | Some s => clampDays (ParseInt.parseInt10 s)
  | None => clampDays S754_nan
  end.

(** ** Dates: [new Date()], [getUTCDate], [setUTCDate], [toISOString] *)

Module DateTime.

Local Open Scope Z_scope.

Definition msPerDay : Z := 86400000.
Definition maxTime : Z := 8640000000000000.

(** A time value: milliseconds since the epoch, within the range a Date
    can hold.  The system clock only yields such values. *)
Record TimeValue := {
  ms :> Z;
  ms_range : (Z.abs ms <=? maxTime) = true
}.

(** [Day(t)] and [TimeWithinDay(t)] *)
Definition Day (t : Z) : Z := t / msPerDay.
Definition TimeWithinDay (t : Z) : Z := t mod msPerDay.

(** The part of the calendar computation that only depends on the day
    within a 400-year era (which starts on a 1st of March): the year of
    the era, the month counted from March, and the day of the month. *)
Definition era_split (doe : Z) : Z * Z * Z :=
  let yoe := (doe - doe / 1460 + doe / 36524 - doe / 146096) / 365 in
  let doy := doe - (365 * yoe + yoe / 4 - yoe / 100) in
  let mp := (5 * doy + 2) / 153 in
  (yoe, mp, doy - (153 * mp + 2) / 5 + 1).

(** Day of the era of the given day of a month counted from March. *)
Definition era_join (yoe mp d : Z) : Z :=
  yoe * 365 + yoe / 4 - yoe / 100 + (153 * mp + 2) / 5 + d - 1.

(** Year, month (1-12) and day of the month of a day number. *)
Definition civil_from_days (z : Z) : Z * Z * Z :=
  let z' := z + 719468 in
  let era := z' / 146097 in
  let '(yoe, mp, d) := era_split (z' mod 146097) in
  let m := if mp <? 10 then mp + 3 else mp - 9 in
  (yoe + era * 400 + (if m <=? 2 then 1 else 0), m, d).

(** Day number of day [d] of month [m] (1-12) of year [y]; [d] may lie
    outside the month. *)
Definition days_from_civil (y m d : Z) : Z :=
  let y' := y - (if m <=? 2 then 1 else 0) in
  let mp := if 2 <? m then m - 3 else m + 9 in
  (y' / 400) * 146097 + era_join (y' mod 400) mp d - 719468.

Definition YearFromTime (t : Z) : Z := fst (fst (civil_from_days (Day t))).
(** [MonthFromTime] counts from 0. *)
Definition MonthFromTime (t : Z) : Z :=
  snd (fst (civil_from_days (Day t))) - 1.
Definition DateFromTime (t : Z) : Z := snd (civil_from_days (Day t)).

(** [MakeDay(year, month, date)] for a month from 0 to 11: the day number
    of the first of the month, plus [date - 1]. *)
Definition MakeDay (year month date : Z) : Z :=
  days_from_civil year (month + 1) 1 + date - 1.

Definition MakeDate (day time : Z) : Z := day * msPerDay + time.

(** [TimeClip]: [None] is the invalid date (time value NaN). *)
Definition TimeClip (t : Z) : option Z :=
  if Z.abs t <=? maxTime then Some t else None.

(** [d.getUTCDate()] *)
Definition getUTCDate (t : Z) : Z := DateFromTime t.

(** [d.setUTCDate(date)]: the new time value of [d]. *)
Definition setUTCDate (t : Z) (date : Z) : option Z :=
  TimeClip (MakeDate (MakeDay (YearFromTime t) (MonthFromTime t) date)
                     (TimeWithinDay t)).

Definition digit_char (d : Z) : ascii :=
  ascii_of_N (Z.to_N (48 + d mod 10)).

(** The last [width] decimal digits of [n], zero padded. *)
Fixpoint pad (width : nat) (n : Z) : string :=
  match width with
  | O => EmptyString
  | S w => pad w (n / 10) ++ String (digit_char n) EmptyString
  end.

(** The year of the ISO format: four digits from 0 to 9999, otherwise a
    sign and six digits. *)
Definition isoYear (y : Z) : string :=
  if (0 <=? y) && (y <=? 9999) then pad 4 y
  else (if y <? 0 then "-" else "+") ++ pad 6 (Z.abs y).

(** [YYYY-MM-DD] of a day number. *)
Definition isoDay (day : Z) : string :=
  let '(y, m, d) := civil_from_days day in
  isoYear y ++ "-" ++ pad 2 m ++ "-" ++ pad 2 d.

(** [d.toISOString()]; a [RangeError] on the invalid date. *)
Definition toISOString (t : option Z) : thrown + string :=
  match t with
  | None => inl (ErrorObj "Invalid time value")
  | Some t =>
      let w := TimeWithinDay t in
      inr (isoDay (Day t) ++ "T" ++ pad 2 (w / 3600000) ++ ":"
           ++ pad 2 (w / 60000 mod 60) ++ ":" ++ pad 2 (w / 1000 mod 60)
           ++ "." ++ pad 3 (w mod 1000) ++ "Z")
  end.

(** [s.slice(0, 10)] *)
Definition slice10 (s : string) : string := String.substring 0 10 s.

End DateTime.

Import DateTime.

(** [utcDateOffset(daysBack)], with [now] the clock reading [new Date()]
    takes. *)
Definition utcDateOffset (now : TimeValue) (daysBack : Z) : thrown + string :=
  let d := setUTCDate now (getUTCDate now - daysBack) in
  match toISOString d with
  | inl e => inl e
  | inr s => inr (slice10 s)
  end.

Definition time_2026_11_02 : TimeValue :=
  {| ms := 1793622896789; ms_range := eq_refl |}.

(** ** The Redis server *)

Module Redis.

Local Open Scope Z_scope.

(** The data of the server: hashes of integer counters and sets of
    strings, by key, and the time-to-live (seconds) last set on a key.
    A counter is kept as the integer its stored text denotes. *)
Record Db := {
  hashes : gmap string (gmap string Z);
  sets : gmap string (gset string);
  ttl : gmap string Z
}.

Definition empty : Db := {| hashes := ∅; sets := ∅; ttl := ∅ |}.

(** The commands [storeEvent] queues. *)
Inductive command : Type :=
  | Hincrby (key field : string) (incr : Z)
  | Expire (key : string) (seconds : Z)
  | Sadd (key member : string).

(** A missing key reads as the empty hash or the empty set. *)
Definition hash_at (db : Db) (key : string) : gmap string Z :=
  default ∅ (hashes db !! key).

Definition set_at (db : Db) (key : string) : gset string :=
  default ∅ (sets db !! key).

Definition has_key (db : Db) (key : string) : bool :=
  bool_decide (is_Some (hashes db !! key))
  || bool_decide (is_Some (sets db !! key)).

Definition int64_max : Z := 9223372036854775807.
Definition int64_min : Z := -9223372036854775808.

(** One command.  [HINCRBY] creates the hash and the field (from 0) when
    missing and is refused, leaving the data as it is, when the sum leaves
    the signed 64-bit range; [EXPIRE] only acts on an existing key. *)
Definition run (c : command) (db : Db) : Db :=
  match c with
  | Hincrby key field incr =>
      let h := hash_at db key in
      let v := default 0 (h !! field) + incr in
      if (int64_min <=? v) && (v <=? int64_max)
      then {| hashes := <[key := <[field := v]> h]> (hashes db);
              sets := sets db; ttl := ttl db |}
      else db
  | Sadd key member =>
      {| hashes := hashes db;
         sets := <[key := {[member]} ∪ set_at db key]> (sets db);
         ttl := ttl db |}
  | Expire key seconds =>
      if has_key db key
      then {| hashes := hashes db; sets := sets db;
              ttl := <[key := seconds]> (ttl db) |}
      else db
  end.

(** [EXEC]: the queued commands in order, with nothing in between. *)
Definition exec (tx : list command) (db : Db) : Db :=
  fold_left (fun d c => run c d) tx db.

(** The text of a counter, as the server keeps it and replies it: the
    decimal digits, after a minus sign for a negative integer. *)
Definition bulk (n : Z) : string := NilZero.string_of_int (Z.to_int n).

(** [HGETALL] and [SCARD].  The reply of [HGETALL] gives every field with
    its value as text; [SCARD] replies an integer. *)
Definition hgetall (db : Db) (key : string) : gmap string string :=
  bulk <$> hash_at db key.

Definition scard (db : Db) (key : string) : Z :=
  Z.of_nat (size (set_at db key)).

End Redis.

(** ** The state of the process and its environment *)

(** [redisState] *)
Record RedisState := {
  enabled : bool;
  connected : bool;
  lastError : option string
}.

(** A round trip to Redis. *)
Inductive Op : Type :=
  | OpExec (tx : list Redis.command)
  | OpHgetall (key : string)
  | OpScard (key : string)
  | OpPing.

(** [redis] is the client ([None] for [null]) with the data of the server it
    talks to; [issued] lists the round trips made so far, oldest first. *)
Record World := {
  redis : option Redis.Db;
  redisState : RedisState;
  issued : list Op
}.

(** What the environment decides during one operation: [clock k] is the
    [k]-th reading of the system clock (from 0); [fault op] is the error the
    round trip [op] fails with, if it fails; [applied_on_fault] tells whether
    a failed [EXEC] had reached the server; [indexFile] is the outcome of
    reading [index.html]. *)
Record Env := {
  clock : nat -> TimeValue;
  fault : Op -> option thrown;
  applied_on_fault : bool;
  indexFile : thrown + string
}.

(** [process.env] *)
Record Config := {
  REDIS_URL : option string;
  ADMIN_TOKEN : option string
}.

(** [process.env.REDIS_URL || ""] and [process.env.ADMIN_TOKEN || ""] *)
Definition redisUrl (cfg : Config) : string := default "" (REDIS_URL cfg).
Definition adminToken (cfg : Config) : string := default "" (ADMIN_TOKEN cfg).

(** The handlers of the client's [ready], [end] and [error] events. *)
Definition on_ready (s : RedisState) : RedisState :=
  {| enabled := enabled s; connected := true; lastError := None |}.

Definition on_end (s : RedisState) : RedisState :=
  {| enabled := enabled s; connected := false; lastError := lastError s |}.

Definition on_error (err : thrown) (s : RedisState) : RedisState :=
  {| enabled := enabled s; connected := false;
     lastError := Some (errText err) |}.

(** The state after the start-up code: a client exists exactly when a URL is
    configured; [remote] is the data of the server and [connectError] the
    error [redis.connect()] failed with, if it failed. *)
Definition boot (cfg : Config) (remote : Redis.Db)
           (connectError : option thrown) : World :=
  let s0 := {| enabled := Nat.ltb 0 (String.length (redisUrl cfg));
               connected := false; lastError := None |} in
  if enabled s0 then
    {| redis := Some remote;
       redisState :=
         match connectError with
         | None => on_ready s0
         | Some err =>
             {| enabled := true; connected := false;
                lastError := Some (errText err) |}
         end;
       issued := [] |}
  else {| redis := None; redisState := s0; issued := [] |}.

(** ** Effects: a computation reads and changes the world, and returns or
    throws *)

Definition M (A : Type) : Type := World -> (thrown + A) * World.

Definition ret {A} (a : A) : M A := fun w => (inr a, w).
Definition throw {A} (e : thrown) : M A := fun w => (inl e, w).

Definition bind {A B} (c : M A) (k : A -> M B) : M B :=
  fun w =>
    match c w with
    | (inr a, w') => k a w'
    | (inl e, w') => (inl e, w')
    end.

Notation "'let*' x ':=' c 'in' k" := (bind c (fun x => k))
  (at level 10, x pattern, c at level 100, k at level 200).

(** [try { body } catch (err) { handler }] *)
Definition tryCatch {A} (body : M A) (handler : thrown -> M A) : M A :=
  fun w =>
    match body w with
    | (inr a, w') => (inr a, w')
    | (inl e, w') => handler e w'
    end.

Definition getWorld : M World := fun w => (inr w, w).

(** A pure step that returns or throws. *)
Definition liftE {A} (r : thrown + A) : M A := fun w => (r, w).

(** [redisState.lastError = text] *)
Definition setLastError (text : string) : M unit :=
  fun w =>
    (inr tt,
     {| redis := redis w;
        redisState := {| enabled := enabled (redisState w);
                         connected := connected (redisState w);
                         lastError := Some text |};
        issued := issued w |}).

(** [redisState.connected = false] *)
Definition setDisconnected : M unit :=
  fun w =>
    (inr tt,
     {| redis := redis w;
        redisState := {| enabled := enabled (redisState w);
                         connected := false;
                         lastError := lastError (redisState w) |};
        issued := issued w |}).

(** [!redis || !redisState.connected] *)
Definition unavailable (w : World) : bool :=
  negb (bool_decide (is_Some (redis w))) || negb (connected (redisState w)).

Definition noClient : thrown :=
  ErrorObj "Cannot read properties of null".

(** One round trip on the client: it is recorded, and it rejects with the
    error the environment chose or resolves with [result] computed on the
    data, which become [change] of themselves.  A failed round trip changes
    the data only if it is an [EXEC] that reached the server. *)
Definition roundTrip {A} (env : Env) (op : Op)
           (result : Redis.Db -> A) (change : Redis.Db -> Redis.Db) : M A :=
  fun w =>
    match redis w with
    | None => (inl noClient, w)
    | Some db =>
        match fault env op with
        | None =>
            (inr (result db),
             {| redis := Some (change db); redisState := redisState w;
                issued := issued w ++ [op] |})
        | Some err =>
            (inl err,
             {| redis := Some (if applied_on_fault env then change db else db);
                redisState := redisState w;
                issued := issued w ++ [op] |})
        end
    end.

(** [await tx.exec()] for the queued commands [tx]. *)
Definition txExec (env : Env) (tx : list Redis.command) : M unit :=
  roundTrip env (OpExec tx) (fun _ => tt) (Redis.exec tx).

(** [redis.hgetall(key)], [redis.scard(key)] and [redis.ping()] *)
Definition hgetall (env : Env) (key : string) : M (gmap string string) :=
  roundTrip env (OpHgetall key) (fun db => Redis.hgetall db key) id.

Definition scard (env : Env) (key : string) : M Z :=
  roundTrip env (OpScard key) (fun db => Redis.scard db key) id.

Definition ping (env : Env) : M unit :=
  roundTrip env OpPing (fun _ => tt) id.

(** [await Promise.all([a, b])]: both are started; the first rejection, if
    any, is thrown. *)
Definition promiseAll2 {A B} (a : M A) (b : M B) : M (A * B) :=
  fun w =>
    let '(ra, w1) := a w in
    let '(rb, w2) := b w1 in
    (match ra, rb with
     | inr x, inr y => inr (x, y)
     | inl e, _ => inl e
     | _, inl e => inl e
     end, w2).

(** ** [readJsonBody] *)

(** How the body of a request arrives: [data] events with their chunks of
    bytes, then [end] or [error]. *)
Inductive BodyEnd : Type :=
  | End
  | Failed (err : thrown).

Record Body := {
  chunks : list string;
  ending : BodyEnd
}.

(** The [data] handler over the incoming chunks: [kept] is the array
    [chunks] so far and [total] the bytes counted.  The first chunk that
    takes the count over [maxBytes] rejects the promise. *)
Fixpoint onData (maxBytes : Z) (incoming : list string) (kept : list string)
         (total : Z) : thrown + list string :=
  match incoming with
  | [] => inr kept
  | chunk :: more =>
      let total' := (total + Z.of_nat (String.length chunk))%Z in
      if (maxBytes <? total')%Z then inl (ErrorObj "body_too_large")
      else onData maxBytes more (kept ++ [chunk]) total'
  end.

Definition defaultMaxBytes : Z := (64 * 1024)%Z.

Section Body.

(** [JSON.parse(Buffer.concat(chunks).toString("utf8"))] on the
    concatenated bytes: the value, or [None] when decoding throws. *)
Variable JSON_parse : string -> option value.

(** [readJsonBody(req, maxBytes)]: what the promise settles with. *)
Definition readJsonBody (body : Body) (maxBytes : Z) : thrown + value :=
  match onData maxBytes (chunks body) [] 0 with
  | inl e => inl e
  | inr kept =>
      match ending body with
      | Failed err => inl err
      | End =>
          if Nat.eqb (List.length kept) 0 then inr (VObject [])
          else
            match JSON_parse (String.concat "" kept) with
            | Some v => inr v
            | None => inl (ErrorObj "invalid_json")
            end
      end
  end.

End Body.

(** ** [storeEvent] *)

(** [`keccak:events:${date}`] and [`keccak:sessions:${date}`] *)
Definition eventKeyOf (date : string) : string := "keccak:events:" ++ date.
Definition sessionKeyOf (date : string) : string := "keccak:sessions:" ++ date.

Definition ttlSeconds : Z := (60 * 60 * 24 * 120)%Z.

(** The text of a string value. *)
Definition str (v : value) : string :=
  match v with VString s => s | _ => "" end.

(** The commands queued on [tx]. *)
Definition eventTx (eventKey sessionKey eventName : string)
           (sessionId : value) : list Redis.command :=
  [Redis.Hincrby eventKey eventName 1;
   Redis.Hincrby eventKey "_total" 1;
   Redis.Expire eventKey ttlSeconds]
  ++ (if isValidSessionId sessionId
      then [Redis.Sadd sessionKey (str sessionId);
            Redis.Expire sessionKey ttlSeconds]
      else []).

Definition storeEvent (env : Env) (eventName : string) (sessionId : value)
  : M bool :=
  let* w := getWorld in
  if unavailable w then ret false
  else
    let* date := liftE (utcDateOffset (clock env 0) 0) in
    let eventKey := eventKeyOf date in
    let sessionKey := sessionKeyOf date in
    tryCatch
      (let* _ := txExec env (eventTx eventKey sessionKey eventName sessionId) in
       ret true)
      (fun err =>
         let* _ := setLastError (errText err) in
         ret false).

(** ** [buildStats] *)

(** One element of the result: [{date, events, uniqueSessions}].  The
    object [events] is the reply of [HGETALL] as the client hands it over,
    every count a string; [uniqueSessions] is a Number. *)
Record DayStats := {
  date : string;
  events : gmap string string;
  uniqueSessions : Z
}.

(** The loop [for (let i = 0; i < days; i += 1)] with [n] iterations left;
    iteration [i] takes the [i]-th clock reading of the call. *)
Fixpoint buildStats_from (env : Env) (n i : nat) (result : list DayStats)
  : M (list DayStats) :=
  match n with
  | O => ret result
  | S n' =>
      let* date := liftE (utcDateOffset (clock env i) (Z.of_nat i)) in
      let eventKey := eventKeyOf date in
      let sessionKey := sessionKeyOf date in
      let* both :=
        promiseAll2 (hgetall env eventKey) (scard env sessionKey) in
      buildStats_from env n' (S i)
        (result ++ [{| date := date; events := fst both;
                       uniqueSessions := snd both |}])
  end.

Definition buildStats (env : Env) (days : Z) : M (list DayStats) :=
  buildStats_from env (Z.to_nat days) 0 [].

(** ** The request handler *)

(** A request as the handler sees it: the method, the path and the query of
    the parsed URL, the value of the [x-admin-token] header ([None] when the
    header is absent), and the body as it will arrive. *)
Record Request := {
  method : string;
  pathname : string;
  query : list (string * string);
  adminHeader : option string;
  body : Body
}.

(** The JSON payloads of the API. *)
Inductive payload : Type :=
  | PError (error : string)
  | PAccepted (stored redisEnabled : bool)
  | PUnavailable (lastError : option string)
  | PStatsFailed (detail : string)
  | PStats (days : Z) (stats : list DayStats)
  | PHealth (timestamp : string) (enabled connected : bool)
            (pingMs : option Z) (lastError : option string).

Inductive Response : Type :=
  | Json (statusCode : Z) (p : payload)
  | Text (statusCode : Z) (content : string)
  | Html (statusCode : Z) (content : string).

(** [serveIndex] *)
Definition serveIndex (env : Env) : M Response :=
  match indexFile env with
  | inr html => ret (Html 200 html)
  | inl _ => ret (Text 500 "Unable to load index.html")
  end.

(** [buildHealth]: the clock is read before and after the ping, and once
    more for the timestamp. *)
Definition buildHealth (env : Env) : M payload :=
  let* w := getWorld in
  let* probe :=
    (if unavailable w then ret (None, 0)
     else
       tryCatch
         (let* _ := ping env in
          ret (Some (ms (clock env 1) - ms (clock env 0))%Z, 2))
         (fun err =>
            let* _ := setDisconnected in
            let* _ := setLastError (errText err) in
            ret (None, 1))) in
  let* timestamp := liftE (toISOString (Some (ms (clock env (snd probe))))) in
  let* w' := getWorld in
  ret (PHealth timestamp (enabled (redisState w'))
               (connected (redisState w')) (fst probe)
               (lastError (redisState w'))).

(** [a !== b] for a supplied token ([None] for [null] or [undefined]) and
    the configured one. *)
Definition differs (supplied : option string) (configured : string) : bool :=
  match supplied with
  | Some s => negb (String.eqb s configured)
  | None => true
  end.

Section Handler.

Variable JSON_parse : string -> option value.

(** The route [POST /api/events]. *)
Definition postEvents (env : Env) (req : Request) : M Response :=
  match readJsonBody JSON_parse (body req) defaultMaxBytes with
  | inl err =>
      let errorCode :=
        match err with
        | ErrorObj message => message
        | Other _ => "invalid_request"
        end in
      ret (Json 400 (PError errorCode))
  | inr body =>
      let* eventName := liftE (getProp body "event") in
      let* sessionId := liftE (getProp body "sessionId") in
      if negb (isValidEventName eventName)
      then ret (Json 400 (PError "invalid_event_name"))
      else
        let* stored := storeEvent env (str eventName) sessionId in
        let* w := getWorld in
        ret (Json 202 (PAccepted stored (enabled (redisState w))))
  end.

(** [req.headers["x-admin-token"] || url.searchParams.get("token")] *)
Definition suppliedToken (req : Request) : option string :=
  or_else (adminHeader req) (searchParam (query req) "token").

(** The route [GET /api/stats]. *)
Definition getStats (cfg : Config) (env : Env) (req : Request) : M Response :=
  if String.eqb (adminToken cfg) ""
  then ret (Json 403 (PError "admin_token_not_configured"))
  else if differs (suppliedToken req) (adminToken cfg)
  then ret (Json 401 (PError "unauthorized"))
  else
    let* w := getWorld in
    if unavailable w
    then ret (Json 503 (PUnavailable (lastError (redisState w))))
    else
      tryCatch
        (let days := requestedDays (query req) in
         let* stats := buildStats env days in
         ret (Json 200 (PStats days stats)))
        (fun err => ret (Json 500 (PStatsFailed (errText err)))).

(** The routes of the callback given to [http.createServer], on a request
    whose URL was built.  A result [inl] is a rejection of the callback's
    promise: no response is written. *)
Definition handle (cfg : Config) (env : Env) (req : Request) : M Response :=
  let get := String.eqb (method req) "GET" in
  let path := pathname req in
  if get && (String.eqb path "/" || String.eqb path "/index.html"
             || String.eqb path "/keccak")
  then serveIndex env
  else if get && String.eqb path "/api/health"
  then
    let* payload := buildHealth env in
    ret (Json 200 payload)
  else if String.eqb (method req) "POST" && String.eqb path "/api/events"
  then postEvents env req
  else if get && String.eqb path "/api/stats"
  then getStats cfg env req
  else ret (Text 404 "Not found").

End Handler.

(** ** The callback of the server *)

(** A request as Node hands it to the callback: [req.method], [req.url],
    the headers [host] and [x-admin-token] ([None] when absent), and the
    body as it will arrive. *)
Record Incoming := {
  reqMethod : string;
  reqUrl : option string;
  hostHeader : option string;
  tokenHeader : option string;
  incomingBody : Body
}.

(** [a || b] for a text [b]. *)
Definition or_text (a : option string) (b : string) : string :=
  match a with
  | Some (String _ _ as s) => s
  | _ => b
  end.

Section Server.

Variable JSON_parse : string -> option value.

(** [new URL(input, base)]: the [pathname] and the entries of the
    [searchParams] of the URL, or [None] when the constructor throws its
    [TypeError].  The parser belongs to the platform. *)
Variable URL_parse
  : string -> string -> option (string * list (string * string)).

(** [new URL(req.url || "/", `http://${req.headers.host || "localhost"}`)] *)
Definition requestUrl (r : Incoming)
  : option (string * list (string * string)) :=
  URL_parse (or_text (reqUrl r) "/")
            ("http://" ++ or_text (hostHeader r) "localhost").

(** The request the routes see once the URL is built. *)
Definition routeRequest (r : Incoming)
           (url : string * list (string * string)) : Request :=
  {| method := reqMethod r; pathname := fst url; query := snd url;
     adminHeader := tokenHeader r; body := incomingBody r |}.

(** The callback given to [http.createServer]: the URL is built first,
    outside every [try], then the routes are tried. *)
Definition onRequest (cfg : Config) (env : Env) (r : Incoming) : M Response :=
  match requestUrl r with
  | None => throw (ErrorObj "Invalid URL")
  | Some url => handle JSON_parse cfg env (routeRequest r url)
  end.

End Server.

(** ** Sample data *)

Definition sampleCfg : Config :=
  {| REDIS_URL := Some "redis://cache:6379"; ADMIN_TOKEN := Some "secret" |}.

(** A configuration without admin token. *)
Definition openCfg : Config :=
  {| REDIS_URL := Some "redis://cache:6379"; ADMIN_TOKEN := None |}.

(** An environment in which every round trip succeeds. *)
Definition quietEnv : Env :=
  {| clock := fun _ => time_2026_11_02;
     fault := fun _ => None;
     applied_on_fault := false;
     indexFile := inr "<html></html>" |}.

(** An environment in which every round trip fails. *)
Definition brokenEnv : Env :=
  {| clock := fun _ => time_2026_11_02;
     fault := fun _ => Some (ErrorObj "Connection is closed.");
     applied_on_fault := false;
     indexFile := inr "<html></html>" |}.

(** The process after a successful start against an empty server, and
    after a start whose connection attempt failed. *)
Definition freshWorld : World := boot sampleCfg Redis.empty None.

Definition downWorld : World :=
  boot sampleCfg Redis.empty (Some (ErrorObj "connect ECONNREFUSED")).


(** The last millisecond of the 2nd of November 2026 and the second after
    it. *)
Definition before_midnight : TimeValue :=
  {| ms := 1793663999999; ms_range := eq_refl |}.



Definition quote : string := String (ascii_of_nat 34) EmptyString.

(** The JSON text of an event with a session id. *)
Definition sampleText : string :=
  "{" ++ quote ++ "event" ++ quote ++ ":" ++ quote ++ "build_trace" ++ quote
  ++ "," ++ quote ++ "sessionId" ++ quote ++ ":" ++ quote ++ "abc-123"
  ++ quote ++ "}".

(** A decoder that knows a few texts. *)
Definition sampleParse (raw : string) : option value :=
  if String.eqb raw sampleText
  then Some (VObject [("event", VString "build_trace");
                      ("sessionId", VString "abc-123")])
  else if String.eqb raw "{}" then Some (VObject [])
  else if String.eqb raw "null" then Some VNull
  else None.

Definition noBody : Body := {| chunks := []; ending := End |}.

(** A URL parser that knows a few inputs: it refuses the path [//], which
    names no host, and a host with a space. *)
Definition sampleUrl (input base : string)
  : option (string * list (string * string)) :=
  if String.eqb input "//" || String.eqb base "http://a b" then None
  else if String.eqb input "/api/stats?days=3"
  then Some ("/api/stats", [("days", "3")])
  else Some (input, []).

Definition incoming (method url : string) (host : option string)
           (body : Body) : Incoming :=
  {| reqMethod := method; reqUrl := Some url; hostHeader := host;
     tokenHeader := None; incomingBody := body |}.

Definition statsRequest (header : option string)
           (query : list (string * string)) : Request :=
  {| method := "GET"; pathname := "/api/stats"; query := query;
     adminHeader := header; body := noBody |}.

Definition eventRequest (body : Body) : Request :=
  {| method := "POST"; pathname := "/api/events"; query := [];
     adminHeader := None; body := body |}.

(** The status code of the response a run of the handler wrote, if it
    wrote one. *)
Definition statusCode_of (r : Response) : Z :=
  match r with
  | Json c _ | Text c _ | Html c _ => c
  end.

Definition answered {W : Type} (out : (thrown + Response) * W) : option Z :=
  match fst out with
  | inr r => Some (statusCode_of r)
  | inl _ => None
  end.

(** The number of bytes a body delivers. *)
Definition bodyBytes (b : Body) : nat :=
  fold_right (fun chunk n => (String.length chunk + n)%nat) 0%nat (chunks b).

(** A body that delivers [sampleText] in two chunks. *)
Definition sampleBody : Body :=
  {| chunks := [String.substring 0 9 sampleText;
                String.substring 9 100 sampleText];
     ending := End |}.

(** ** The counters of a day *)

(** The sum of the counts of a hash. *)
Definition sum_counts (h : gmap string Z) : Z :=
  map_fold (fun _ v acc => (v + acc)%Z) 0%Z h.

(** The count under the reserved key, and the sum under all other keys. *)
Definition total_of (h : gmap string Z) : Z := default 0%Z (h !! "_total").
Definition named_sum (h : gmap string Z) : Z := sum_counts (delete "_total" h).

(** The data the client of a world talks to. *)
Definition db_of (w : World) : Redis.Db := default Redis.empty (redis w).

(** The Event Counter Map and the Session Set of a date. *)
Definition counters (w : World) (date : string) : gmap string Z :=
  Redis.hash_at (db_of w) (eventKeyOf date).

Definition sessions (w : World) (date : string) : gset string :=
  Redis.set_at (db_of w) (sessionKeyOf date).

Definition counter (w : World) (date name : string) : Z :=
  default 0%Z (counters w date !! name).

(** One call of [storeEvent], with the environment it runs in. *)
Record Ingest := {
  i_env : Env;
  i_name : string;
  i_session : value
}.

(** The world after a sequence of calls, oldest first. *)
Fixpoint ingestAll (calls : list Ingest) (w : World) : World :=
  match calls with
  | [] => w
  | c :: more =>
      ingestAll more (snd (storeEvent (i_env c) (i_name c) (i_session c) w))
  end.

(** What [HINCRBY key field 1] does to the hash at [key]. *)
Definition bump (field : string) (h : gmap string Z) : gmap string Z :=
  let v := (default 0 (h !! field) + 1)%Z in
  if ((Redis.int64_min <=? v) && (v <=? Redis.int64_max))%Z
  then <[field := v]> h else h.

(** The state of a hash that at most [n] transactions have touched: the
    total is the sum of the other counts, no count is negative, and the
    total is at most [n]. *)
Definition good (n : Z) (h : gmap string Z) : Prop :=
  total_of h = named_sum h
  /\ map_Forall (fun _ v => (0 <= v)%Z) h
  /\ (total_of h <= n)%Z.

Definition all_good (n : Z) (w : World) : Prop :=
  forall key, good n (Redis.hash_at (db_of w) key).

(** ** The days of a statistics query *)

(** The last millisecond of the year 9999. *)
Definition isoMax : Z := 253402300799999%Z.

(** The calendar date [i] days before the day of the [i]-th clock reading,
    as [YYYY-MM-DD]. *)
Definition dateBack (env : Env) (i : nat) : string :=
  isoDay (Day (clock env i) - Z.of_nat i).

(** The entry of offset [i] read from the data [db]. *)
Definition dayEntry (env : Env) (db : Redis.Db) (i : nat) : DayStats :=
  {| date := dateBack env i;
     events := Redis.hgetall db (eventKeyOf (dateBack env i));
     uniqueSessions := Redis.scard db (sessionKeyOf (dateBack env i)) |}.

(** The error the reads of offset [i] fail with, if one of them fails. *)
Definition readFault (env : Env) (i : nat) : option thrown :=
  match fault env (OpHgetall (eventKeyOf (dateBack env i))) with
  | Some err => Some err
  | None => fault env (OpScard (sessionKeyOf (dateBack env i)))
  end.

(** ** Numbers and integers *)

(** The value [(-1)^s * m * 2^e] of a Number compared with an integer. *)
Definition below (x : spec_float) (n : Z) : bool :=
  match x with
  | S754_finite s m e =>
      if (0 <=? e)%Z then (cond_Zopp s (Zpos m) * 2 ^ e <? n)%Z
      else (cond_Zopp s (Zpos m) <? n * 2 ^ (- e))%Z
  | S754_zero _ => (0 <? n)%Z
  | S754_infinity s => s
  | S754_nan => false
  end.

Definition above (x : spec_float) (n : Z) : bool :=
  match x with
  | S754_finite s m e =>
      if (0 <=? e)%Z then (n <? cond_Zopp s (Zpos m) * 2 ^ e)%Z
      else (n * 2 ^ (- e) <? cond_Zopp s (Zpos m))%Z
  | S754_zero _ => (n <? 0)%Z
  | S754_infinity s => negb s
  | S754_nan => false
  end.

(** ** Checks used in the proofs *)

(** [p] holds of the [n] integers from [z] on. *)
Fixpoint all_from (p : Z -> bool) (n : nat) (z : Z) : bool :=
  match n with
  | O => true
  | S n' => if p z then all_from p n' (z + 1)%Z else false
  end.

(** The split of a day of the era is in range and joins back, and up to
    the last day of December of the last year of the era the year stays in
    the era. *)
Definition era_ok (doe : Z) : bool :=
  let '(yoe, mp, d) := era_split doe in
  ((0 <=? yoe) && (yoe <? 400) && (0 <=? mp) && (mp <? 12)
   && (era_join yoe mp d =? doe)
   && ((146036 <? doe) || (yoe + (if mp <? 10 then 0 else 1) <=? 399)))%Z.

(** ** The life of the process *)

(** What happens to the process after the start: a request is served, or
    the client emits [ready], [end] or [error].  A request is served in
    one step; the properties stated over runs are about what the
    transactions and the handlers can do to the data and to [redisState],
    which does not depend on how the awaits of several requests
    interleave. *)
Inductive Step : Type :=
  | Serve (env : Env) (req : Request)
  | Ready
  | Ended
  | Errored (err : thrown).

(** The event handlers are registered on the client, so without a client
    no event arrives. *)
Definition clientEvent (f : RedisState -> RedisState) (w : World) : World :=
  match redis w with
  | Some _ =>
      {| redis := redis w; redisState := f (redisState w);
         issued := issued w |}
  | None => w
  end.

Definition step (J : string -> option value) (cfg : Config) (s : Step)
           (w : World) : World :=
  match s with
  | Serve env req => snd (handle J cfg env req w)
  | Ready => clientEvent on_ready w
  | Ended => clientEvent on_end w
  | Errored err => clientEvent (on_error err) w
  end.

Definition run (J : string -> option value) (cfg : Config)
           (steps : list Step) (w : World) : World :=
  fold_left (fun w s => step J cfg s w) steps w.

(** The event name a step would ingest, if it is a request whose body
    decodes to something with a string under [event]. *)
Definition eventNameOf (J : string -> option value) (s : Step)
  : option string :=
  match s with
  | Serve _ req =>
      match readJsonBody J (body req) defaultMaxBytes with
      | inr parsed =>
          match getProp parsed "event" with
          | inr (VString name) => Some name
          | _ => None
          end
      | inl _ => None
      end
  | _ => None
  end.

(** Every key that exists carries the time-to-live of 120 days. *)
Definition ttl_kept (db : Redis.Db) : Prop :=
  forall key, Redis.has_key db key = true ->
              Redis.ttl db !! key = Some ttlSeconds.

(** The six routes of the handler. *)
Definition routed (req : Request) : bool :=
  (String.eqb (method req) "GET"
   && (String.eqb (pathname req) "/" || String.eqb (pathname req) "/index.html"
       || String.eqb (pathname req) "/keccak"
       || String.eqb (pathname req) "/api/health"
       || String.eqb (pathname req) "/api/stats"))
  || (String.eqb (method req) "POST"
      && String.eqb (pathname req) "/api/events").

(** The round trips that only read. *)
Definition is_read (op : Op) : bool :=
  match op with
  | OpHgetall _ | OpScard _ => true
  | OpExec _ | OpPing => false
  end.

(** On every day the session set has at most as many members as the total
    counts, and the total is at most [bound]. *)
Definition sessions_bounded (bound : Z) (db : Redis.Db) : Prop :=
  forall date,
    (Z.of_nat (size (Redis.set_at db (sessionKeyOf date)))
     <= total_of (Redis.hash_at db (eventKeyOf date)) <= bound)%Z.

(** Two worlds with the same data behind an equally available store. *)
Definition similar (w1 w2 : World) : Prop :=
  db_of w1 = db_of w2 /\ unavailable w1 = unavailable w2.

(** Whether the transaction of a call reaches the server, given the date
    of the call. *)
Definition reached (env : Env) (name : string) (sid : value) (date : string)
  : bool :=
  match fault env (OpExec (eventTx (eventKeyOf date) (sessionKeyOf date)
                                   name sid)) with
  | None => true
  | Some _ => applied_on_fault env
  end.

(** The day of the month of every day of the era is from 1 to 31. *)
Definition era_day_ok (doe : Z) : bool :=
  let '(_, _, d) := era_split doe in ((1 <=? d) && (d <=? 31))%Z.

(** The number a string of decimal digits writes, continuing from [acc]. *)
Fixpoint digits_value (acc : Z) (s : string) : Z :=
  match s with
  | EmptyString => acc
  | String c s' =>
      digits_value (10 * acc + (Z.of_N (N_of_ascii c) - 48))%Z s'
  end.

(** Unfolds the plumbing of a computation and reduces the matches that
    became visible. *)
Ltac run_m :=
  unfold bind, liftE, ret, getWorld, tryCatch; cbv beta iota.

(** * Properties *)

(** ** Sample runs of the definitions *)

Example clampDays_of_12abc : requestedDays [("days", "12abc")] = 12%Z.
Proof. reflexivity. Qed.

Example clampDays_of_minus : requestedDays [("days", "  -3")] = 1%Z.
Proof. reflexivity. Qed.

Example valid_name_ex : isValidEventName (VString "Build_trace:2-x") = true.
Proof. vm_compute. reflexivity. Qed.

Example invalid_name_ex : isValidEventName (VString "build trace") = false.
Proof. vm_compute. reflexivity. Qed.

Example utcDateOffset_today :
  utcDateOffset time_2026_11_02 0 = inr "2026-11-02".
Proof. vm_compute. reflexivity. Qed.

Example utcDateOffset_2_back :
  utcDateOffset time_2026_11_02 2 = inr "2026-10-31".
Proof. vm_compute. reflexivity. Qed.

Example toISOString_full :
  toISOString (Some (ms time_2026_11_02)) = inr "2026-11-02T12:34:56.789Z".
Proof. vm_compute. reflexivity. Qed.

Example utcDateOffset_leap :
  utcDateOffset {| ms := 1709251200000; ms_range := eq_refl |} 1
  = inr "2024-02-29".
Proof. vm_compute. reflexivity. Qed.

(** ** Validators *)

Lemma event_class_chars (c : ascii) :
  Regex.class_matches_i eventNameClass c = event_char c.
Proof. destruct c as [[] [] [] [] [] [] [] []]; vm_compute; reflexivity. Qed.

Lemma session_class_chars (c : ascii) :
  Regex.class_matches_i sessionIdClass c = session_char c.
Proof. destruct c as [[] [] [] [] [] [] [] []]; vm_compute; reflexivity. Qed.

Lemma all_chars_ext (p q : ascii -> bool) (s : string) :
  (forall c, p c = q c) -> all_chars p s = all_chars q s.
Proof.
  intros Hpq. induction s as [|c s IH]; simpl; [reflexivity|].
  rewrite Hpq, IH. reflexivity.
Qed.

Lemma rep_then_eol_spec (cls : ascii -> bool) (min max : nat) (s : string) :
  forall count, (count <= max)%nat ->
    Regex.rep_then_eol cls min max count s
    = Nat.leb min (count + String.length s)
      && Nat.leb (count + String.length s) max
      && all_chars cls s.
Proof.
  induction s as [|c s IH]; intros count Hc; simpl.
  - rewrite Nat.add_0_r.
    destruct (Nat.leb_spec min count); simpl; [|reflexivity].
    destruct (Nat.leb_spec count max); [reflexivity|lia].
  - destruct (Nat.ltb_spec count max) as [Hlt|Hge]; simpl.
    + destruct (cls c) eqn:Hcls; simpl.
      * rewrite orb_false_r, IH by lia.
        replace (S count + String.length s)%nat
          with (count + S (String.length s))%nat by lia.
        reflexivity.
      * rewrite andb_false_r. reflexivity.
    + replace (Nat.leb (count + S (String.length s)) max) with false.
      * rewrite andb_false_r. reflexivity.
      * symmetry. apply Nat.leb_gt. lia.
Qed.

Lemma test_from_later (cls : ascii -> bool) (min max : nat) (s : string) :
  forall pos, (0 < pos)%nat -> Regex.test_from cls min max pos s = false.
Proof.
  induction s as [|c s IH]; intros pos Hpos; simpl;
    unfold Regex.anchored_at;
    destruct pos as [|pos]; try lia; simpl; [reflexivity|].
  apply IH. lia.
Qed.

Lemma regex_test_spec (cl : Regex.class) (p : ascii -> bool)
      (min max : nat) (s : string) :
  (forall c, Regex.class_matches_i cl c = p c) ->
  Regex.test cl min max s
  = Nat.leb min (String.length s) && Nat.leb (String.length s) max
    && all_chars p s.
Proof.
  intros Hp. unfold Regex.test.
  assert (Hrest : match s with
                  | EmptyString => false
                  | String _ rest' =>
                      Regex.test_from (Regex.class_matches_i cl) min max 1 rest'
                  end = false).
  { destruct s; [reflexivity|]. apply test_from_later. lia. }
  destruct s as [|c s]; simpl in *; unfold Regex.anchored_at; simpl.
  - rewrite orb_false_r, andb_true_r. destruct min; reflexivity.
  - rewrite Hrest, orb_false_r.
    pose proof (rep_then_eol_spec (Regex.class_matches_i cl) min max
                  (String c s) 0 (Nat.le_0_l max)) as H.
    simpl in H. rewrite H.
    rewrite (all_chars_ext _ p s Hp), Hp. reflexivity.
Qed.

(** The validators of the handler's model, in closed form. *)
Lemma validators_closed (v : value) :
  isValidEventName v
  = match v with
    | VString s => Nat.leb 1 (String.length s)
                   && Nat.leb (String.length s) 64
                   && all_chars event_char s
    | _ => false
    end
  /\ isValidSessionId v
     = match v with
       | VString s => Nat.leb 6 (String.length s)
                      && Nat.leb (String.length s) 80
                      && all_chars session_char s
       | _ => false
       end.
Proof.
  destruct v; try (split; reflexivity). cbn [isValidEventName isValidSessionId].
  rewrite (regex_test_spec _ _ _ _ _ event_class_chars).
  rewrite (regex_test_spec _ _ _ _ _ session_class_chars).
  split; reflexivity.
Qed.

(** *** Strings of 16-bit code units *)

Lemma all_below_spec (p : N -> bool) (n : nat) :
  Utf16.all_below p n = true ->
  forall c, (c < N.of_nat n)%N -> p c = true.
Proof.
  unfold Utf16.all_below. intros Hall c Hc.
  rewrite forallb_forall in Hall.
  specialize (Hall (N.to_nat c)). rewrite N2Nat.id in Hall.
  apply Hall. apply in_seq. lia.
Qed.

(** Below 128 the canonical form is the ASCII upper case, whatever the
    table says elsewhere. *)
Lemma Canonicalize_ascii (up : N -> list N) (c : N) :
  (c < 128)%N -> Utf16.Canonicalize up c = Utf16.asciiUpper c.
Proof.
  intros Hc. unfold Utf16.Canonicalize, Utf16.toUpperCase.
  destruct (N.ltb_spec c 128) as [_|Hge]; [|lia].
  destruct (N.leb_spec 128 c) as [Hge|_]; [lia|]. reflexivity.
Qed.

(** From 128 on the canonical form is never below 128. *)
Lemma Canonicalize_beyond (up : N -> list N) (c : N) :
  (128 <= c)%N -> (128 <= Utf16.Canonicalize up c)%N.
Proof.
  intros Hc. unfold Utf16.Canonicalize, Utf16.toUpperCase.
  destruct (N.ltb_spec c 128) as [Hlt|_]; [lia|].
  destruct (up c) as [|cu [|cu' more]]; try exact Hc.
  destruct (N.leb_spec 128 c) as [_|Hlt]; [|lia].
  destruct (N.ltb_spec cu 128) as [Hlow|Hhigh]; cbn [andb]; assumption.
Qed.

Lemma asciiUpper_below (a : N) :
  (a < 128)%N -> (Utf16.asciiUpper a < 128)%N.
Proof.
  intros Ha. unfold Utf16.asciiUpper.
  destruct ((97 <=? a) && (a <=? 122))%N; lia.
Qed.

(** A class of ASCII characters under [i]: a code unit below 128 matches
    by the ASCII upper case, and no code unit from 128 on matches. *)
Lemma matches_class_ascii (up : N -> list N) (cl : Regex.class) (c : N) :
  Forall (fun a => (a < 128)%N) (Utf16.members cl) ->
  Utf16.matches_class up cl c
  = (c <? 128)%N
    && existsb (fun a => (Utf16.asciiUpper a =? Utf16.asciiUpper c)%N)
               (Utf16.members cl).
Proof.
  intros Hmem. unfold Utf16.matches_class.
  induction Hmem as [|a l Ha _ IH]; cbn [existsb].
  - rewrite andb_false_r. reflexivity.
  - rewrite IH, (Canonicalize_ascii up a Ha).
    destruct (N.ltb_spec c 128) as [Hc|Hc]; cbn [andb].
    + rewrite (Canonicalize_ascii up c Hc). reflexivity.
    + pose proof (Canonicalize_beyond up c Hc) as Hbig.
      pose proof (asciiUpper_below a Ha) as Hsmall.
      destruct (N.eqb_spec (Utf16.asciiUpper a) (Utf16.Canonicalize up c));
        [lia|reflexivity].
Qed.

(** The classes of the two patterns match exactly the characters the
    design document lists. *)
Lemma class_units (up : N -> list N) (cl : Regex.class) (p : N -> bool) :
  forallb (fun a => (a <? 128)%N) (Utf16.members cl) = true ->
  Utf16.all_below
    (fun c => Bool.eqb
                (existsb (fun a => (Utf16.asciiUpper a =? Utf16.asciiUpper c)%N)
                         (Utf16.members cl))
                (p c)) 128 = true ->
  (forall c, (128 <= c)%N -> p c = false) ->
  forall c, Utf16.matches_class up cl c = p c.
Proof.
  intros Hmem Hlow Hhigh c.
  rewrite matches_class_ascii.
  - destruct (N.ltb_spec c 128) as [Hc|Hc]; cbn [andb].
    + apply eqb_prop. apply (all_below_spec _ 128 Hlow c). exact Hc.
    + symmetry. apply Hhigh. exact Hc.
  - apply (proj2 (List.Forall_forall _ _)). intros a Ha.
    rewrite forallb_forall in Hmem. apply N.ltb_lt. apply Hmem. exact Ha.
Qed.

Lemma alnum_unit_ascii (c : N) : Utf16.alnum_unit c = true -> (c < 128)%N.
Proof.
  unfold Utf16.alnum_unit. intros H.
  apply orb_prop in H as [H|H]; [apply orb_prop in H as [H|H]|];
    apply andb_prop in H as [_ H]; apply N.leb_le in H; lia.
Qed.

Lemma event_unit_beyond (c : N) :
  (128 <= c)%N -> Utf16.event_unit c = false.
Proof.
  intros Hc. destruct (Utf16.event_unit c) eqn:H; [|reflexivity].
  unfold Utf16.event_unit in H.
  apply orb_prop in H as [H|H]; [apply orb_prop in H as [H|H];
    [apply orb_prop in H as [H|H]|]|];
    try (apply alnum_unit_ascii in H; lia); apply N.eqb_eq in H; lia.
Qed.

Lemma session_unit_beyond (c : N) :
  (128 <= c)%N -> Utf16.session_unit c = false.
Proof.
  intros Hc. destruct (Utf16.session_unit c) eqn:H; [|reflexivity].
  unfold Utf16.session_unit in H.
  apply orb_prop in H as [H|H];
    try (apply alnum_unit_ascii in H; lia); apply N.eqb_eq in H; lia.
Qed.

Lemma event_class_units (up : N -> list N) (c : N) :
  Utf16.matches_class up eventNameClass c = Utf16.event_unit c.
Proof.
  apply class_units;
    [vm_compute; reflexivity|vm_compute; reflexivity|].
  apply event_unit_beyond.
Qed.

Lemma session_class_units (up : N -> list N) (c : N) :
  Utf16.matches_class up sessionIdClass c = Utf16.session_unit c.
Proof.
  apply class_units;
    [vm_compute; reflexivity|vm_compute; reflexivity|].
  apply session_unit_beyond.
Qed.

Lemma repeat_then_end_spec (cls : N -> bool) (min max : nat)
      (s : Utf16.ustring) :
  forall count, (count <= max)%nat ->
    Utf16.repeat_then_end cls min max count s
    = Nat.leb min (count + List.length s)
      && Nat.leb (count + List.length s) max
      && forallb cls s.
Proof.
  induction s as [|c s IH]; intros count Hc;
    cbn [Utf16.repeat_then_end List.length forallb].
  - rewrite Nat.add_0_r, andb_true_r.
    destruct (Nat.leb_spec min count); cbn [andb]; [|reflexivity].
    destruct (Nat.leb_spec count max); [reflexivity|lia].
  - destruct (Nat.ltb_spec count max) as [Hlt|Hge]; cbn [andb].
    + destruct (cls c) eqn:Hcls; cbn [andb].
      * rewrite orb_false_r, IH by lia.
        replace (S count + List.length s)%nat
          with (count + S (List.length s))%nat by lia.
        reflexivity.
      * rewrite andb_false_r. reflexivity.
    + replace (Nat.leb (count + S (List.length s)) max) with false.
      * rewrite andb_false_r. reflexivity.
      * symmetry. apply Nat.leb_gt. lia.
Qed.

Lemma test_at_later (cls : N -> bool) (min max : nat) (s : Utf16.ustring) :
  forall pos, (0 < pos)%nat -> Utf16.test_at cls min max pos s = false.
Proof.
  induction s as [|c s IH]; intros pos Hpos; cbn [Utf16.test_at];
    unfold Utf16.anchored;
    destruct pos as [|pos]; try lia; cbn [Nat.eqb andb orb]; [reflexivity|].
  apply IH. lia.
Qed.

Lemma forallb_same (p q : N -> bool) (s : Utf16.ustring) :
  (forall c, p c = q c) -> forallb p s = forallb q s.
Proof.
  intros Hpq. induction s as [|c s IH]; cbn [forallb]; [reflexivity|].
  rewrite Hpq, IH. reflexivity.
Qed.

Lemma test_units_spec (up : N -> list N) (cl : Regex.class) (p : N -> bool)
      (min max : nat) (s : Utf16.ustring) :
  (forall c, Utf16.matches_class up cl c = p c) ->
  Utf16.test up cl min max s
  = Nat.leb min (List.length s) && Nat.leb (List.length s) max
    && forallb p s.
Proof.
  intros Hp. unfold Utf16.test.
  rewrite <- (forallb_same (Utf16.matches_class up cl) p s Hp).
  destruct s as [|c s]; cbn [Utf16.test_at]; unfold Utf16.anchored;
    cbn [Nat.eqb andb].
  - rewrite orb_false_r. cbn [Utf16.repeat_then_end List.length forallb].
    rewrite andb_true_r. destruct min; reflexivity.
  - rewrite (test_at_later _ min max s 1) by lia. rewrite orb_false_r.
    rewrite (repeat_then_end_spec _ min max (c :: s) 0 (Nat.le_0_l max)).
    reflexivity.
Qed.

(** The strings of the handler's model among the strings in full. *)
Lemma length_units (s : string) :
  List.length (Utf16.units s) = String.length s.
Proof.
  unfold Utf16.units. rewrite length_map.
  induction s as [|c s IH]; cbn [list_ascii_of_string List.length String.length];
    [reflexivity|]. rewrite IH. reflexivity.
Qed.

Lemma forallb_units (p : N -> bool) (q : ascii -> bool) (s : string) :
  (forall c, p (N_of_ascii c) = q c) ->
  forallb p (Utf16.units s) = all_chars q s.
Proof.
  intros Hpq. unfold Utf16.units.
  induction s as [|c s IH]; cbn [list_ascii_of_string map forallb all_chars];
    [reflexivity|]. rewrite Hpq, IH. reflexivity.
Qed.

Lemma event_unit_char (c : ascii) :
  Utf16.event_unit (N_of_ascii c) = event_char c.
Proof. destruct c as [[] [] [] [] [] [] [] []]; vm_compute; reflexivity. Qed.

Lemma session_unit_char (c : ascii) :
  Utf16.session_unit (N_of_ascii c) = session_char c.
Proof. destruct c as [[] [] [] [] [] [] [] []]; vm_compute; reflexivity. Qed.

Example kelvin_sign_is_no_letter :
  Utf16.isValidEventName Utf16.sampleUpper (Some [8490%N]) = false
  /\ Utf16.isValidEventName Utf16.sampleUpper (Some [305%N]) = false
  /\ Utf16.isValidEventName Utf16.sampleUpper (Some [383%N]) = false
  /\ Utf16.isValidEventName Utf16.sampleUpper (Some [75%N; 107%N]) = true.
Proof. vm_compute. repeat split. Qed.

(** C6. On every JavaScript string, a sequence of 16-bit code units, and
    with any case table of the Unicode standard, [isValidEventName] holds
    exactly of the strings of 1 to 64 code units from [A-Za-z0-9_:-], and
    [isValidSessionId] exactly of the strings of 6 to 80 code units from
    [A-Za-z0-9-].  Both are total boolean functions, so every other input
    (the empty string, a string over the length limit, a string with
    another character, also one that has an ASCII letter as its upper
    case, a value that is not a string) gives [false].  The validators of
    the handler's model are these on the strings of code units up to
    255. *)
Theorem validators_spec (unicodeUpper : N -> list N)
        (arg : option Utf16.ustring) (v : value) :
  (Utf16.isValidEventName unicodeUpper arg = true <->
   exists s, arg = Some s
             /\ (1 <= List.length s <= 64)%nat
             /\ forallb Utf16.event_unit s = true)
  /\ (Utf16.isValidSessionId unicodeUpper arg = true <->
      exists s, arg = Some s
                /\ (6 <= List.length s <= 80)%nat
                /\ forallb Utf16.session_unit s = true)
  /\ (arg = None ->
      Utf16.isValidEventName unicodeUpper arg = false
      /\ Utf16.isValidSessionId unicodeUpper arg = false)
  /\ isValidEventName v
     = Utf16.isValidEventName unicodeUpper (Utf16.stringOf v)
  /\ isValidSessionId v
     = Utf16.isValidSessionId unicodeUpper (Utf16.stringOf v).
Proof.
  assert (Hev : forall s,
            Utf16.test unicodeUpper eventNameClass 1 64 s
            = Nat.leb 1 (List.length s) && Nat.leb (List.length s) 64
              && forallb Utf16.event_unit s).
  { intros s. apply test_units_spec. apply event_class_units. }
  assert (Hse : forall s,
            Utf16.test unicodeUpper sessionIdClass 6 80 s
            = Nat.leb 6 (List.length s) && Nat.leb (List.length s) 80
              && forallb Utf16.session_unit s).
  { intros s. apply test_units_spec. apply session_class_units. }
  split; [|split; [|split; [|split]]].
  - destruct arg as [s|]; cbn [Utf16.isValidEventName].
    + rewrite Hev. split.
      * intros H. apply andb_prop in H as [H Hall].
        apply andb_prop in H as [Hlo Hhi]. apply Nat.leb_le in Hlo, Hhi.
        exists s. auto.
      * intros (s' & Hs & [Hlo Hhi] & Hall). inversion Hs; subst s'.
        rewrite Hall. apply Nat.leb_le in Hlo, Hhi. rewrite Hlo, Hhi.
        reflexivity.
    + split; [discriminate|]. intros (s & Hs & _). discriminate Hs.
  - destruct arg as [s|]; cbn [Utf16.isValidSessionId].
    + rewrite Hse. split.
      * intros H. apply andb_prop in H as [H Hall].
        apply andb_prop in H as [Hlo Hhi]. apply Nat.leb_le in Hlo, Hhi.
        exists s. auto.
      * intros (s' & Hs & [Hlo Hhi] & Hall). inversion Hs; subst s'.
        rewrite Hall. apply Nat.leb_le in Hlo, Hhi. rewrite Hlo, Hhi.
        reflexivity.
    + split; [discriminate|]. intros (s & Hs & _). discriminate Hs.
  - intros ->. split; reflexivity.
  - rewrite (proj1 (validators_closed v)).
    destruct v; try reflexivity.
    cbn [Utf16.stringOf Utf16.isValidEventName].
    rewrite Hev, length_units, (forallb_units _ _ s event_unit_char).
    reflexivity.
  - rewrite (proj2 (validators_closed v)).
    destruct v; try reflexivity.
    cbn [Utf16.stringOf Utf16.isValidSessionId].
    rewrite Hse, length_units, (forallb_units _ _ s session_unit_char).
    reflexivity.
Qed.

Lemma validators_spec_witness :
  Utf16.isValidEventName Utf16.sampleUpper (Some [8490%N; 105%N; 116%N])
  = false
  /\ isValidEventName (VString "build_trace") = true
  /\ isValidSessionId (VString "abc") = false.
Proof.
  destruct (validators_spec Utf16.sampleUpper
              (Some [8490%N; 105%N; 116%N]) (VString "build_trace"))
    as (Hname & _ & _ & Hnarrow & _).
  destruct (validators_spec Utf16.sampleUpper
              (Utf16.stringOf (VString "abc")) (VString "abc"))
    as (_ & Hsession & _ & _ & Hnarrow').
  split; [|split].
  - apply not_true_is_false. intros Hv. apply (proj1 Hname) in Hv.
    destruct Hv as (s & Hs & _ & Hall). inversion Hs; subst s.
    vm_compute in Hall. discriminate Hall.
  - rewrite Hnarrow. vm_compute. reflexivity.
  - rewrite Hnarrow'. apply not_true_is_false. intros Hv.
    apply (proj1 Hsession) in Hv.
    destruct Hv as (s & Hs & [Hlen _] & _). inversion Hs; subst s.
    vm_compute in Hlen. lia.
Defined.

(** ** [clampDays] *)

Lemma floorZ_below (x : spec_float) (n : Z) :
  below x n = true -> isFinite x = true -> (floorZ x < n)%Z.
Proof.
  destruct x as [s|s| |s m e]; simpl; try discriminate.
  - intros H _. apply Z.ltb_lt in H. exact H.
  - intros H _. destruct (Z.leb_spec 0 e) as [He|He].
    + apply Z.ltb_lt in H. rewrite Z.shiftl_mul_pow2 by lia. exact H.
    + apply Z.ltb_lt in H.
      replace e with (- (- e))%Z by lia.
      rewrite Z.shiftl_opp_r, Z.shiftr_div_pow2 by lia.
      apply Z.div_lt_upper_bound; [apply Z.pow_pos_nonneg; lia|]. lia.
Qed.

Lemma floorZ_above (x : spec_float) (n : Z) :
  above x n = true -> isFinite x = true -> (n <= floorZ x)%Z.
Proof.
  destruct x as [s|s| |s m e]; simpl; try discriminate.
  - intros H _. apply Z.ltb_lt in H. lia.
  - intros H _. destruct (Z.leb_spec 0 e) as [He|He].
    + apply Z.ltb_lt in H. rewrite Z.shiftl_mul_pow2 by lia. lia.
    + apply Z.ltb_lt in H.
      replace e with (- (- e))%Z by lia.
      rewrite Z.shiftl_opp_r, Z.shiftr_div_pow2 by lia.
      apply Z.div_le_lower_bound; [apply Z.pow_pos_nonneg; lia|]. lia.
Qed.

(** C7. [clampDays] maps a finite Number to an integer from 1 to 30 (1 for
    a value below 1, 30 for a value above 30) and a Number that is not
    finite to 7; [clampDays(0) = 1], [clampDays(31) = 30],
    [clampDays(NaN) = 7]; and the handler asks for 7 days when the [days]
    parameter is missing or does not parse to a number. *)
Theorem clampDays_spec (x : spec_float) (q : list (string * string)) :
  (isFinite x = true ->
     (1 <= clampDays x <= 30)%Z
     /\ (below x 1 = true -> clampDays x = 1%Z)
     /\ (above x 30 = true -> clampDays x = 30%Z))
  /\ (isFinite x = false -> clampDays x = 7%Z)
  /\ clampDays (numberOfZ false 0) = 1%Z
  /\ clampDays (numberOfZ false 31) = 30%Z
  /\ clampDays S754_nan = 7%Z
  /\ (searchParam q "days" = None -> requestedDays q = 7%Z)
  /\ (forall s, searchParam q "days" = Some s ->
                ParseInt.parseInt10 s = S754_nan -> requestedDays q = 7%Z).
Proof.
  split; [intros H; split; [|split]|split; [|repeat split]].
  - unfold clampDays. rewrite H. simpl. lia.
  - intros Hb. pose proof (floorZ_below x 1 Hb H).
    unfold clampDays. rewrite H. simpl. lia.
  - intros Ha. pose proof (floorZ_above x 30 Ha H).
    unfold clampDays. rewrite H. simpl. lia.
  - intros H. unfold clampDays. rewrite H. reflexivity.
  - intros H. unfold requestedDays. rewrite H. reflexivity.
  - intros s Hs Hnan. unfold requestedDays. rewrite Hs.
    destruct s as [|c s]; simpl; [reflexivity|].
    rewrite Hnan. reflexivity.
Qed.

Lemma clampDays_spec_witness :
  clampDays (numberOfZ true (-5)) = 1%Z
  /\ clampDays (S754_infinity false) = 7%Z
  /\ requestedDays [("token", "t")] = 7%Z
  /\ requestedDays [("days", "abc")] = 7%Z.
Proof.
  destruct (clampDays_spec (numberOfZ true (-5)) [("token", "t")])
    as (Hfin & _ & _ & _ & _ & Hmissing & _).
  destruct (Hfin eq_refl) as (_ & Hbelow & _).
  destruct (clampDays_spec (S754_infinity false) [("days", "abc")])
    as (_ & Hinf & _ & _ & _ & _ & Hnan).
  split; [|split; [|split]].
  - apply Hbelow. reflexivity.
  - apply Hinf. reflexivity.
  - apply Hmissing. reflexivity.
  - apply (Hnan "abc"); reflexivity.
Defined.

(** ** Routing *)

Lemma handle_get_stats J cfg env req :
  method req = "GET" -> pathname req = "/api/stats" ->
  handle J cfg env req = getStats cfg env req.
Proof. intros Hm Hp. unfold handle. rewrite Hm, Hp. reflexivity. Qed.

Lemma handle_post_events J cfg env req :
  method req = "POST" -> pathname req = "/api/events" ->
  handle J cfg env req = postEvents J env req.
Proof. intros Hm Hp. unfold handle. rewrite Hm, Hp. reflexivity. Qed.

(** ** The admin gate *)

Lemma differs_spec (supplied : option string) (configured : string) :
  differs supplied configured = true <-> supplied <> Some configured.
Proof.
  destruct supplied as [s|]; simpl.
  - destruct (String.eqb_spec s configured) as [->|Hne]; simpl.
    + split; [discriminate|]. intros H. destruct H. reflexivity.
    + split; [|reflexivity]. intros _ H. inversion H. contradiction.
  - split; [discriminate|reflexivity].
Qed.

(** Once the tokens agree the route answers 503, 200 or 500. *)
Lemma getStats_authorized cfg env req w :
  adminToken cfg <> "" ->
  differs (suppliedToken req) (adminToken cfg) = false ->
  exists r w', getStats cfg env req w = (inr r, w')
               /\ (statusCode_of r = 503 \/ statusCode_of r = 200
                   \/ statusCode_of r = 500)%Z.
Proof.
  intros Hcfg Hsame. unfold getStats.
  destruct (String.eqb_spec (adminToken cfg) "") as [|_]; [contradiction|].
  rewrite Hsame. unfold bind, getWorld.
  destruct (unavailable w).
  - eexists _, _. split; [reflexivity|]. simpl. auto.
  - unfold tryCatch, ret.
    destruct (buildStats env (requestedDays (query req)) w) as [[e|stats] w'].
    + eexists _, _. split; [reflexivity|]. simpl. auto.
    + eexists _, _. split; [reflexivity|]. simpl. auto.
Qed.

Lemma getStats_denied_iff cfg env req w :
  adminToken cfg <> "" ->
  (getStats cfg env req w = (inr (Json 401 (PError "unauthorized")), w)
   <-> suppliedToken req <> Some (adminToken cfg)).
Proof.
  intros Hcfg. rewrite <- differs_spec.
  destruct (differs (suppliedToken req) (adminToken cfg)) eqn:Hd.
  - split; [reflexivity|]. intros _. unfold getStats.
    destruct (String.eqb_spec (adminToken cfg) "") as [|_]; [contradiction|].
    rewrite Hd. reflexivity.
  - split; [|discriminate]. intros H.
    destruct (getStats_authorized cfg env req w Hcfg Hd)
      as (r & w' & Hr & Hcode).
    rewrite Hr in H. inversion H; subst. simpl in Hcode. lia.
Qed.

(** C10. The supplied token is the [x-admin-token] header when that value
    is truthy and the [token] query parameter otherwise: with the header
    absent or empty the query parameter is what is compared with the
    configured token, and only a non-empty header takes precedence. *)
Theorem suppliedToken_falls_back J cfg env (req : Request) (w : World) :
  method req = "GET" -> pathname req = "/api/stats" ->
  adminToken cfg <> "" ->
  suppliedToken req
  = match adminHeader req with
    | Some h => if String.eqb h "" then searchParam (query req) "token"
                else Some h
    | None => searchParam (query req) "token"
    end
  /\ (handle J cfg env req w = (inr (Json 401 (PError "unauthorized")), w)
      <-> differs (suppliedToken req) (adminToken cfg) = true)
  /\ (adminHeader req = None \/ adminHeader req = Some "" ->
      differs (suppliedToken req) (adminToken cfg)
      = differs (searchParam (query req) "token") (adminToken cfg))
  /\ (forall h, adminHeader req = Some h -> h <> "" ->
      differs (suppliedToken req) (adminToken cfg)
      = differs (Some h) (adminToken cfg)).
Proof.
  intros Hm Hp Hcfg. rewrite (handle_get_stats J cfg env req Hm Hp).
  split; [|split; [|split]].
  - unfold suppliedToken, or_else.
    destruct (adminHeader req) as [[|c h]|]; reflexivity.
  - rewrite differs_spec. apply getStats_denied_iff. exact Hcfg.
  - unfold suppliedToken. intros [-> | ->]; reflexivity.
  - intros h Hh Hne. unfold suppliedToken. rewrite Hh.
    destruct h; [contradiction|reflexivity].
Qed.

Lemma suppliedToken_falls_back_witness :
  handle sampleParse sampleCfg quietEnv
         (statsRequest (Some "") [("token", "wrong")]) freshWorld
  = (inr (Json 401 (PError "unauthorized")), freshWorld).
Proof.
  destruct (suppliedToken_falls_back sampleParse sampleCfg quietEnv
              (statsRequest (Some "") [("token", "wrong")]) freshWorld
              eq_refl eq_refl) as (_ & Hiff & _).
  - discriminate.
  - apply Hiff. reflexivity.
Defined.

(** C3, as the code has it.  Without a configured admin token a
    [GET /api/stats] request is answered 403 whatever token it carries.
    With one, a non-empty [x-admin-token] header decides alone, whatever the
    query says: the answer is 401 exactly when the header differs from the
    configured token.  With the header absent or empty the [token] query
    parameter decides: the answer is 401 exactly when it is absent or
    differs from the configured token. *)
Theorem stats_authorization J cfg env (req : Request) (w : World) :
  method req = "GET" -> pathname req = "/api/stats" ->
  (adminToken cfg = "" ->
   handle J cfg env req w
   = (inr (Json 403 (PError "admin_token_not_configured")), w))
  /\ (adminToken cfg <> "" ->
      (forall h, adminHeader req = Some h -> h <> "" ->
         (handle J cfg env req w
          = (inr (Json 401 (PError "unauthorized")), w)
          <-> h <> adminToken cfg))
      /\ (adminHeader req = None \/ adminHeader req = Some "" ->
          (handle J cfg env req w
           = (inr (Json 401 (PError "unauthorized")), w)
           <-> searchParam (query req) "token" <> Some (adminToken cfg)))).
Proof.
  intros Hm Hp. rewrite (handle_get_stats J cfg env req Hm Hp).
  split.
  - intros Hnone. unfold getStats. rewrite Hnone. reflexivity.
  - intros Hcfg. split.
    + intros h Hh Hne. rewrite (getStats_denied_iff cfg env req w Hcfg).
      unfold suppliedToken. rewrite Hh.
      destruct h; [contradiction|]. simpl. split; congruence.
    + intros Hhdr. rewrite (getStats_denied_iff cfg env req w Hcfg).
      unfold suppliedToken. destruct Hhdr as [-> | ->]; reflexivity.
Qed.

Lemma stats_authorization_witness :
  handle sampleParse openCfg quietEnv
         (statsRequest (Some "secret") []) freshWorld
  = (inr (Json 403 (PError "admin_token_not_configured")), freshWorld)
  /\ handle sampleParse sampleCfg quietEnv
            (statsRequest (Some "guess") [("token", "secret")]) freshWorld
     = (inr (Json 401 (PError "unauthorized")), freshWorld)
  /\ handle sampleParse sampleCfg quietEnv (statsRequest None []) freshWorld
     = (inr (Json 401 (PError "unauthorized")), freshWorld).
Proof.
  split; [|split].
  - apply (stats_authorization sampleParse openCfg quietEnv
             (statsRequest (Some "secret") []) freshWorld eq_refl eq_refl).
    reflexivity.
  - destruct (stats_authorization sampleParse sampleCfg quietEnv
                (statsRequest (Some "guess") [("token", "secret")])
                freshWorld eq_refl eq_refl) as [_ H].
    destruct H as [Hheader _]; [discriminate|].
    apply (Hheader "guess"); [reflexivity|discriminate|discriminate].
  - destruct (stats_authorization sampleParse sampleCfg quietEnv
                (statsRequest None []) freshWorld eq_refl eq_refl) as [_ H].
    destruct H as [_ Hquery]; [discriminate|].
    apply Hquery; [left; reflexivity|discriminate].
Defined.

(** C3 as stated fails on an empty header: the request carries the header
    [x-admin-token] with the empty value, which differs from the configured
    token, and the right token in the query.  Were the header to take
    precedence the answer would be 401; the handler answers 200. *)
Lemma stats_header_precedence_counterexample :
  let req := statsRequest (Some "") [("token", "secret")] in
  adminHeader req = Some ""
  /\ searchParam (query req) "token" = Some "secret"
  /\ adminToken sampleCfg = "secret"
  /\ answered (handle sampleParse sampleCfg quietEnv req freshWorld)
     = Some 200%Z
  /\ fst (handle sampleParse sampleCfg quietEnv req freshWorld)
     <> inr (Json 401 (PError "unauthorized")).
Proof.
  cbv zeta. split; [reflexivity|]. split; [reflexivity|].
  split; [reflexivity|].
  assert (Hans : answered (handle sampleParse sampleCfg quietEnv
                             (statsRequest (Some "") [("token", "secret")])
                             freshWorld) = Some 200%Z).
  { vm_compute. reflexivity. }
  split; [exact Hans|].
  intros Hfst. unfold answered in Hans. rewrite Hfst in Hans.
  discriminate Hans.
Qed.

(** ** The calendar *)

Lemma all_from_spec (p : Z -> bool) (n : nat) :
  forall z, all_from p n z = true ->
  forall k, (z <= k < z + Z.of_nat n)%Z -> p k = true.
Proof.
  induction n as [|n IH]; intros z Hall k Hk; [lia|].
  simpl in Hall. destruct (p z) eqn:Hpz; [|discriminate].
  destruct (Z.eq_dec k z) as [->|Hne]; [exact Hpz|].
  apply (IH (z + 1)%Z Hall). lia.
Qed.

Lemma era_ok_all : all_from era_ok (Z.to_nat 146097) 0 = true.
Proof. vm_cast_no_check (eq_refl true). Qed.

Lemma era_split_join (doe : Z) :
  (0 <= doe < 146097)%Z ->
  let '(yoe, mp, d) := era_split doe in
  (0 <= yoe < 400 /\ 0 <= mp < 12 /\ era_join yoe mp d = doe
   /\ (doe <= 146036 -> yoe + (if mp <? 10 then 0 else 1) <= 399))%Z.
Proof.
  intros Hdoe.
  assert (Hok : era_ok doe = true).
  { apply (all_from_spec era_ok _ 0%Z era_ok_all). lia. }
  unfold era_ok in Hok. destruct (era_split doe) as [[yoe mp] d].
  apply andb_prop in Hok as [Hok Hyear].
  repeat (apply andb_prop in Hok as [Hok ?]).
  apply orb_prop in Hyear.
  repeat match goal with
         | H : (_ <=? _)%Z = true |- _ => apply Z.leb_le in H
         | H : (_ <? _)%Z = true |- _ => apply Z.ltb_lt in H
         | H : (_ =? _)%Z = true |- _ => apply Z.eqb_eq in H
         end.
  repeat split; lia.
Qed.

(** [MakeDay] on the year and month of a day [z] and any date: the day
    [z] moved by the difference of the dates. *)
Lemma MakeDay_civil (z date : Z) :
  let '(y, m, d) := civil_from_days z in
  MakeDay y (m - 1) date = (z - d + date)%Z.
Proof.
  unfold civil_from_days.
  pose proof (Z.mod_pos_bound (z + 719468) 146097 ltac:(lia)) as Hdoe.
  pose proof (era_split_join _ Hdoe) as Hsplit.
  pose proof (Z.div_mod (z + 719468) 146097 ltac:(lia)) as Hdm.
  destruct (era_split ((z + 719468) mod 146097)) as [[yoe mp] d].
  destruct Hsplit as (Hyoe & Hmp & Hjoin & _).
  set (era := ((z + 719468) / 146097)%Z) in *.
  unfold MakeDay, days_from_civil.
  assert (Hy : forall y' mp',
             y' = (yoe + era * 400)%Z -> mp' = mp ->
             ((y' / 400) * 146097 + era_join (y' mod 400) mp' 1 - 719468
              + date - 1 = z - d + date)%Z).
  { intros y' mp' -> ->.
    rewrite Z.div_add, Z.mod_add, Z.div_small, Z.mod_small by lia.
    unfold era_join in *. lia. }
  destruct (Z.ltb_spec mp 10) as [Hlt|Hge].
  - replace (mp + 3 - 1 + 1)%Z with (mp + 3)%Z by lia.
    destruct (Z.leb_spec (mp + 3) 2); [lia|].
    destruct (Z.ltb_spec 2 (mp + 3)); [|lia].
    apply Hy; lia.
  - replace (mp - 9 - 1 + 1)%Z with (mp - 9)%Z by lia.
    destruct (Z.leb_spec (mp - 9) 2); [|lia].
    destruct (Z.ltb_spec 2 (mp - 9)); [lia|].
    apply Hy; lia.
Qed.

(** [setUTCDate(getUTCDate() - k)] moves the time value back by [k] days,
    when the result is in range. *)
Lemma setUTCDate_back (t k : Z) :
  setUTCDate t (getUTCDate t - k) = TimeClip (t - k * msPerDay).
Proof.
  unfold setUTCDate, getUTCDate, YearFromTime, MonthFromTime, DateFromTime.
  pose proof (MakeDay_civil (Day t) (snd (civil_from_days (Day t)) - k)) as H.
  destruct (civil_from_days (Day t)) as [[y m] d]. simpl in *.
  rewrite H. f_equal. unfold MakeDate, Day, TimeWithinDay.
  pose proof (Z.div_mod t msPerDay ltac:(unfold msPerDay; lia)). lia.
Qed.

(** ** Reading the body *)

(** C9. A [POST /api/events] request whose body ends normally without a
    single byte ([data] events carry at least one byte each, so there was
    none) makes [readJsonBody] resolve to the empty object; the [event]
    field is then missing and the answer is 400 [invalid_event_name], not
    400 [invalid_json]. *)
Theorem empty_body_invalid_event_name J cfg env (req : Request) (w : World) :
  method req = "POST" -> pathname req = "/api/events" ->
  ending (body req) = End ->
  Forall (fun chunk => chunk <> "") (chunks (body req)) ->
  bodyBytes (body req) = 0%nat ->
  readJsonBody J (body req) defaultMaxBytes = inr (VObject [])
  /\ handle J cfg env req w
     = (inr (Json 400 (PError "invalid_event_name")), w).
Proof.
  intros Hm Hp Hend Hchunks Hbytes.
  assert (Hnone : chunks (body req) = []).
  { unfold bodyBytes in Hbytes.
    destruct (chunks (body req)) as [|chunk more]; [reflexivity|].
    inversion Hchunks as [|? ? Hne _]; subst.
    destruct chunk; [contradiction|]. simpl in Hbytes. lia. }
  assert (Hread : readJsonBody J (body req) defaultMaxBytes = inr (VObject [])).
  { unfold readJsonBody. rewrite Hnone, Hend. reflexivity. }
  split; [exact Hread|].
  rewrite (handle_post_events J cfg env req Hm Hp).
  unfold postEvents. rewrite Hread. reflexivity.
Qed.

Lemma empty_body_invalid_event_name_witness :
  readJsonBody sampleParse noBody defaultMaxBytes = inr (VObject [])
  /\ handle sampleParse sampleCfg quietEnv (eventRequest noBody) freshWorld
     = (inr (Json 400 (PError "invalid_event_name")), freshWorld).
Proof.
  apply (empty_body_invalid_event_name sampleParse sampleCfg quietEnv
           (eventRequest noBody) freshWorld eq_refl eq_refl eq_refl).
  - simpl. constructor.
  - reflexivity.
Defined.

(** ** [storeEvent] *)

Lemma unavailable_false (w : World) :
  unavailable w = false ->
  exists db, redis w = Some db /\ connected (redisState w) = true.
Proof.
  unfold unavailable. intros H. apply orb_false_elim in H as [Hc Hconn].
  destruct (redis w) as [db|]; [|discriminate].
  exists db. split; [reflexivity|].
  destruct (connected (redisState w)); [reflexivity|discriminate].
Qed.

(** The date of today is always there: [setUTCDate] puts back the time
    value the clock gave. *)
Lemma utcDateOffset_today_returns (now : TimeValue) :
  exists date, utcDateOffset now 0 = inr date.
Proof.
  unfold utcDateOffset. rewrite setUTCDate_back.
  replace (ms now - 0 * msPerDay)%Z with (ms now) by lia.
  unfold TimeClip. rewrite (ms_range now). simpl. eexists. reflexivity.
Qed.

Lemma storeEvent_unavailable env name sid (w : World) :
  unavailable w = true -> storeEvent env name sid w = (inr false, w).
Proof.
  intros H. unfold storeEvent, bind, getWorld. rewrite H. reflexivity.
Qed.

(** What a call does when the store is available: one [EXEC] round trip
    with the transaction of today. *)
Lemma storeEvent_available env name sid (w : World) db date :
  redis w = Some db -> connected (redisState w) = true ->
  utcDateOffset (clock env 0) 0 = inr date ->
  let tx := eventTx (eventKeyOf date) (sessionKeyOf date) name sid in
  storeEvent env name sid w
  = match fault env (OpExec tx) with
    | None =>
        (inr true,
         {| redis := Some (Redis.exec tx db); redisState := redisState w;
            issued := issued w ++ [OpExec tx] |})
    | Some err =>
        (inr false,
         {| redis := Some (if applied_on_fault env then Redis.exec tx db
                           else db);
            redisState := {| enabled := enabled (redisState w);
                             connected := connected (redisState w);
                             lastError := Some (errText err) |};
            issued := issued w ++ [OpExec tx] |})
    end.
Proof.
  intros Hdb Hconn Hdate tx.
  assert (Hun : unavailable w = false).
  { unfold unavailable. rewrite Hdb, Hconn. reflexivity. }
  unfold storeEvent, bind, getWorld. rewrite Hun.
  unfold liftE. rewrite Hdate.
  unfold tryCatch, txExec, roundTrip. rewrite Hdb. fold tx.
  destruct (fault env (OpExec tx)); reflexivity.
Qed.

(** C2. An ingestion with a valid event name always ends in
    [202 {ok:true, stored, redisEnabled}]: [storeEvent] returns without
    throwing; it returns [false] and leaves everything as it was when there
    is no client or no connection; and when the transaction fails, the error
    is caught, its text becomes [redisState.lastError], and [storeEvent]
    returns [false]. *)
Theorem ingestion_never_fails J cfg env (req : Request) (w : World)
        (parsed eventName sessionId : value) :
  method req = "POST" -> pathname req = "/api/events" ->
  readJsonBody J (body req) defaultMaxBytes = inr parsed ->
  getProp parsed "event" = inr eventName ->
  getProp parsed "sessionId" = inr sessionId ->
  isValidEventName eventName = true ->
  exists stored w',
    storeEvent env (str eventName) sessionId w = (inr stored, w')
    /\ handle J cfg env req w
       = (inr (Json 202 (PAccepted stored (enabled (redisState w)))), w')
    /\ enabled (redisState w') = enabled (redisState w)
    /\ (unavailable w = true -> stored = false /\ w' = w)
    /\ (forall date err,
          unavailable w = false ->
          utcDateOffset (clock env 0) 0 = inr date ->
          fault env (OpExec (eventTx (eventKeyOf date) (sessionKeyOf date)
                                     (str eventName) sessionId)) = Some err ->
          stored = false
          /\ lastError (redisState w') = Some (errText err)).
Proof.
  intros Hm Hp Hread Hev Hsid Hvalid.
  assert (Hstore : exists stored w',
            storeEvent env (str eventName) sessionId w = (inr stored, w')
            /\ enabled (redisState w') = enabled (redisState w)
            /\ (unavailable w = true -> stored = false /\ w' = w)
            /\ (forall date err,
                  unavailable w = false ->
                  utcDateOffset (clock env 0) 0 = inr date ->
                  fault env (OpExec (eventTx (eventKeyOf date)
                                             (sessionKeyOf date)
                                             (str eventName) sessionId))
                  = Some err ->
                  stored = false
                  /\ lastError (redisState w') = Some (errText err))).
  { destruct (unavailable w) eqn:Hun.
    - exists false, w. rewrite (storeEvent_unavailable _ _ _ _ Hun).
      repeat split; discriminate.
    - destruct (unavailable_false w Hun) as (db & Hdb & Hconn).
      destruct (utcDateOffset_today_returns (clock env 0)) as [date Hdate].
      pose proof (storeEvent_available env (str eventName) sessionId w db
                    date Hdb Hconn Hdate) as Hrun.
      cbv zeta in Hrun.
      destruct (fault env (OpExec (eventTx (eventKeyOf date)
                  (sessionKeyOf date) (str eventName) sessionId))) eqn:Hf.
      + eexists _, _. split; [exact Hrun|].
        split; [reflexivity|]. split; [discriminate|].
        intros date' err _ Hdate' Hf'.
        rewrite Hdate in Hdate'. inversion Hdate'; subst date'.
        rewrite Hf in Hf'. inversion Hf'; subst. split; reflexivity.
      + eexists _, _. split; [exact Hrun|].
        split; [reflexivity|]. split; [discriminate|].
        intros date' err _ Hdate' Hf'.
        rewrite Hdate in Hdate'. inversion Hdate'; subst date'.
        rewrite Hf in Hf'. discriminate. }
  destruct Hstore as (stored & w' & Hrun & Hen & Hrest).
  exists stored, w'. split; [exact Hrun|]. split; [|split; assumption].
  rewrite (handle_post_events J cfg env req Hm Hp).
  unfold postEvents. rewrite Hread. unfold bind, liftE.
  rewrite Hev, Hsid, Hvalid. simpl. rewrite Hrun.
  unfold getWorld, ret. rewrite Hen. reflexivity.
Qed.

Lemma ingestion_never_fails_witness :
  exists stored w',
    storeEvent brokenEnv "build_trace" (VString "abc-123") freshWorld
    = (inr stored, w')
    /\ handle sampleParse sampleCfg brokenEnv (eventRequest sampleBody)
              freshWorld
       = (inr (Json 202 (PAccepted stored true)), w')
    /\ stored = false
    /\ lastError (redisState w') = Some "Connection is closed.".
Proof.
  destruct (ingestion_never_fails sampleParse sampleCfg brokenEnv
              (eventRequest sampleBody) freshWorld
              (VObject [("event", VString "build_trace");
                        ("sessionId", VString "abc-123")])
              (VString "build_trace") (VString "abc-123")
              eq_refl eq_refl eq_refl eq_refl eq_refl eq_refl)
    as (stored & w' & Hrun & Hhandle & _ & _ & Hfault).
  exists stored, w'. split; [exact Hrun|]. split; [exact Hhandle|].
  apply (Hfault "2026-11-02" (ErrorObj "Connection is closed."));
    reflexivity.
Defined.

(** ** The total counter *)

(** C1 fails for the event name [_total], which [isValidEventName]
    accepts: the transaction then increments the reserved key twice and no
    other key, so after one ingestion on an empty store the total is 2 and
    the other counts sum to 0. *)
Lemma total_broken_by_reserved_name :
  let w := ingestAll [{| i_env := quietEnv; i_name := "_total";
                         i_session := VUndefined |}] freshWorld in
  isValidEventName (VString "_total") = true
  /\ fst (storeEvent quietEnv "_total" VUndefined freshWorld) = inr true
  /\ total_of (counters w "2026-11-02") = 2%Z
  /\ named_sum (counters w "2026-11-02") = 0%Z.
Proof. vm_compute. repeat split; reflexivity. Qed.

Lemma sum_counts_insert_fresh (h : gmap string Z) k v :
  h !! k = None -> sum_counts (<[k:=v]> h) = (v + sum_counts h)%Z.
Proof.
  intros Hk. unfold sum_counts.
  apply (map_fold_insert_L (fun _ v acc => (v + acc)%Z)); [|exact Hk].
  intros. lia.
Qed.

Lemma sum_counts_delete (h : gmap string Z) k v :
  h !! k = Some v -> sum_counts h = (v + sum_counts (delete k h))%Z.
Proof.
  intros Hk. unfold sum_counts.
  apply (map_fold_delete_L (fun _ v acc => (v + acc)%Z)); [|exact Hk].
  intros. lia.
Qed.

Lemma sum_counts_insert (h : gmap string Z) k v :
  sum_counts (<[k:=v]> h) = (sum_counts h - default 0 (h !! k) + v)%Z.
Proof.
  rewrite <- insert_delete_eq.
  rewrite sum_counts_insert_fresh by apply lookup_delete_eq.
  destruct (h !! k) as [old|] eqn:Hk; simpl.
  - rewrite (sum_counts_delete h k old Hk). lia.
  - rewrite (delete_id h k Hk). lia.
Qed.

Lemma sum_counts_nonneg (h : gmap string Z) :
  map_Forall (fun _ v => (0 <= v)%Z) h -> (0 <= sum_counts h)%Z.
Proof.
  induction h as [|k v h Hk IH] using map_ind; intros Hall.
  - unfold sum_counts. rewrite map_fold_empty. lia.
  - rewrite sum_counts_insert_fresh by exact Hk.
    apply map_Forall_insert in Hall as [Hv Hrest]; [|exact Hk].
    specialize (IH Hrest). lia.
Qed.

Lemma lookup_le_sum (h : gmap string Z) k :
  map_Forall (fun _ v => (0 <= v)%Z) h ->
  (0 <= default 0 (h !! k) <= sum_counts h)%Z.
Proof.
  intros Hall. destruct (h !! k) as [v|] eqn:Hk; simpl.
  - rewrite (sum_counts_delete h k v Hk).
    pose proof (Hall k v Hk) as Hv. simpl in Hv.
    assert (0 <= sum_counts (delete k h))%Z.
    { apply sum_counts_nonneg. apply map_Forall_delete. exact Hall. }
    lia.
  - pose proof (sum_counts_nonneg h Hall). lia.
Qed.

Lemma good_empty : good 0 ∅.
Proof.
  unfold good, total_of, named_sum. rewrite lookup_empty, delete_empty.
  unfold sum_counts. rewrite map_fold_empty. simpl.
  split; [reflexivity|]. split; [apply map_Forall_empty|lia].
Qed.

Lemma good_mono n n' (h : gmap string Z) :
  (n <= n')%Z -> good n h -> good n' h.
Proof. intros Hle (Ht & Hall & Hn). repeat split; [exact Ht|exact Hall|lia]. Qed.

(** The two increments of a transaction keep a hash good, as long as the
    name is not the reserved key. *)
Lemma bump_good n (h : gmap string Z) name :
  name <> "_total" -> good n h -> (n < Redis.int64_max)%Z ->
  good (n + 1) (bump "_total" (bump name h)).
Proof.
  intros Hname (Ht & Hall & Hn) Hmax.
  assert (Hold : (0 <= default 0 (h !! name) <= named_sum h)%Z).
  { unfold named_sum.
    rewrite <- (lookup_delete_ne h "_total" name) by congruence.
    apply lookup_le_sum. apply map_Forall_delete. exact Hall. }
  assert (Htot : (0 <= total_of h)%Z).
  { rewrite Ht. lia. }
  unfold Redis.int64_max, Redis.int64_min in *.
  assert (Hb1 : bump name h = <[name := (default 0 (h !! name) + 1)%Z]> h).
  { unfold bump, Redis.int64_max, Redis.int64_min. cbv zeta.
    destruct (Z.leb_spec (-9223372036854775808)
                (default 0 (h !! name) + 1)%Z); [|lia].
    destruct (Z.leb_spec (default 0 (h !! name) + 1)%Z
                9223372036854775807); [reflexivity|lia]. }
  rewrite Hb1.
  set (h1 := <[name := (default 0 (h !! name) + 1)%Z]> h).
  assert (Ht1 : total_of h1 = total_of h).
  { unfold total_of, h1. rewrite lookup_insert_ne by exact Hname.
    reflexivity. }
  assert (Hb2 : bump "_total" h1 = <["_total" := (total_of h + 1)%Z]> h1).
  { unfold bump, Redis.int64_max, Redis.int64_min. cbv zeta.
    fold (total_of h1). rewrite Ht1.
    destruct (Z.leb_spec (-9223372036854775808) (total_of h + 1)%Z); [|lia].
    destruct (Z.leb_spec (total_of h + 1)%Z 9223372036854775807);
      [reflexivity|lia]. }
  rewrite Hb2. unfold good. split; [|split].
  - unfold total_of at 1. rewrite lookup_insert_eq. simpl.
    unfold named_sum. rewrite delete_insert_eq. unfold h1.
    rewrite delete_insert_ne by congruence.
    rewrite sum_counts_insert.
    rewrite lookup_delete_ne by congruence.
    fold (named_sum h). lia.
  - apply map_Forall_insert_2; [lia|].
    apply map_Forall_insert_2; [lia|exact Hall].
  - unfold total_of at 1. rewrite lookup_insert_eq. simpl. lia.
Qed.

(** The hashes after the commands of a transaction. *)
Lemma hash_at_hincrby db key field k :
  Redis.hash_at (Redis.run (Redis.Hincrby key field 1) db) k
  = if decide (k = key) then bump field (Redis.hash_at db key)
    else Redis.hash_at db k.
Proof.
  unfold Redis.run, bump.
  destruct ((Redis.int64_min <=? default 0 (Redis.hash_at db key !! field) + 1)
            && (default 0 (Redis.hash_at db key !! field) + 1
                <=? Redis.int64_max))%Z.
  - unfold Redis.hash_at at 1. cbn [Redis.hashes].
    rewrite lookup_insert. destruct (decide (key = k)) as [->|Hne].
    + rewrite decide_True by reflexivity. reflexivity.
    + rewrite decide_False by congruence. reflexivity.
  - destruct (decide (k = key)) as [->|]; reflexivity.
Qed.

Lemma hash_at_expire db key seconds k :
  Redis.hash_at (Redis.run (Redis.Expire key seconds) db) k
  = Redis.hash_at db k.
Proof. unfold Redis.run. destruct (Redis.has_key db key); reflexivity. Qed.

Lemma hash_at_sadd db key member k :
  Redis.hash_at (Redis.run (Redis.Sadd key member) db) k = Redis.hash_at db k.
Proof. reflexivity. Qed.

Lemma hash_at_eventTx db ek sk name sid k :
  Redis.hash_at (Redis.exec (eventTx ek sk name sid) db) k
  = if decide (k = ek) then bump "_total" (bump name (Redis.hash_at db ek))
    else Redis.hash_at db k.
Proof.
  unfold Redis.exec, eventTx. rewrite fold_left_app. cbn [fold_left].
  assert (Hsession :
            forall d, Redis.hash_at
                        (fold_left (fun d c => Redis.run c d)
                           (if isValidSessionId sid
                            then [Redis.Sadd sk (str sid);
                                  Redis.Expire sk ttlSeconds]
                            else []) d) k
                      = Redis.hash_at d k).
  { intros d. destruct (isValidSessionId sid); cbn [fold_left];
      [rewrite hash_at_expire, hash_at_sadd|]; reflexivity. }
  rewrite Hsession, hash_at_expire, hash_at_hincrby.
  destruct (decide (k = ek)) as [->|Hne].
  - f_equal. rewrite hash_at_hincrby, decide_True by reflexivity.
    reflexivity.
  - rewrite hash_at_hincrby, decide_False by exact Hne. reflexivity.
Qed.

(** A call of [storeEvent] leaves the data alone or runs the transaction of
    some date on them. *)
Lemma storeEvent_data env name sid (w : World) :
  db_of (snd (storeEvent env name sid w)) = db_of w
  \/ exists date,
       db_of (snd (storeEvent env name sid w))
       = Redis.exec (eventTx (eventKeyOf date) (sessionKeyOf date) name sid)
                    (db_of w).
Proof.
  destruct (unavailable w) eqn:Hun.
  - left. rewrite (storeEvent_unavailable env name sid w Hun). reflexivity.
  - destruct (unavailable_false w Hun) as (db & Hdb & Hconn).
    destruct (utcDateOffset_today_returns (clock env 0)) as [date Hdate].
    pose proof (storeEvent_available env name sid w db date Hdb Hconn Hdate)
      as Hrun.
    cbv zeta in Hrun. rewrite Hrun. unfold db_of at 2 4. rewrite Hdb.
    destruct (fault env _).
    + destruct (applied_on_fault env); [right; exists date|left];
        reflexivity.
    + right. exists date. reflexivity.
Qed.

Lemma storeEvent_good n env name sid (w : World) :
  name <> "_total" -> (n < Redis.int64_max)%Z ->
  all_good n w -> all_good (n + 1) (snd (storeEvent env name sid w)).
Proof.
  intros Hname Hmax Hgood key.
  destruct (storeEvent_data env name sid w) as [-> | [date ->]].
  - apply (good_mono n); [lia|apply Hgood].
  - rewrite hash_at_eventTx. destruct (decide (key = eventKeyOf date)).
    + apply bump_good; [exact Hname|apply Hgood|exact Hmax].
    + apply (good_mono n); [lia|apply Hgood].
Qed.

Lemma ingestAll_good (calls : list Ingest) :
  forall n (w : World),
    Forall (fun c => i_name c <> "_total") calls ->
    (n + Z.of_nat (List.length calls) <= Redis.int64_max)%Z ->
    all_good n w ->
    all_good (n + Z.of_nat (List.length calls)) (ingestAll calls w).
Proof.
  induction calls as [|c calls IH]; intros n w Hnames Hlen Hgood.
  - cbn [ingestAll List.length].
    replace (n + Z.of_nat 0)%Z with n by lia. exact Hgood.
  - inversion Hnames as [|? ? Hc Hrest]; subst.
    cbn [ingestAll List.length] in *.
    replace (n + Z.of_nat (S (List.length calls)))%Z
      with ((n + 1) + Z.of_nat (List.length calls))%Z by lia.
    apply IH; [exact Hrest|lia|].
    apply storeEvent_good; [exact Hc|lia|exact Hgood].
Qed.

(** The invariant of the total counter for every other event name: on a
    store that starts empty, after any sequence of ingestions (fewer than
    2^63 of them) whose names are not [_total], whatever the clock and the
    faults of each call, the total of every day is the sum of its other
    counts. *)
Lemma total_is_sum_of_other_names cfg connectError (calls : list Ingest)
      (date : string) :
  Forall (fun c => i_name c <> "_total") calls ->
  (Z.of_nat (List.length calls) <= Redis.int64_max)%Z ->
  let w := ingestAll calls (boot cfg Redis.empty connectError) in
  total_of (counters w date) = named_sum (counters w date).
Proof.
  intros Hnames Hlen w.
  assert (Hstart : all_good 0 (boot cfg Redis.empty connectError)).
  { intros key.
    assert (Hempty : Redis.hash_at
                       (db_of (boot cfg Redis.empty connectError)) key = ∅).
    { unfold boot. destruct (enabled _); reflexivity. }
    rewrite Hempty. apply good_empty. }
  pose proof (ingestAll_good calls 0 _ Hnames ltac:(lia) Hstart
                (eventKeyOf date)) as (Hsum & _).
  exact Hsum.
Qed.

(** ** Replaying an event *)

(** C8 fails for the event name [_total]: each of the two ingestions
    increments that counter twice, so it grows by 4; the session set grows
    by one. *)
Lemma replay_of_reserved_name :
  let call := {| i_env := quietEnv; i_name := "_total";
                 i_session := VString "abc-123" |} in
  let w := ingestAll [call; call] freshWorld in
  isValidEventName (VString "_total") = true
  /\ isValidSessionId (VString "abc-123") = true
  /\ counter freshWorld "2026-11-02" "_total" = 0%Z
  /\ counter w "2026-11-02" "_total" = 4%Z
  /\ size (sessions w "2026-11-02") = 1%nat.
Proof. vm_compute. repeat split; reflexivity. Qed.

Lemma set_at_hincrby db key field k :
  Redis.set_at (Redis.run (Redis.Hincrby key field 1) db) k
  = Redis.set_at db k.
Proof.
  unfold Redis.run.
  destruct ((Redis.int64_min <=? default 0 (Redis.hash_at db key !! field) + 1)
            && (default 0 (Redis.hash_at db key !! field) + 1
                <=? Redis.int64_max))%Z; reflexivity.
Qed.

Lemma set_at_expire db key seconds k :
  Redis.set_at (Redis.run (Redis.Expire key seconds) db) k
  = Redis.set_at db k.
Proof. unfold Redis.run. destruct (Redis.has_key db key); reflexivity. Qed.

Lemma set_at_sadd db key member :
  Redis.set_at (Redis.run (Redis.Sadd key member) db) key
  = {[member]} ∪ Redis.set_at db key.
Proof.
  unfold Redis.run. unfold Redis.set_at at 1. cbn [Redis.sets].
  rewrite lookup_insert_eq. reflexivity.
Qed.

(** The session set of a date after the transaction of that date with a
    valid session id. *)
Lemma set_at_eventTx db ek sk name sid :
  isValidSessionId sid = true ->
  Redis.set_at (Redis.exec (eventTx ek sk name sid) db) sk
  = {[str sid]} ∪ Redis.set_at db sk.
Proof.
  intros Hsid. unfold Redis.exec, eventTx. rewrite Hsid.
  rewrite fold_left_app. cbn [fold_left].
  rewrite set_at_expire, set_at_sadd, set_at_expire, !set_at_hincrby.
  reflexivity.
Qed.

Lemma bump_lookup_ne field other (h : gmap string Z) :
  field <> other -> bump field h !! other = h !! other.
Proof.
  intros Hne. unfold bump. cbv zeta.
  destruct ((Redis.int64_min <=? default 0 (h !! field) + 1)
            && (default 0 (h !! field) + 1 <=? Redis.int64_max))%Z;
    [apply lookup_insert_ne; exact Hne|reflexivity].
Qed.

Lemma bump_lookup field (h : gmap string Z) :
  (Redis.int64_min <= default 0 (h !! field) + 1 <= Redis.int64_max)%Z ->
  default 0%Z (bump field h !! field) = (default 0 (h !! field) + 1)%Z.
Proof.
  intros [Hlo Hhi]. unfold bump. cbv zeta.
  apply Z.leb_le in Hlo, Hhi. rewrite Hlo, Hhi. simpl.
  rewrite lookup_insert_eq. reflexivity.
Qed.

(** A stored ingestion of a name other than [_total] adds one to the
    counter of the name and puts the session id into the set of the day. *)
Lemma storeEvent_stored env name sid (w : World) date :
  name <> "_total" -> isValidSessionId sid = true ->
  unavailable w = false ->
  utcDateOffset (clock env 0) 0 = inr date ->
  (forall tx, fault env (OpExec tx) = None) ->
  (Redis.int64_min <= counter w date name + 1 <= Redis.int64_max)%Z ->
  let w' := snd (storeEvent env name sid w) in
  fst (storeEvent env name sid w) = inr true
  /\ unavailable w' = false
  /\ counter w' date name = (counter w date name + 1)%Z
  /\ sessions w' date = {[str sid]} ∪ sessions w date.
Proof.
  intros Hname Hsid Hun Hdate Hfault Hrange w'.
  destruct (unavailable_false w Hun) as (db & Hdb & Hconn).
  pose proof (storeEvent_available env name sid w db date Hdb Hconn Hdate)
    as Hrun.
  cbv zeta in Hrun. rewrite Hfault in Hrun. subst w'. rewrite Hrun.
  cbn [fst snd]. split; [reflexivity|]. split; [|split].
  - unfold unavailable. cbn [redis redisState]. rewrite Hconn. reflexivity.
  - unfold counter, counters, db_of in *. cbn [redis]. rewrite Hdb in *.
    cbn [default from_option id] in *.
    rewrite hash_at_eventTx, decide_True by reflexivity.
    rewrite bump_lookup_ne by congruence. apply bump_lookup. exact Hrange.
  - unfold sessions, db_of. cbn [redis]. rewrite Hdb.
    cbn [default from_option id]. apply set_at_eventTx. exact Hsid.
Qed.

(** [SADD] of a member that is there changes nothing, and [SADD] adds at
    most one member. *)
Lemma sadd_twice (x : string) (s : gset string) :
  {[x]} ∪ ({[x]} ∪ s) = {[x]} ∪ s.
Proof. rewrite (assoc_L (∪)), union_idemp_L. reflexivity. Qed.

Lemma sadd_size (x : string) (s : gset string) :
  (size ({[x]} ∪ s) <= size s + 1)%nat.
Proof.
  rewrite size_union_alt, size_singleton.
  assert (Hsub : s ∖ {[x]} ⊆ s).
  { intros y Hy. apply elem_of_difference in Hy as [Hy _]. exact Hy. }
  apply subseteq_size in Hsub. lia.
Qed.

(** Replay for every other event name: two stored ingestions of the same
    pair on the same day add exactly 2 to the counter of the name; the
    second leaves the session set as it is, and the set grows by at most
    one element over the two. *)
Lemma replay_of_other_names env1 env2 name sid (w : World) date :
  name <> "_total" -> isValidSessionId sid = true ->
  unavailable w = false ->
  utcDateOffset (clock env1 0) 0 = inr date ->
  utcDateOffset (clock env2 0) 0 = inr date ->
  (forall tx, fault env1 (OpExec tx) = None) ->
  (forall tx, fault env2 (OpExec tx) = None) ->
  (Redis.int64_min <= counter w date name + 1)%Z ->
  (counter w date name + 2 <= Redis.int64_max)%Z ->
  let w1 := snd (storeEvent env1 name sid w) in
  let w2 := snd (storeEvent env2 name sid w1) in
  counter w2 date name = (counter w date name + 2)%Z
  /\ sessions w2 date = sessions w1 date
  /\ (size (sessions w2 date) <= size (sessions w date) + 1)%nat.
Proof.
  intros Hname Hsid Hun Hd1 Hd2 Hf1 Hf2 Hlo Hhi w1 w2.
  destruct (storeEvent_stored env1 name sid w date Hname Hsid Hun Hd1 Hf1
              ltac:(lia)) as (_ & Hun1 & Hc1 & Hs1).
  fold w1 in Hun1, Hc1, Hs1.
  destruct (storeEvent_stored env2 name sid w1 date Hname Hsid Hun1 Hd2 Hf2
              ltac:(lia)) as (_ & _ & Hc2 & Hs2).
  fold w2 in Hc2, Hs2.
  split; [lia|]. split.
  - rewrite Hs2, Hs1. apply sadd_twice.
  - rewrite Hs2, Hs1, sadd_twice. apply sadd_size.
Qed.

(** ** The dates of a statistics query *)

Lemma length_append (a b : string) :
  String.length (a ++ b) = (String.length a + String.length b)%nat.
Proof. induction a as [|c a IH]; simpl; [reflexivity|]. rewrite IH. reflexivity. Qed.

Lemma length_pad (width : nat) : forall n, String.length (pad width n) = width.
Proof.
  induction width as [|width IH]; intros n; simpl; [reflexivity|].
  rewrite length_append, IH. simpl. lia.
Qed.

Lemma substring_prefix (a b : string) :
  String.substring 0 (String.length a) (a ++ b) = a.
Proof.
  induction a as [|c a IH]; simpl.
  - destruct b; reflexivity.
  - rewrite IH. reflexivity.
Qed.

(** From March of the year 0 to the end of the year 9999 the year has four
    digits. *)
Lemma year_range (z : Z) :
  (-719468 <= z <= 2932896)%Z ->
  (0 <= fst (fst (civil_from_days z)) <= 9999)%Z.
Proof.
  intros Hz. unfold civil_from_days.
  pose proof (Z.mod_pos_bound (z + 719468) 146097 ltac:(lia)) as Hdoe.
  pose proof (era_split_join _ Hdoe) as Hsplit.
  pose proof (Z.div_mod (z + 719468) 146097 ltac:(lia)) as Hdm.
  destruct (era_split ((z + 719468) mod 146097)) as [[yoe mp] d].
  destruct Hsplit as (Hyoe & Hmp & _ & Hyear).
  cbn [fst].
  assert (Hera : (0 <= (z + 719468) / 146097 <= 24)%Z).
  { split; [apply Z.div_pos; lia|].
    apply Z.lt_succ_r. apply Z.div_lt_upper_bound; lia. }
  destruct (Z.ltb_spec mp 10) as [Hlt|Hge].
  - destruct (Z.leb_spec (mp + 3) 2); [lia|]. lia.
  - destruct (Z.leb_spec (mp - 9) 2); [|lia]. lia.
Qed.

Lemma length_isoDay (z : Z) :
  (-719468 <= z <= 2932896)%Z -> String.length (isoDay z) = 10%nat.
Proof.
  intros Hz. pose proof (year_range z Hz) as Hy. unfold isoDay.
  destruct (civil_from_days z) as [[y m] d]. cbn [fst] in Hy.
  unfold isoYear.
  destruct (Z.leb_spec 0 y); [|lia]. destruct (Z.leb_spec y 9999); [|lia].
  cbn [andb]. rewrite !length_append, !length_pad. reflexivity.
Qed.

(** [utcDateOffset(k)] gives the date [k] days before the day of the clock
    reading, for a clock between 1970 and 9999 and up to 30 days back. *)
Lemma utcDateOffset_back (now : TimeValue) (k : nat) :
  (0 <= ms now <= isoMax)%Z -> (k <= 30)%nat ->
  utcDateOffset now (Z.of_nat k) = inr (isoDay (Day now - Z.of_nat k)).
Proof.
  intros Hnow Hk. unfold isoMax in Hnow.
  unfold utcDateOffset. rewrite setUTCDate_back.
  assert (Hday : Day (ms now - Z.of_nat k * msPerDay)
                 = (Day now - Z.of_nat k)%Z).
  { unfold Day.
    replace (ms now - Z.of_nat k * msPerDay)%Z
      with (ms now + (- Z.of_nat k) * msPerDay)%Z by lia.
    rewrite Z.div_add by (unfold msPerDay; lia). lia. }
  assert (Hrange : (0 <= Day now <= 2932896)%Z).
  { unfold Day, msPerDay. split; [apply Z.div_pos; lia|].
    apply Z.lt_succ_r. apply Z.div_lt_upper_bound; lia. }
  unfold TimeClip, maxTime, msPerDay in *.
  destruct (Z.leb_spec (Z.abs (ms now - Z.of_nat k * 86400000))
              8640000000000000) as [_|Hbad]; [|lia].
  unfold toISOString. rewrite Hday. unfold slice10.
  rewrite <- (length_isoDay (Day now - Z.of_nat k)) by lia.
  rewrite substring_prefix. reflexivity.
Qed.

(** ** [buildStats] *)

Lemma utcDateOffset_dateBack env (i : nat) :
  (0 <= ms (clock env i) <= isoMax)%Z -> (i <= 30)%nat ->
  utcDateOffset (clock env i) (Z.of_nat i) = inr (dateBack env i).
Proof. apply utcDateOffset_back. Qed.

(** The two reads of a day: both round trips are made, and the first
    failure, if any, is thrown. *)
Lemma reads_of_day env db eventKey sessionKey (w : World) :
  redis w = Some db ->
  exists w',
    redis w' = Some db
    /\ promiseAll2 (hgetall env eventKey) (scard env sessionKey) w
       = (match fault env (OpHgetall eventKey) with
          | Some err => inl err
          | None =>
              match fault env (OpScard sessionKey) with
              | Some err => inl err
              | None => inr (Redis.hgetall db eventKey,
                             Redis.scard db sessionKey)
              end
          end, w').
Proof.
  intros Hdb. unfold promiseAll2, hgetall, scard, roundTrip. rewrite Hdb.
  destruct (fault env (OpHgetall eventKey)) as [e1|]; cbn [redis];
    destruct (fault env (OpScard sessionKey)) as [e2|];
    destruct (applied_on_fault env);
    eexists; (split; [|reflexivity]); reflexivity.
Qed.

(** One iteration of the loop. *)
Lemma buildStats_step env db n i result (w : World) :
  redis w = Some db ->
  (0 <= ms (clock env i) <= isoMax)%Z -> (i <= 30)%nat ->
  exists w',
    redis w' = Some db
    /\ buildStats_from env (S n) i result w
       = match readFault env i with
         | Some err => (inl err, w')
         | None =>
             buildStats_from env n (S i)
               (result ++ [dayEntry env db i])%list w'
         end.
Proof.
  intros Hdb Hclock Hi.
  destruct (reads_of_day env db (eventKeyOf (dateBack env i))
              (sessionKeyOf (dateBack env i)) w Hdb) as (w' & Hdb' & Hreads).
  exists w'. split; [exact Hdb'|].
  cbn [buildStats_from]. unfold bind, liftE.
  rewrite (utcDateOffset_dateBack env i Hclock Hi), Hreads.
  unfold readFault, dayEntry.
  destruct (fault env (OpHgetall (eventKeyOf (dateBack env i))));
    [reflexivity|].
  destruct (fault env (OpScard (sessionKeyOf (dateBack env i))));
    reflexivity.
Qed.


(** With the reads of offset [f] the first to fail, the loop throws their
    error. *)
Lemma buildStats_from_fault env db n :
  forall i result (w : World) f err,
    redis w = Some db -> (i <= f < i + n)%nat -> (f <= 30)%nat ->
    (forall j, (i <= j <= f)%nat -> (0 <= ms (clock env j) <= isoMax)%Z) ->
    (forall j, (i <= j < f)%nat -> readFault env j = None) ->
    readFault env f = Some err ->
    exists w', buildStats_from env n i result w = (inl err, w').
Proof.
  induction n as [|n IH]; intros i result w f err Hdb Hf Hf30 Hclock Hok Herr.
  - lia.
  - destruct (buildStats_step env db n i result w Hdb
                (Hclock i ltac:(lia)) ltac:(lia)) as (w1 & Hdb1 & Hstep).
    rewrite Hstep. destruct (Nat.eq_dec f i) as [->|Hne].
    + rewrite Herr. exists w1. reflexivity.
    + rewrite (Hok i ltac:(lia)).
      apply (IH (S i) _ w1 f err Hdb1); try lia; try exact Herr.
      * intros j Hj. apply Hclock. lia.
      * intros j Hj. apply Hok. lia.
Qed.



Example stats_of_three_quiet_days :
  map (fun e => (date e, uniqueSessions e))
      (match fst (buildStats quietEnv 3 freshWorld) with
       | inr stats => stats
       | inl _ => []
       end)
  = [("2026-11-02", 0%Z); ("2026-11-01", 0%Z); ("2026-10-31", 0%Z)].
Proof. vm_compute. reflexivity. Qed.

(** ** Failures of a statistics query *)

Lemma clampDays_range (x : spec_float) : (1 <= clampDays x <= 30)%Z.
Proof. unfold clampDays. destruct (negb (isFinite x)); lia. Qed.

Lemma requestedDays_range (q : list (string * string)) :
  (1 <= requestedDays q <= 30)%Z.
Proof.
  unfold requestedDays.
  destruct (or_else (searchParam q "days") (Some "7"));
    apply clampDays_range.
Qed.

(** The route once the token is right. *)
Lemma getStats_authorized_run cfg env req (w : World) :
  adminToken cfg <> "" ->
  suppliedToken req = Some (adminToken cfg) ->
  getStats cfg env req w
  = if unavailable w
    then (inr (Json 503 (PUnavailable (lastError (redisState w)))), w)
    else
      match buildStats env (requestedDays (query req)) w with
      | (inr stats, w') =>
          (inr (Json 200 (PStats (requestedDays (query req)) stats)), w')
      | (inl err, w') => (inr (Json 500 (PStatsFailed (errText err))), w')
      end.
Proof.
  intros Hcfg Htoken. unfold getStats.
  destruct (String.eqb_spec (adminToken cfg) "") as [|_]; [contradiction|].
  rewrite Htoken. unfold differs. rewrite String.eqb_refl. cbn [negb].
  unfold bind, getWorld. destruct (unavailable w); [reflexivity|].
  unfold tryCatch, bind, ret.
  destruct (buildStats env (requestedDays (query req)) w) as [[err|stats] w'];
    reflexivity.
Qed.

(** C5. A [GET /api/stats] request with the right token: when there is no
    client or no connection the answer is 503 [redis_unavailable] with the
    last recorded error, and the world is as before (no round trip was
    made); when [buildStats] throws, the answer is 500
    [stats_query_failed] with the text of the error and carries no entry;
    and [buildStats] throws as soon as a read of some day fails, the reads
    of the days before having succeeded. *)
Theorem stats_failures J cfg env (req : Request) (w : World) :
  method req = "GET" -> pathname req = "/api/stats" ->
  adminToken cfg <> "" ->
  suppliedToken req = Some (adminToken cfg) ->
  (unavailable w = true ->
   handle J cfg env req w
   = (inr (Json 503 (PUnavailable (lastError (redisState w)))), w))
  /\ (unavailable w = false ->
      (forall err w',
         buildStats env (requestedDays (query req)) w = (inl err, w') ->
         handle J cfg env req w
         = (inr (Json 500 (PStatsFailed (errText err))), w'))
      /\ (forall f err,
            (f < Z.to_nat (requestedDays (query req)))%nat ->
            (forall j, (j <= f)%nat ->
                       (0 <= ms (clock env j) <= isoMax)%Z) ->
            (forall j, (j < f)%nat -> readFault env j = None) ->
            readFault env f = Some err ->
            exists w',
              handle J cfg env req w
              = (inr (Json 500 (PStatsFailed (errText err))), w'))).
Proof.
  intros Hm Hp Hcfg Htoken.
  rewrite (handle_get_stats J cfg env req Hm Hp).
  rewrite (getStats_authorized_run cfg env req w Hcfg Htoken).
  split.
  - intros Hun. rewrite Hun. reflexivity.
  - intros Hun. rewrite Hun. split.
    + intros err w' Hrun. rewrite Hrun. reflexivity.
    + intros f err Hf Hclock Hok Herr.
      destruct (unavailable_false w Hun) as (db & Hdb & _).
      pose proof (requestedDays_range (query req)) as Hrange.
      destruct (buildStats_from_fault env db
                  (Z.to_nat (requestedDays (query req))) 0 [] w f err Hdb
                  ltac:(lia) ltac:(lia)) as [w' Hrun].
      * intros j Hj. apply Hclock. lia.
      * intros j Hj. apply Hok. lia.
      * exact Herr.
      * exists w'. unfold buildStats. rewrite Hrun. reflexivity.
Qed.

Lemma stats_failures_witness :
  handle sampleParse sampleCfg quietEnv (statsRequest (Some "secret") [])
         downWorld
  = (inr (Json 503 (PUnavailable (Some "connect ECONNREFUSED"))), downWorld)
  /\ exists w',
       handle sampleParse sampleCfg brokenEnv
              (statsRequest None [("token", "secret"); ("days", "3")])
              freshWorld
       = (inr (Json 500 (PStatsFailed "Connection is closed.")), w').
Proof.
  split.
  - apply (stats_failures sampleParse sampleCfg quietEnv
             (statsRequest (Some "secret") []) downWorld
             eq_refl eq_refl); [discriminate|reflexivity|reflexivity].
  - destruct (stats_failures sampleParse sampleCfg brokenEnv
                (statsRequest None [("token", "secret"); ("days", "3")])
                freshWorld eq_refl eq_refl) as [_ Hup];
      [discriminate|reflexivity|].
    destruct (Hup eq_refl) as [_ Hfault].
    apply (Hfault 0%nat (ErrorObj "Connection is closed.")).
    + vm_compute. lia.
    + intros j _. vm_compute. split; discriminate.
    + intros j Hj. lia.
    + reflexivity.
Defined.

(** * Further properties of the code *)

(** ** [readJsonBody] in closed form *)

(** The [data] handler keeps every chunk as long as the bytes counted stay
    within the limit, and rejects as soon as they do not; since the count
    only grows, that is decided by the size of the whole body. *)
Lemma onData_closed (maxBytes : Z) (incoming : list string) :
  forall kept total,
    (total <= maxBytes)%Z ->
    onData maxBytes incoming kept total
    = if (maxBytes <? total
                      + Z.of_nat (fold_right
                                    (fun chunk n => (String.length chunk + n)%nat)
                                    0%nat incoming))%Z
      then inl (ErrorObj "body_too_large")
      else inr (kept ++ incoming)%list.
Proof.
  induction incoming as [|chunk more IH]; intros kept total Htotal.
  - cbn [onData fold_right]. rewrite app_nil_r.
    destruct (Z.ltb_spec maxBytes (total + Z.of_nat 0)); [lia|reflexivity].
  - cbn [onData fold_right].
    destruct (Z.ltb_spec maxBytes (total + Z.of_nat (String.length chunk)))
      as [Hover|Hfits].
    + destruct (Z.ltb_spec maxBytes
                  (total + Z.of_nat (String.length chunk
                     + fold_right (fun chunk n => (String.length chunk + n)%nat)
                                  0%nat more))); [reflexivity|lia].
    + rewrite IH by exact Hfits. rewrite <- app_assoc. cbn [app].
      replace (total + Z.of_nat (String.length chunk)
               + Z.of_nat (fold_right
                             (fun chunk n => (String.length chunk + n)%nat)
                             0%nat more))%Z
        with (total + Z.of_nat (String.length chunk
                + fold_right (fun chunk n => (String.length chunk + n)%nat)
                             0%nat more))%Z by lia.
      reflexivity.
Qed.

(** X1. [readJsonBody] in closed form, for a limit that is not negative.
    A body of more bytes than the limit rejects with [body_too_large],
    whatever it holds and however it ends; a body of exactly the limit is
    read.  Within the limit a failed stream rejects with its error; a body
    without chunks resolves to the empty object; any other body is decoded
    as one text, so the result does not depend on how the bytes were split
    into chunks, and rejects with [invalid_json] when decoding throws. *)
Theorem readJsonBody_closed (J : string -> option value) (b : Body)
        (maxBytes : Z) :
  (0 <= maxBytes)%Z ->
  readJsonBody J b maxBytes
  = if (maxBytes <? Z.of_nat (bodyBytes b))%Z
    then inl (ErrorObj "body_too_large")
    else
      match ending b with
      | Failed err => inl err
      | End =>
          match chunks b with
          | [] => inr (VObject [])
          | _ :: _ =>
              match J (String.concat "" (chunks b)) with
              | Some v => inr v
              | None => inl (ErrorObj "invalid_json")
              end
          end
      end.
Proof.
  intros Hmax. unfold readJsonBody, bodyBytes.
  rewrite (onData_closed maxBytes (chunks b) [] 0 Hmax).
  cbn [app]. rewrite Z.add_0_l.
  destruct (maxBytes <? _)%Z; [reflexivity|].
  destruct (ending b); [|reflexivity].
  destruct (chunks b); reflexivity.
Qed.

Lemma readJsonBody_closed_witness :
  readJsonBody sampleParse sampleBody 44 = inl (ErrorObj "body_too_large")
  /\ readJsonBody sampleParse sampleBody 45
     = inr (VObject [("event", VString "build_trace");
                     ("sessionId", VString "abc-123")]).
Proof.
  split.
  - rewrite (readJsonBody_closed sampleParse sampleBody 44) by lia.
    reflexivity.
  - rewrite (readJsonBody_closed sampleParse sampleBody 45) by lia.
    reflexivity.
Defined.

(** ** What each route does *)

Lemma serveIndex_run env (w : World) :
  exists r, serveIndex env w = (inr r, w)
            /\ (statusCode_of r = 200 \/ statusCode_of r = 500)%Z.
Proof.
  unfold serveIndex. destruct (indexFile env);
    eexists; (split; [reflexivity|]); cbn [statusCode_of]; auto.
Qed.

Lemma unavailable_of (w : World) db :
  redis w = Some db -> connected (redisState w) = true ->
  unavailable w = false.
Proof. intros Hdb Hconn. unfold unavailable. rewrite Hdb, Hconn. reflexivity. Qed.

Lemma buildHealth_unavailable env (w : World) :
  unavailable w = true ->
  exists ts,
    buildHealth env w
    = (inr (PHealth ts (enabled (redisState w)) (connected (redisState w))
                    None (lastError (redisState w))), w).
Proof.
  intros Hun. unfold buildHealth, bind, getWorld. rewrite Hun.
  unfold ret, liftE, toISOString. cbn [snd fst]. eexists. reflexivity.
Qed.

Lemma buildHealth_ok env (w : World) db :
  redis w = Some db -> connected (redisState w) = true ->
  fault env OpPing = None ->
  exists ts,
    buildHealth env w
    = (inr (PHealth ts (enabled (redisState w)) true
                    (Some (ms (clock env 1) - ms (clock env 0))%Z)
                    (lastError (redisState w))),
       {| redis := Some db; redisState := redisState w;
          issued := issued w ++ [OpPing] |}).
Proof.
  intros Hdb Hconn Hfault.
  unfold buildHealth, bind, getWorld.
  rewrite (unavailable_of w db Hdb Hconn).
  unfold tryCatch, bind, ping, roundTrip. rewrite Hdb, Hfault.
  unfold ret, liftE, toISOString. cbn [snd fst redisState].
  rewrite Hconn. eexists. reflexivity.
Qed.

Lemma buildHealth_failed env (w : World) db err :
  redis w = Some db -> connected (redisState w) = true ->
  fault env OpPing = Some err ->
  exists ts,
    buildHealth env w
    = (inr (PHealth ts (enabled (redisState w)) false None
                    (Some (errText err))),
       {| redis := Some db;
          redisState := {| enabled := enabled (redisState w);
                           connected := false;
                           lastError := Some (errText err) |};
          issued := issued w ++ [OpPing] |}).
Proof.
  intros Hdb Hconn Hfault.
  unfold buildHealth, bind, getWorld.
  rewrite (unavailable_of w db Hdb Hconn).
  unfold tryCatch, bind, ping, roundTrip. rewrite Hdb, Hfault.
  unfold setDisconnected, setLastError, ret, liftE, toISOString.
  cbn [snd fst redisState redis issued enabled connected lastError].
  destruct (applied_on_fault env); eexists; reflexivity.
Qed.

Lemma handle_get_health J cfg env req :
  method req = "GET" -> pathname req = "/api/health" ->
  handle J cfg env req
  = bind (buildHealth env) (fun payload => ret (Json 200 payload)).
Proof. intros Hm Hp. unfold handle. rewrite Hm, Hp. reflexivity. Qed.

Lemma handle_get_index J cfg env req :
  method req = "GET" ->
  pathname req = "/" \/ pathname req = "/index.html"
  \/ pathname req = "/keccak" ->
  handle J cfg env req = serveIndex env.
Proof.
  intros Hm Hp. unfold handle. rewrite Hm.
  destruct Hp as [-> | [-> | ->]]; reflexivity.
Qed.

(** The routes by method and path. *)
Lemma handle_route J cfg env req :
  (method req = "GET"
   /\ (pathname req = "/" \/ pathname req = "/index.html"
       \/ pathname req = "/keccak")
   /\ routed req = true
   /\ handle J cfg env req = serveIndex env)
  \/ (method req = "GET" /\ pathname req = "/api/health"
      /\ routed req = true
      /\ handle J cfg env req
         = bind (buildHealth env) (fun payload => ret (Json 200 payload)))
  \/ (method req = "POST" /\ pathname req = "/api/events"
      /\ routed req = true
      /\ handle J cfg env req = postEvents J env req)
  \/ (method req = "GET" /\ pathname req = "/api/stats"
      /\ routed req = true
      /\ handle J cfg env req = getStats cfg env req)
  \/ (routed req = false
      /\ handle J cfg env req = ret (Text 404 "Not found")).
Proof.
  unfold routed, handle.
  destruct (String.eqb_spec (method req) "GET") as [Hg|Hg];
    destruct (String.eqb_spec (method req) "POST") as [Hpo|Hpo];
    try (exfalso; congruence);
    destruct (String.eqb_spec (pathname req) "/") as [H1|H1];
    destruct (String.eqb_spec (pathname req) "/index.html") as [H2|H2];
    try (exfalso; congruence);
    destruct (String.eqb_spec (pathname req) "/keccak") as [H3|H3];
    try (exfalso; congruence);
    destruct (String.eqb_spec (pathname req) "/api/health") as [H4|H4];
    try (exfalso; congruence);
    destruct (String.eqb_spec (pathname req) "/api/stats") as [H5|H5];
    try (exfalso; congruence);
    destruct (String.eqb_spec (pathname req) "/api/events") as [H6|H6];
    try (exfalso; congruence);
    cbn [andb orb]; intuition auto.
Qed.

(** X2. [GET /api/health] is always answered 200, whatever the state of
    the store.  Without a client or a connection nothing is sent and
    [pingMs] is [null]; a ping that succeeds gives the difference of the two
    clock readings and leaves [redisState] alone; a ping that fails is not
    an error of the request: it sets [connected] to [false] and records the
    text of the error, which the same response already reports. *)
Theorem health_always_answers J cfg env (req : Request) (w : World) :
  method req = "GET" -> pathname req = "/api/health" ->
  exists ts pingMs w',
    handle J cfg env req w
    = (inr (Json 200 (PHealth ts (enabled (redisState w))
                              (connected (redisState w')) pingMs
                              (lastError (redisState w')))), w')
    /\ redis w' = redis w
    /\ enabled (redisState w') = enabled (redisState w)
    /\ (unavailable w = true -> w' = w /\ pingMs = None)
    /\ (unavailable w = false -> fault env OpPing = None ->
        pingMs = Some (ms (clock env 1) - ms (clock env 0))%Z
        /\ redisState w' = redisState w
        /\ issued w' = (issued w ++ [OpPing])%list)
    /\ (forall err,
          unavailable w = false -> fault env OpPing = Some err ->
          pingMs = None
          /\ connected (redisState w') = false
          /\ lastError (redisState w') = Some (errText err)
          /\ issued w' = (issued w ++ [OpPing])%list).
Proof.
  intros Hm Hp. rewrite (handle_get_health J cfg env req Hm Hp).
  unfold bind at 1.
  destruct (unavailable w) eqn:Hun.
  - destruct (buildHealth_unavailable env w Hun) as [ts Hrun].
    rewrite Hrun. exists ts, None, w. unfold ret.
    repeat split; try discriminate; reflexivity.
  - destruct (unavailable_false w Hun) as (db & Hdb & Hconn).
    destruct (fault env OpPing) as [err|] eqn:Hfault.
    + destruct (buildHealth_failed env w db err Hdb Hconn Hfault)
        as [ts Hrun].
      rewrite Hrun.
      exists ts, None,
        {| redis := Some db;
           redisState := {| enabled := enabled (redisState w);
                            connected := false;
                            lastError := Some (errText err) |};
           issued := (issued w ++ [OpPing])%list |}.
      unfold ret.
      split; [reflexivity|]. cbn [redis redisState enabled issued].
      split; [symmetry; exact Hdb|]. split; [reflexivity|].
      split; [discriminate|]. split; [discriminate|].
      intros err' _ Herr. inversion Herr; subst err'.
      repeat split; reflexivity.
    + destruct (buildHealth_ok env w db Hdb Hconn Hfault) as [ts Hrun].
      rewrite Hrun.
      exists ts, (Some (ms (clock env 1) - ms (clock env 0))%Z),
        {| redis := Some db; redisState := redisState w;
           issued := (issued w ++ [OpPing])%list |}.
      unfold ret.
      split; [cbn [redisState]; rewrite Hconn; reflexivity|].
      cbn [redis redisState enabled issued].
      split; [symmetry; exact Hdb|]. split; [reflexivity|].
      split; [discriminate|]. split; [|discriminate].
      intros _ _. repeat split; reflexivity.
Qed.

Lemma health_always_answers_witness :
  exists ts w',
    handle sampleParse sampleCfg brokenEnv
           {| method := "GET"; pathname := "/api/health"; query := [];
              adminHeader := None; body := noBody |} freshWorld
    = (inr (Json 200 (PHealth ts true false None
                              (Some "Connection is closed."))), w').
Proof.
  destruct (health_always_answers sampleParse sampleCfg brokenEnv
              {| method := "GET"; pathname := "/api/health"; query := [];
                 adminHeader := None; body := noBody |} freshWorld
              eq_refl eq_refl)
    as (ts & pingMs & w' & Hrun & _ & _ & _ & _ & Hfailed).
  destruct (Hfailed (ErrorObj "Connection is closed.") eq_refl eq_refl)
    as (Hping & Hconn & Herr & _).
  exists ts, w'. rewrite Hrun, Hping, Hconn, Herr. reflexivity.
Defined.

(** ** [storeEvent] and the route of the events *)

(** A call of [storeEvent] returns, and the store is as available after it
    as before. *)
Lemma storeEvent_outcome env name sid (w : World) :
  exists stored w',
    storeEvent env name sid w = (inr stored, w')
    /\ unavailable w' = unavailable w
    /\ enabled (redisState w') = enabled (redisState w)
    /\ (unavailable w = true -> w' = w /\ stored = false).
Proof.
  destruct (unavailable w) eqn:Hun.
  - exists false, w. rewrite (storeEvent_unavailable env name sid w Hun).
    repeat split; exact Hun.
  - destruct (unavailable_false w Hun) as (db & Hdb & Hconn).
    destruct (utcDateOffset_today_returns (clock env 0)) as [date Hdate].
    pose proof (storeEvent_available env name sid w db date Hdb Hconn Hdate)
      as Hrun.
    cbv zeta in Hrun. rewrite Hrun.
    destruct (fault env _); eexists _, _; (split; [reflexivity|]);
      unfold unavailable; cbn [redis redisState connected enabled];
      rewrite Hconn; repeat split; discriminate.
Qed.

Lemma getProp_throws (v : value) (name : string) :
  (exists e, getProp v name = inl e) <-> v = VNull \/ v = VUndefined.
Proof.
  split.
  - intros [e He]. destruct v; try discriminate He; auto.
  - intros [-> | ->]; eexists; reflexivity.
Qed.

Lemma valid_name_is_string (v : value) :
  isValidEventName v = true -> exists name, v = VString name.
Proof. destruct v; try discriminate. intros _. eexists. reflexivity. Qed.

(** The three ways the route can end: a 400 that touches nothing, a
    rejection on a body that decodes to [null], or a 202 after
    [storeEvent]. *)
Lemma postEvents_outcome J env req (w : World) :
  (exists code, postEvents J env req w = (inr (Json 400 (PError code)), w))
  \/ (exists parsed e,
        readJsonBody J (body req) defaultMaxBytes = inr parsed
        /\ (parsed = VNull \/ parsed = VUndefined)
        /\ postEvents J env req w = (inl e, w))
  \/ (exists parsed name sid stored w',
        readJsonBody J (body req) defaultMaxBytes = inr parsed
        /\ getProp parsed "event" = inr (VString name)
        /\ getProp parsed "sessionId" = inr sid
        /\ isValidEventName (VString name) = true
        /\ storeEvent env name sid w = (inr stored, w')
        /\ postEvents J env req w
           = (inr (Json 202 (PAccepted stored (enabled (redisState w')))),
              w')).
Proof.
  unfold postEvents.
  destruct (readJsonBody J (body req) defaultMaxBytes) as [err|parsed] eqn:Hread.
  { left. eexists. reflexivity. }
  destruct (getProp parsed "event") as [e|eventName] eqn:Hev.
  { right. left. exists parsed, e. split; [reflexivity|]. split.
    - apply (getProp_throws parsed "event"). exists e. exact Hev.
    - run_m. reflexivity. }
  destruct (getProp parsed "sessionId") as [e|sid] eqn:Hsid.
  { assert (Hnull : parsed = VNull \/ parsed = VUndefined).
    { apply (getProp_throws parsed "sessionId"). exists e. exact Hsid. }
    destruct Hnull as [-> | ->]; discriminate Hev. }
  destruct (isValidEventName eventName) eqn:Hvalid.
  - right. right.
    destruct (valid_name_is_string eventName Hvalid) as [name ->].
    destruct (storeEvent_outcome env name sid w)
      as (stored & w' & Hrun & _).
    exists parsed, name, sid, stored, w'.
    repeat (split; [first [reflexivity | assumption]|]).
    run_m. rewrite Hvalid. cbn [negb str]. rewrite Hrun. reflexivity.
  - left. exists "invalid_event_name".
    run_m. rewrite Hvalid. reflexivity.
Qed.

(** The route of the statistics always answers, and only a read changes
    the world. *)
Lemma getStats_outcome cfg env req (w : World) :
  exists r w',
    getStats cfg env req w = (inr r, w')
    /\ ((statusCode_of r = 403 \/ statusCode_of r = 401
         \/ statusCode_of r = 503)%Z /\ w' = w
        \/ (statusCode_of r = 200 \/ statusCode_of r = 500)%Z
           /\ unavailable w = false).
Proof.
  unfold getStats.
  destruct (String.eqb (adminToken cfg) "").
  { eexists _, _. split; [reflexivity|]. left. cbn [statusCode_of]. auto. }
  destruct (differs (suppliedToken req) (adminToken cfg)).
  { eexists _, _. split; [reflexivity|]. left. cbn [statusCode_of]. auto. }
  run_m. destruct (unavailable w) eqn:Hun.
  { eexists _, _. split; [reflexivity|]. left. cbn [statusCode_of]. auto. }
  destruct (buildStats env (requestedDays (query req)) w) as [[err|stats] w'];
    eexists _, _; (split; [reflexivity|]); right; cbn [statusCode_of]; auto.
Qed.

Lemma buildHealth_returns env (w : World) :
  exists payload w',
    buildHealth env w = (inr payload, w')
    /\ (unavailable w = true -> w' = w).
Proof.
  destruct (unavailable w) eqn:Hun.
  - destruct (buildHealth_unavailable env w Hun) as [ts ->].
    eexists _, _. split; [reflexivity|]. reflexivity.
  - destruct (unavailable_false w Hun) as (db & Hdb & Hconn).
    destruct (fault env OpPing) as [err|] eqn:Hfault.
    + destruct (buildHealth_failed env w db err Hdb Hconn Hfault) as [ts ->].
      eexists _, _. split; [reflexivity|discriminate].
    + destruct (buildHealth_ok env w db Hdb Hconn Hfault) as [ts ->].
      eexists _, _. split; [reflexivity|discriminate].
Qed.

(** Every request but a [POST /api/events] is answered. *)
Lemma handle_answers J cfg env req (w : World) :
  method req <> "POST" \/ pathname req <> "/api/events" ->
  exists r w',
    handle J cfg env req w = (inr r, w')
    /\ (unavailable w = true -> w' = w)
    /\ ((400 <= statusCode_of r < 500)%Z \/ statusCode_of r = 503%Z ->
        w' = w)
    /\ (statusCode_of r = 404%Z <-> routed req = false).
Proof.
  intros Hnot.
  destruct (handle_route J cfg env req)
    as [(_ & _ & Hr & H) | [(_ & _ & Hr & H) | [(Hm & Hp & _)
       | [(_ & _ & Hr & H) | (Hr & H)]]]].
  - rewrite H, Hr. destruct (serveIndex_run env w) as (r & Hrun & Hcode).
    exists r, w. split; [exact Hrun|]. split; [reflexivity|].
    split; [reflexivity|]. split; [lia|discriminate].
  - rewrite H, Hr. unfold bind.
    destruct (buildHealth_returns env w) as (p & w' & Hp & Hsame).
    rewrite Hp. exists (Json 200 p), w'. split; [reflexivity|].
    split; [exact Hsame|]. cbn [statusCode_of].
    split; [lia|]. split; [lia|discriminate].
  - destruct Hnot; contradiction.
  - rewrite H, Hr.
    destruct (getStats_outcome cfg env req w)
      as (r & w' & Hrun & [[Hcode ->] | [Hcode Hun]]).
    + exists r, w. split; [exact Hrun|]. split; [reflexivity|].
      split; [reflexivity|]. split; [lia|discriminate].
    + exists r, w'. split; [exact Hrun|].
      split; [rewrite Hun; discriminate|].
      split; [lia|]. split; [lia|discriminate].
  - rewrite H, Hr. exists (Text 404 "Not found"), w.
    split; [reflexivity|]. cbn [statusCode_of]. repeat split.
Qed.

(** X3. A request answered with a client error (400, 401, 403, 404) or
    with 503 has changed nothing: the data, [redisState] and the list of
    round trips are as before. *)
Theorem refusals_touch_nothing J cfg env (req : Request) (w w' : World)
        (r : Response) :
  handle J cfg env req w = (inr r, w') ->
  (400 <= statusCode_of r < 500)%Z \/ statusCode_of r = 503%Z ->
  w' = w.
Proof.
  intros Hrun Hcode.
  destruct (String.eqb_spec (method req) "POST") as [Hm|Hm];
    [destruct (String.eqb_spec (pathname req) "/api/events") as [Hp|Hp]|].
  - rewrite (handle_post_events J cfg env req Hm Hp) in Hrun.
    destruct (postEvents_outcome J env req w)
      as [[code H] | [(parsed & e & _ & _ & H)
         | (parsed & name & sid & stored & w1 & _ & _ & _ & _ & _ & H)]];
      rewrite H in Hrun; inversion Hrun; subst; try reflexivity.
    cbn [statusCode_of] in Hcode. lia.
  - destruct (handle_answers J cfg env req w (or_intror Hp))
      as (r1 & w1 & H & _ & Hsame & _).
    rewrite H in Hrun. inversion Hrun; subst. apply Hsame. exact Hcode.
  - destruct (handle_answers J cfg env req w (or_introl Hm))
      as (r1 & w1 & H & _ & Hsame & _).
    rewrite H in Hrun. inversion Hrun; subst. apply Hsame. exact Hcode.
Qed.

Lemma refusals_touch_nothing_witness :
  snd (handle sampleParse sampleCfg quietEnv
              (eventRequest {| chunks := ["{}"]; ending := End |})
              freshWorld)
  = freshWorld.
Proof.
  apply (refusals_touch_nothing sampleParse sampleCfg quietEnv
           (eventRequest {| chunks := ["{}"]; ending := End |}) freshWorld
           _ (Json 400 (PError "invalid_event_name"))).
  - reflexivity.
  - left. cbn [statusCode_of]. lia.
Defined.

(** The routes throw in exactly one case: a [POST /api/events] whose body
    decodes to [null] (reading [body.event] then throws outside every
    [try]).  The world is left as it was. *)
Lemma handle_throws_iff J cfg env (req : Request) (w : World) :
  ((exists e w', handle J cfg env req w = (inl e, w'))
   <-> (method req = "POST" /\ pathname req = "/api/events"
        /\ exists parsed,
             readJsonBody J (body req) defaultMaxBytes = inr parsed
             /\ (parsed = VNull \/ parsed = VUndefined)))
  /\ (forall e w', handle J cfg env req w = (inl e, w') -> w' = w).
Proof.
  destruct (String.eqb_spec (method req) "POST") as [Hm|Hm];
    [destruct (String.eqb_spec (pathname req) "/api/events") as [Hp|Hp]|].
  - rewrite (handle_post_events J cfg env req Hm Hp).
    destruct (postEvents_outcome J env req w)
      as [[code H] | [(parsed & e1 & Hread & Hnull & H)
         | (parsed & name & sid & stored & w1 & _ & _ & _ & _ & _ & H)]];
      rewrite H.
    + split; [split|].
      * intros (e & w' & Hrun). discriminate Hrun.
      * intros (_ & _ & parsed & Hread & Hnull). exfalso.
        unfold postEvents in H. rewrite Hread in H.
        destruct Hnull as [-> | ->]; discriminate H.
      * intros e w' Hrun. discriminate Hrun.
    + split; [split|].
      * intros _. split; [exact Hm|]. split; [exact Hp|].
        exists parsed. split; assumption.
      * intros _. exists e1, w. reflexivity.
      * intros e w' Hrun. injection Hrun as _ <-. reflexivity.
    + split; [split|].
      * intros (e & w' & Hrun). discriminate Hrun.
      * intros (_ & _ & parsed' & Hread & Hnull). exfalso.
        unfold postEvents in H. rewrite Hread in H.
        destruct Hnull as [-> | ->]; discriminate H.
      * intros e w' Hrun. discriminate Hrun.
  - destruct (handle_answers J cfg env req w (or_intror Hp))
      as (r1 & w1 & H & _).
    rewrite H. split; [split|].
    + intros (e & w' & Hrun). discriminate Hrun.
    + intros (_ & Hp' & _). contradiction.
    + intros e w' Hrun. discriminate Hrun.
  - destruct (handle_answers J cfg env req w (or_introl Hm))
      as (r1 & w1 & H & _).
    rewrite H. split; [split|].
    + intros (e & w' & Hrun). discriminate Hrun.
    + intros (Hm' & _). contradiction.
    + intros e w' Hrun. discriminate Hrun.
Qed.

(** X4. The callback of the server throws, writing no response, in
    exactly two cases: the URL of the request cannot be built ([new URL]
    throws outside every [try]), or the request is a [POST /api/events]
    whose body decodes to [null] (reading [body.event] then throws outside
    every [try]).  In both the world is left as it was.  On every other
    request, whatever the store does, the callback writes a response. *)
Theorem unanswered_requests J U cfg env (r : Incoming) (w : World) :
  ((exists e w', onRequest J U cfg env r w = (inl e, w'))
   <-> (requestUrl U r = None
        \/ exists url,
             requestUrl U r = Some url
             /\ reqMethod r = "POST" /\ fst url = "/api/events"
             /\ exists parsed,
                  readJsonBody J (incomingBody r) defaultMaxBytes
                  = inr parsed
                  /\ (parsed = VNull \/ parsed = VUndefined)))
  /\ (forall e w', onRequest J U cfg env r w = (inl e, w') -> w' = w).
Proof.
  unfold onRequest. destruct (requestUrl U r) as [url|].
  - destruct (handle_throws_iff J cfg env (routeRequest r url) w)
      as [Hiff Hsame].
    cbn [routeRequest method pathname body] in Hiff.
    split; [|exact Hsame].
    rewrite Hiff. split.
    + intros H. right. exists url. split; [reflexivity|exact H].
    + intros [H|(url' & Hurl & H)]; [discriminate H|].
      injection Hurl as <-. exact H.
  - split; [split|].
    + intros _. left. reflexivity.
    + intros _. eexists _, _. reflexivity.
    + intros e w' Hrun. unfold throw in Hrun. injection Hrun as _ <-.
      reflexivity.
Qed.

Lemma unanswered_requests_witness :
  (exists e w',
     onRequest sampleParse sampleUrl sampleCfg quietEnv
               (incoming "GET" "//" None noBody) freshWorld
     = (inl e, w'))
  /\ (exists e w',
        onRequest sampleParse sampleUrl sampleCfg quietEnv
                  (incoming "POST" "/api/events" (Some "localhost")
                            {| chunks := ["null"]; ending := End |})
                  freshWorld
        = (inl e, w')).
Proof.
  split.
  - apply (proj1 (unanswered_requests sampleParse sampleUrl sampleCfg
                    quietEnv (incoming "GET" "//" None noBody) freshWorld)).
    left. reflexivity.
  - apply (proj1 (unanswered_requests sampleParse sampleUrl sampleCfg
                    quietEnv
                    (incoming "POST" "/api/events" (Some "localhost")
                              {| chunks := ["null"]; ending := End |})
                    freshWorld)).
    right. exists ("/api/events", []). split; [reflexivity|].
    split; [reflexivity|]. split; [reflexivity|].
    exists VNull. split; [reflexivity|]. left. reflexivity.
Defined.

(** A request served without client or connection leaves the world as it
    is. *)
Lemma handle_unavailable J cfg env (req : Request) (w : World) :
  unavailable w = true -> snd (handle J cfg env req w) = w.
Proof.
  intros Hun.
  destruct (String.eqb_spec (method req) "POST") as [Hm|Hm];
    [destruct (String.eqb_spec (pathname req) "/api/events") as [Hp|Hp]|].
  - rewrite (handle_post_events J cfg env req Hm Hp).
    destruct (postEvents_outcome J env req w)
      as [[code H] | [(parsed & e & _ & _ & H)
         | (parsed & name & sid & stored & w1 & _ & _ & _ & _ & Hstore & H)]];
      rewrite H; try reflexivity.
    destruct (storeEvent_outcome env name sid w)
      as (stored' & w2 & Hstore' & _ & _ & Hsame).
    rewrite Hstore in Hstore'. inversion Hstore'; subst.
    destruct (Hsame Hun) as [-> _]. reflexivity.
  - destruct (handle_answers J cfg env req w (or_intror Hp))
      as (r1 & w1 & H & Hsame & _).
    rewrite H. apply Hsame. exact Hun.
  - destruct (handle_answers J cfg env req w (or_introl Hm))
      as (r1 & w1 & H & Hsame & _).
    rewrite H. apply Hsame. exact Hun.
Qed.

(** X5. While there is no client or no connection, no request changes
    anything: whatever is asked, the data, [redisState] and the list of
    round trips stay as they are.  In particular no request brings the
    connection back. *)
Theorem unavailable_store_is_inert J cfg env (req : Request) (w : World) :
  unavailable w = true -> snd (handle J cfg env req w) = w.
Proof. apply handle_unavailable. Qed.

Lemma unavailable_store_is_inert_witness :
  snd (handle sampleParse sampleCfg quietEnv (eventRequest sampleBody)
              downWorld)
  = downWorld.
Proof.
  apply (unavailable_store_is_inert sampleParse sampleCfg quietEnv
           (eventRequest sampleBody) downWorld).
  reflexivity.
Defined.

(** ** The connection over the life of the process *)

Lemma run_cons J cfg (s : Step) (steps : list Step) (w : World) :
  run J cfg (s :: steps) w = run J cfg steps (step J cfg s w).
Proof. reflexivity. Qed.

(** X6. Without [REDIS_URL] (absent or empty) the process stays as the
    start-up code left it, whatever requests and events follow: there is no
    client, [redisState] is [{enabled: false, connected: false, lastError:
    null}] and no round trip is ever made. *)
Theorem disabled_is_terminal J cfg remote connectError (steps : list Step) :
  redisUrl cfg = "" ->
  run J cfg steps (boot cfg remote connectError)
  = {| redis := None;
       redisState := {| enabled := false; connected := false;
                        lastError := None |};
       issued := [] |}.
Proof.
  intros Hurl.
  assert (Hboot : boot cfg remote connectError
                  = {| redis := None;
                       redisState := {| enabled := false; connected := false;
                                        lastError := None |};
                       issued := [] |}).
  { unfold boot. rewrite Hurl. reflexivity. }
  rewrite Hboot. clear Hboot.
  induction steps as [|s steps IH]; [reflexivity|].
  rewrite run_cons.
  replace (step J cfg s _) with
    {| redis := None;
       redisState := {| enabled := false; connected := false;
                        lastError := None |};
       issued := [] |}; [exact IH|].
  symmetry. destruct s as [env req| | |err]; try reflexivity.
  apply handle_unavailable. reflexivity.
Qed.

Lemma disabled_is_terminal_witness :
  run sampleParse {| REDIS_URL := None; ADMIN_TOKEN := Some "secret" |}
      [Ready; Serve quietEnv (eventRequest sampleBody); Errored (Other "x")]
      (boot {| REDIS_URL := None; ADMIN_TOKEN := Some "secret" |}
            Redis.empty None)
  = {| redis := None;
       redisState := {| enabled := false; connected := false;
                        lastError := None |};
       issued := [] |}.
Proof.
  apply (disabled_is_terminal sampleParse
           {| REDIS_URL := None; ADMIN_TOKEN := Some "secret" |}
           Redis.empty None).
  reflexivity.
Defined.

Lemma clientEvent_offline (f : RedisState -> RedisState) (w : World) :
  unavailable w = true ->
  (forall s, connected (f s) = false) ->
  unavailable (clientEvent f w) = true
  /\ redis (clientEvent f w) = redis w
  /\ issued (clientEvent f w) = issued w.
Proof.
  intros Hun Hf. unfold clientEvent.
  destruct (redis w) as [db|] eqn:Hr.
  - unfold unavailable. cbn [redis redisState issued]. rewrite Hf.
    split; [apply orb_true_r|]. split; reflexivity.
  - split; [exact Hun|]. split; [exact Hr|reflexivity].
Qed.

(** X7. Only the client's [ready] event brings the store back.  From a
    world without connection, any sequence of requests and of [end] and
    [error] events leaves the store unavailable, makes no round trip and
    leaves the data as they are; in particular a ping that failed, which
    sets [connected] to [false], silences the telemetry until the client
    reconnects. *)
Theorem offline_until_ready J cfg (steps : list Step) (w : World) :
  unavailable w = true ->
  Forall (fun s => s <> Ready) steps ->
  unavailable (run J cfg steps w) = true
  /\ redis (run J cfg steps w) = redis w
  /\ issued (run J cfg steps w) = issued w.
Proof.
  revert w. induction steps as [|s steps IH]; intros w Hun Hsteps.
  - repeat split. exact Hun.
  - inversion Hsteps as [|? ? Hs Hrest]; subst. rewrite run_cons.
    assert (Hstep : unavailable (step J cfg s w) = true
                    /\ redis (step J cfg s w) = redis w
                    /\ issued (step J cfg s w) = issued w).
    { destruct s as [env req| | |err].
      - cbn [step]. rewrite (handle_unavailable J cfg env req w Hun).
        repeat split. exact Hun.
      - contradiction Hs. reflexivity.
      - cbn [step]. apply clientEvent_offline; [exact Hun|reflexivity].
      - cbn [step]. apply clientEvent_offline; [exact Hun|reflexivity]. }
    destruct Hstep as (Hun1 & Hredis1 & Hissued1).
    destruct (IH (step J cfg s w) Hun1 Hrest) as (H1 & H2 & H3).
    split; [exact H1|]. split; congruence.
Qed.

Lemma offline_until_ready_witness :
  let w := snd (handle sampleParse sampleCfg brokenEnv
                       {| method := "GET"; pathname := "/api/health";
                          query := []; adminHeader := None; body := noBody |}
                       freshWorld) in
  let steps := [Serve quietEnv (eventRequest sampleBody);
                Errored (ErrorObj "read ECONNRESET");
                Serve quietEnv (statsRequest (Some "secret") [])] in
  unavailable (run sampleParse sampleCfg steps w) = true
  /\ issued (run sampleParse sampleCfg steps w) = [OpPing].
Proof.
  cbv zeta.
  destruct (offline_until_ready sampleParse sampleCfg
              [Serve quietEnv (eventRequest sampleBody);
               Errored (ErrorObj "read ECONNRESET");
               Serve quietEnv (statsRequest (Some "secret") [])]
              (snd (handle sampleParse sampleCfg brokenEnv
                           {| method := "GET"; pathname := "/api/health";
                              query := []; adminHeader := None;
                              body := noBody |}
                           freshWorld)))
    as (Hun & _ & Hissued).
  - reflexivity.
  - repeat constructor; discriminate.
  - split; [exact Hun|]. rewrite Hissued. reflexivity.
Defined.

(** ** The transaction in closed form *)

Lemma hincrby_closed db key field :
  Redis.run (Redis.Hincrby key field 1) db
  = {| Redis.hashes := <[key := bump field (Redis.hash_at db key)]>
                         (Redis.hashes db);
       Redis.sets := Redis.sets db;
       Redis.ttl := Redis.ttl db |}.
Proof.
  unfold Redis.run, bump. cbv zeta.
  destruct ((Redis.int64_min <=? default 0 (Redis.hash_at db key !! field) + 1)
            && (default 0 (Redis.hash_at db key !! field) + 1
                <=? Redis.int64_max))%Z eqn:Hrange; [reflexivity|].
  (* a refused increment: the field is there, so is the hash *)
  assert (Hthere : Redis.hashes db !! key = Some (Redis.hash_at db key)).
  { unfold Redis.hash_at in *.
    destruct (Redis.hashes db !! key) as [h|]; [reflexivity|].
    cbn [default from_option] in Hrange. rewrite lookup_empty in Hrange.
    discriminate Hrange. }
  rewrite (insert_id _ _ _ Hthere). destruct db; reflexivity.
Qed.

Lemma has_key_hash db key h :
  Redis.hashes db !! key = Some h -> Redis.has_key db key = true.
Proof.
  intros H. unfold Redis.has_key. rewrite H.
  rewrite bool_decide_eq_true_2 by (eexists; reflexivity). reflexivity.
Qed.

Lemma has_key_set db key s :
  Redis.sets db !! key = Some s -> Redis.has_key db key = true.
Proof.
  intros H. unfold Redis.has_key. rewrite H.
  rewrite (bool_decide_eq_true_2 (is_Some (Some s)))
    by (eexists; reflexivity).
  apply orb_true_r.
Qed.

Lemma hash_at_mk k h m s t :
  Redis.hash_at {| Redis.hashes := <[k:=h]> m; Redis.sets := s;
                   Redis.ttl := t |} k = h.
Proof.
  unfold Redis.hash_at. cbn [Redis.hashes]. rewrite lookup_insert_eq.
  reflexivity.
Qed.

(** What a transaction leaves behind: the two increments on the hash of the
    day, the session id in the set of the day when it is valid, and the
    time-to-live on every key written. *)
Lemma eventTx_closed db ek sk name sid :
  Redis.exec (eventTx ek sk name sid) db
  = {| Redis.hashes :=
         <[ek := bump "_total" (bump name (Redis.hash_at db ek))]>
           (Redis.hashes db);
       Redis.sets :=
         if isValidSessionId sid
         then <[sk := {[str sid]} ∪ Redis.set_at db sk]> (Redis.sets db)
         else Redis.sets db;
       Redis.ttl :=
         if isValidSessionId sid
         then <[sk := ttlSeconds]> (<[ek := ttlSeconds]> (Redis.ttl db))
         else <[ek := ttlSeconds]> (Redis.ttl db) |}.
Proof.
  unfold Redis.exec, eventTx. rewrite fold_left_app. cbn [fold_left].
  rewrite !hincrby_closed. cbn [Redis.hashes Redis.sets Redis.ttl].
  rewrite hash_at_mk, insert_insert_eq.
  set (db2 := {| Redis.hashes := _; Redis.sets := _; Redis.ttl := _ |}).
  assert (H2 : Redis.run (Redis.Expire ek ttlSeconds) db2
               = {| Redis.hashes := Redis.hashes db2;
                    Redis.sets := Redis.sets db2;
                    Redis.ttl := <[ek := ttlSeconds]> (Redis.ttl db2) |}).
  { unfold Redis.run.
    rewrite (has_key_hash db2 ek _ (lookup_insert_eq _ _ _)). reflexivity. }
  rewrite H2. unfold db2. cbn [Redis.hashes Redis.sets Redis.ttl].
  destruct (isValidSessionId sid); [|reflexivity].
  cbn [fold_left].
  set (db3 := {| Redis.hashes := _; Redis.sets := _; Redis.ttl := _ |}).
  set (db4 := Redis.run (Redis.Sadd sk (str sid)) db3).
  unfold Redis.run at 1.
  assert (H4 : Redis.has_key db4 sk = true).
  { apply (has_key_set db4 sk ({[str sid]} ∪ Redis.set_at db3 sk)).
    unfold db4, Redis.run. cbn [Redis.sets]. apply lookup_insert_eq. }
  rewrite H4. reflexivity.
Qed.

(** ** Statistics only read *)

(** The two reads of a day leave the data and [redisState] alone and are
    both recorded, whatever their outcome. *)
Lemma reads_frame env eventKey sessionKey (w : World) :
  let out := promiseAll2 (hgetall env eventKey) (scard env sessionKey) w in
  redis (snd out) = redis w
  /\ redisState (snd out) = redisState w
  /\ exists ops,
       issued (snd out) = (issued w ++ ops)%list
       /\ forallb is_read ops = true
       /\ (List.length ops <= 2)%nat.
Proof.
  unfold promiseAll2, hgetall, scard, roundTrip.
  destruct (redis w) as [db|] eqn:Hdb.
  - destruct (fault env (OpHgetall eventKey)); cbn [redis];
      destruct (fault env (OpScard sessionKey));
      destruct (applied_on_fault env);
      cbn [snd redis redisState issued];
      (split; [reflexivity|]); (split; [reflexivity|]);
      exists [OpHgetall eventKey; OpScard sessionKey];
      rewrite <- app_assoc; repeat split; cbn [List.length]; lia.
  - rewrite Hdb. cbn [snd]. split; [exact Hdb|]. split; [reflexivity|].
    exists []. rewrite app_nil_r. repeat split. cbn [List.length]. lia.
Qed.

Lemma buildStats_from_S env n i result (w : World) :
  buildStats_from env (S n) i result w
  = match utcDateOffset (clock env i) (Z.of_nat i) with
    | inl e => (inl e, w)
    | inr date =>
        match promiseAll2 (hgetall env (eventKeyOf date))
                (scard env (sessionKeyOf date)) w with
        | (inl e, w1) => (inl e, w1)
        | (inr both, w1) =>
            buildStats_from env n (S i)
              (result ++ [{| date := date; events := fst both;
                             uniqueSessions := snd both |}])%list w1
        end
    end.
Proof.
  cbn [buildStats_from]. unfold bind, liftE.
  destruct (utcDateOffset (clock env i) (Z.of_nat i)); reflexivity.
Qed.

Lemma buildStats_from_frame env n :
  forall i result (w : World) r w',
    buildStats_from env n i result w = (r, w') ->
    redis w' = redis w
    /\ redisState w' = redisState w
    /\ exists ops,
         issued w' = (issued w ++ ops)%list
         /\ forallb is_read ops = true
         /\ (List.length ops <= 2 * n)%nat.
Proof.
  induction n as [|n IH]; intros i result w r w' Hrun.
  - cbn [buildStats_from] in Hrun. unfold ret in Hrun.
    inversion Hrun; subst.
    split; [reflexivity|]. split; [reflexivity|].
    exists []. rewrite app_nil_r. repeat split. cbn [List.length]. lia.
  - rewrite buildStats_from_S in Hrun.
    destruct (utcDateOffset (clock env i) (Z.of_nat i)) as [e|date].
    { inversion Hrun; subst.
      split; [reflexivity|]. split; [reflexivity|].
      exists []. rewrite app_nil_r. repeat split. cbn [List.length]. lia. }
    pose proof (reads_frame env (eventKeyOf date) (sessionKeyOf date) w)
      as Hreads.
    cbv zeta in Hreads.
    destruct (promiseAll2 (hgetall env (eventKeyOf date))
                (scard env (sessionKeyOf date)) w) as [[e|both] w1];
      cbn [snd] in Hreads;
      destruct Hreads as (Hr & Hs & ops & Hops & Hread & Hlen).
    + inversion Hrun; subst. split; [exact Hr|]. split; [exact Hs|].
      exists ops. repeat split; [exact Hops|exact Hread|lia].
    + destruct (IH _ _ _ _ _ Hrun)
        as (Hr2 & Hs2 & ops2 & Hops2 & Hread2 & Hlen2).
      split; [congruence|]. split; [congruence|].
      exists (ops ++ ops2)%list. rewrite Hops2, Hops, <- app_assoc.
      split; [reflexivity|]. rewrite forallb_app, Hread, Hread2.
      split; [reflexivity|]. rewrite length_app. lia.
Qed.

Lemma getStats_frame cfg env req (w : World) :
  redis (snd (getStats cfg env req w)) = redis w
  /\ redisState (snd (getStats cfg env req w)) = redisState w
  /\ exists ops,
       issued (snd (getStats cfg env req w)) = (issued w ++ ops)%list
       /\ forallb is_read ops = true
       /\ (List.length ops <= 60)%nat.
Proof.
  assert (Hsame : redis w = redis w /\ redisState w = redisState w
                  /\ exists ops, issued w = (issued w ++ ops)%list
                                 /\ forallb is_read ops = true
                                 /\ (List.length ops <= 60)%nat).
  { split; [reflexivity|]. split; [reflexivity|].
    exists []. rewrite app_nil_r. repeat split. cbn [List.length]. lia. }
  unfold getStats.
  destruct (String.eqb (adminToken cfg) ""); [exact Hsame|].
  destruct (differs (suppliedToken req) (adminToken cfg)); [exact Hsame|].
  run_m. destruct (unavailable w); [exact Hsame|].
  pose proof (requestedDays_range (query req)) as Hdays.
  unfold buildStats.
  destruct (buildStats_from env (Z.to_nat (requestedDays (query req))) 0 [] w)
    as [[err|stats] w'] eqn:Hrun;
    destruct (buildStats_from_frame env _ _ _ _ _ _ Hrun)
      as (Hr & Hs & ops & Hops & Hread & Hlen);
    cbn [snd]; (split; [exact Hr|]); (split; [exact Hs|]);
    exists ops; repeat split; try assumption; lia.
Qed.

(** X8. [GET /api/stats] never writes: whatever the answer, the data and
    [redisState] are as before, and the round trips made, at most 60, are
    all [HGETALL] or [SCARD].  So a read that fails is answered 500 without
    being recorded in [redisState.lastError] and without setting
    [connected] to [false]. *)
Theorem stats_only_read J cfg env (req : Request) (w : World) :
  method req = "GET" -> pathname req = "/api/stats" ->
  redis (snd (handle J cfg env req w)) = redis w
  /\ redisState (snd (handle J cfg env req w)) = redisState w
  /\ exists ops,
       issued (snd (handle J cfg env req w)) = (issued w ++ ops)%list
       /\ forallb is_read ops = true
       /\ (List.length ops <= 60)%nat.
Proof.
  intros Hm Hp. rewrite (handle_get_stats J cfg env req Hm Hp).
  apply getStats_frame.
Qed.

Lemma stats_only_read_witness :
  redisState (snd (handle sampleParse sampleCfg brokenEnv
                          (statsRequest (Some "secret") []) freshWorld))
  = {| enabled := true; connected := true; lastError := None |}.
Proof.
  destruct (stats_only_read sampleParse sampleCfg brokenEnv
              (statsRequest (Some "secret") []) freshWorld eq_refl eq_refl)
    as (_ & Hstate & _).
  rewrite Hstate. reflexivity.
Defined.

(** A request other than [POST /api/events] leaves the data alone. *)
Lemma handle_keeps_data J cfg env req (w : World) :
  method req <> "POST" \/ pathname req <> "/api/events" ->
  redis (snd (handle J cfg env req w)) = redis w.
Proof.
  intros Hnot.
  destruct (handle_route J cfg env req)
    as [(_ & _ & _ & H) | [(_ & _ & _ & H) | [(Hm & Hp & _)
       | [(_ & _ & _ & H) | (_ & H)]]]].
  - rewrite H. destruct (serveIndex_run env w) as (r & -> & _). reflexivity.
  - rewrite H. unfold bind.
    destruct (unavailable w) eqn:Hun.
    + destruct (buildHealth_unavailable env w Hun) as [ts ->]. reflexivity.
    + destruct (unavailable_false w Hun) as (db & Hdb & Hconn).
      destruct (fault env OpPing) as [err|] eqn:Hfault.
      * destruct (buildHealth_failed env w db err Hdb Hconn Hfault) as [ts ->].
        cbn [snd ret redis]. symmetry. exact Hdb.
      * destruct (buildHealth_ok env w db Hdb Hconn Hfault) as [ts ->].
        cbn [snd ret redis]. symmetry. exact Hdb.
  - destruct Hnot; contradiction.
  - rewrite H. apply getStats_frame.
  - rewrite H. reflexivity.
Qed.

(** What a request can do to the data: nothing, or the transaction of a
    valid event name on the key of some date. *)
Lemma handle_data J cfg env req (w : World) :
  db_of (snd (handle J cfg env req w)) = db_of w
  \/ exists name sid date,
       eventNameOf J (Serve env req) = Some name
       /\ isValidEventName (VString name) = true
       /\ db_of (snd (handle J cfg env req w))
          = Redis.exec (eventTx (eventKeyOf date) (sessionKeyOf date) name sid)
                       (db_of w).
Proof.
  destruct (String.eqb_spec (method req) "POST") as [Hm|Hm];
    [destruct (String.eqb_spec (pathname req) "/api/events") as [Hp|Hp]|].
  - rewrite (handle_post_events J cfg env req Hm Hp).
    destruct (postEvents_outcome J env req w)
      as [[code H] | [(parsed & e & _ & _ & H)
         | (parsed & name & sid & stored & w1 & Hread & Hev & _ & Hvalid
            & Hstore & H)]];
      rewrite H; [left; reflexivity..|].
    cbn [snd].
    destruct (storeEvent_data env name sid w) as [Hsame | [date Hexec]];
      rewrite Hstore in *; cbn [snd] in *.
    + left. exact Hsame.
    + right. exists name, sid, date. split; [|split; assumption].
      cbn [eventNameOf]. rewrite Hread, Hev. reflexivity.
  - left. unfold db_of.
    rewrite (handle_keeps_data J cfg env req w (or_intror Hp)). reflexivity.
  - left. unfold db_of.
    rewrite (handle_keeps_data J cfg env req w (or_introl Hm)). reflexivity.
Qed.

Lemma clientEvent_data (f : RedisState -> RedisState) (w : World) :
  db_of (clientEvent f w) = db_of w.
Proof.
  unfold clientEvent, db_of. destruct (redis w) eqn:Hr; [reflexivity|].
  rewrite Hr. reflexivity.
Qed.

(** The same for a step of the process. *)
Lemma step_data J cfg (s : Step) (w : World) :
  db_of (step J cfg s w) = db_of w
  \/ exists name sid date,
       eventNameOf J s = Some name
       /\ isValidEventName (VString name) = true
       /\ db_of (step J cfg s w)
          = Redis.exec (eventTx (eventKeyOf date) (sessionKeyOf date) name sid)
                       (db_of w).
Proof.
  destruct s as [env req| | |err];
    [apply handle_data|left; apply clientEvent_data..].
Qed.

(** ** Invariants of the data over the life of the process *)

Lemma db_of_boot cfg remote connectError :
  db_of (boot cfg remote connectError) = remote
  \/ db_of (boot cfg remote connectError) = Redis.empty.
Proof. unfold boot. destruct (enabled _); [left|right]; reflexivity. Qed.

Lemma ttl_kept_empty : ttl_kept Redis.empty.
Proof.
  intros key Hkey. unfold Redis.has_key, Redis.empty in Hkey.
  cbn [Redis.hashes Redis.sets] in Hkey. rewrite !lookup_empty in Hkey.
  rewrite !bool_decide_eq_false_2 in Hkey by (intros [? H]; discriminate H).
  discriminate Hkey.
Qed.

Lemma has_key_insert_hash db k (h : gmap string Z) s t key :
  Redis.has_key {| Redis.hashes := <[k:=h]> (Redis.hashes db);
                   Redis.sets := s; Redis.ttl := t |} key = true ->
  key = k
  \/ Redis.has_key {| Redis.hashes := Redis.hashes db; Redis.sets := s;
                      Redis.ttl := t |} key = true.
Proof.
  destruct (decide (key = k)) as [->|Hne]; [left; reflexivity|].
  intros H. right. unfold Redis.has_key in *. cbn [Redis.hashes] in *.
  rewrite lookup_insert_ne in H by congruence. exact H.
Qed.

Lemma has_key_insert_set db k (x : gset string) h t key :
  Redis.has_key {| Redis.hashes := h; Redis.sets := <[k:=x]> (Redis.sets db);
                   Redis.ttl := t |} key = true ->
  key = k
  \/ Redis.has_key {| Redis.hashes := h; Redis.sets := Redis.sets db;
                      Redis.ttl := t |} key = true.
Proof.
  destruct (decide (key = k)) as [->|Hne]; [left; reflexivity|].
  intros H. right. unfold Redis.has_key in *. cbn [Redis.sets] in *.
  rewrite lookup_insert_ne in H by congruence. exact H.
Qed.

Lemma has_key_ttl_irrelevant h s t t' key :
  Redis.has_key {| Redis.hashes := h; Redis.sets := s; Redis.ttl := t |} key
  = Redis.has_key {| Redis.hashes := h; Redis.sets := s; Redis.ttl := t' |}
                  key.
Proof. reflexivity. Qed.

(** A transaction puts the time-to-live on each key it writes. *)
Lemma eventTx_ttl_kept db ek sk name sid :
  ttl_kept db -> ttl_kept (Redis.exec (eventTx ek sk name sid) db).
Proof.
  intros Hkept key. rewrite eventTx_closed.
  assert (Hold : Redis.has_key {| Redis.hashes := Redis.hashes db;
                                  Redis.sets := Redis.sets db;
                                  Redis.ttl := Redis.ttl db |} key = true ->
                 Redis.ttl db !! key = Some ttlSeconds).
  { intros H. apply Hkept. destruct db. exact H. }
  destruct (isValidSessionId sid); cbn [Redis.ttl]; intros Hkey.
  - destruct (decide (key = sk)) as [->|Hsk];
      [apply lookup_insert_eq|rewrite lookup_insert_ne by congruence].
    destruct (decide (key = ek)) as [->|Hek];
      [apply lookup_insert_eq|rewrite lookup_insert_ne by congruence].
    apply has_key_insert_hash in Hkey as [Hkey|Hkey]; [contradiction|].
    apply has_key_insert_set in Hkey as [Hkey|Hkey]; [contradiction|].
    apply Hold. exact Hkey.
  - destruct (decide (key = ek)) as [->|Hek];
      [apply lookup_insert_eq|rewrite lookup_insert_ne by congruence].
    apply has_key_insert_hash in Hkey as [Hkey|Hkey]; [contradiction|].
    apply Hold. exact Hkey.
Qed.

(** X9. No key is left without expiry: if every key of the server
    carries the time-to-live of 120 days when the process starts (as on an
    empty server), then so does every key after any sequence of requests
    and client events, because each transaction sets it on the keys it
    writes. *)
Theorem ttl_always_set J cfg remote connectError (steps : list Step) :
  ttl_kept remote ->
  ttl_kept (db_of (run J cfg steps (boot cfg remote connectError))).
Proof.
  intros Hremote.
  assert (Hstart : ttl_kept (db_of (boot cfg remote connectError))).
  { destruct (db_of_boot cfg remote connectError) as [-> | ->];
      [exact Hremote|exact ttl_kept_empty]. }
  generalize dependent (boot cfg remote connectError).
  induction steps as [|s steps IH]; intros w Hw; [exact Hw|].
  rewrite run_cons. apply IH.
  destruct (step_data J cfg s w) as [-> | (name & sid & date & _ & _ & ->)];
    [exact Hw|apply eventTx_ttl_kept; exact Hw].
Qed.

Lemma ttl_always_set_witness :
  Redis.ttl (db_of (run sampleParse sampleCfg
                        [Serve quietEnv (eventRequest sampleBody)]
                        freshWorld))
  !! "keccak:sessions:2026-11-02"
  = Some 10368000%Z.
Proof.
  apply (ttl_always_set sampleParse sampleCfg Redis.empty None
           [Serve quietEnv (eventRequest sampleBody)] ttl_kept_empty).
  vm_compute. reflexivity.
Defined.

Lemma step_good J cfg n (s : Step) (w : World) :
  eventNameOf J s <> Some "_total" -> (n < Redis.int64_max)%Z ->
  all_good n w -> all_good (n + 1) (step J cfg s w).
Proof.
  intros Hname Hmax Hgood key.
  destruct (step_data J cfg s w) as [-> | (name & sid & date & Hn & _ & ->)].
  - apply (good_mono n); [lia|apply Hgood].
  - rewrite hash_at_eventTx. destruct (decide (key = eventKeyOf date)).
    + apply bump_good; [congruence|apply Hgood|exact Hmax].
    + apply (good_mono n); [lia|apply Hgood].
Qed.

Lemma run_good J cfg (steps : list Step) :
  forall n (w : World),
    Forall (fun s => eventNameOf J s <> Some "_total") steps ->
    (n + Z.of_nat (List.length steps) <= Redis.int64_max)%Z ->
    all_good n w ->
    all_good (n + Z.of_nat (List.length steps)) (run J cfg steps w).
Proof.
  induction steps as [|s steps IH]; intros n w Hnames Hlen Hgood.
  - cbn [List.length run fold_left].
    replace (n + Z.of_nat 0)%Z with n by lia. exact Hgood.
  - inversion Hnames as [|? ? Hs Hrest]; subst.
    rewrite run_cons. cbn [List.length] in *.
    replace (n + Z.of_nat (S (List.length steps)))%Z
      with ((n + 1) + Z.of_nat (List.length steps))%Z by lia.
    apply IH; [exact Hrest|lia|].
    apply step_good; [exact Hs|lia|exact Hgood].
Qed.

(** X10. The counters of every day stay consistent over the life of the
    process, as long as no request names its event [_total]: starting on an
    empty server, after any sequence of fewer than 2^63 requests and client
    events (any clocks, any failed round trips), the total of a day is the
    sum of its other counters, no counter is negative, no counter exceeds
    the total, and the total is at most the number of steps. *)
Theorem counters_consistent J cfg connectError (steps : list Step)
        (date name : string) :
  Forall (fun s => eventNameOf J s <> Some "_total") steps ->
  (Z.of_nat (List.length steps) <= Redis.int64_max)%Z ->
  let w := run J cfg steps (boot cfg Redis.empty connectError) in
  total_of (counters w date) = named_sum (counters w date)
  /\ (0 <= counter w date name <= total_of (counters w date))%Z
  /\ (total_of (counters w date) <= Z.of_nat (List.length steps))%Z.
Proof.
  intros Hnames Hlen w.
  assert (Hstart : all_good 0 (boot cfg Redis.empty connectError)).
  { intros key.
    assert (Hempty : Redis.hash_at
                       (db_of (boot cfg Redis.empty connectError)) key = ∅).
    { unfold boot. destruct (enabled _); reflexivity. }
    rewrite Hempty. apply good_empty. }
  pose proof (run_good J cfg steps 0 _ Hnames ltac:(lia) Hstart
                (eventKeyOf date)) as (Hsum & Hnonneg & Hbound).
  fold w in Hsum, Hnonneg, Hbound. fold (counters w date) in *.
  split; [exact Hsum|]. split; [|lia].
  unfold counter. destruct (decide (name = "_total")) as [->|Hne].
  - fold (total_of (counters w date)).
    pose proof (lookup_le_sum (delete "_total" (counters w date)) "_total"
                  (map_Forall_delete _ _ _ Hnonneg)) as Hle.
    fold (named_sum (counters w date)) in Hle. lia.
  - pose proof (lookup_le_sum (delete "_total" (counters w date)) name
                  (map_Forall_delete _ _ _ Hnonneg)) as Hle.
    rewrite lookup_delete_ne in Hle by congruence.
    fold (named_sum (counters w date)) in Hle. lia.
Qed.

Lemma counters_consistent_witness :
  let w := run sampleParse sampleCfg
               [Serve quietEnv (eventRequest sampleBody); Ended; Ready;
                Serve quietEnv (eventRequest sampleBody)]
               freshWorld in
  total_of (counters w "2026-11-02") = named_sum (counters w "2026-11-02")
  /\ (0 <= counter w "2026-11-02" "build_trace"
      <= total_of (counters w "2026-11-02"))%Z
  /\ (total_of (counters w "2026-11-02") <= 4)%Z.
Proof.
  apply (counters_consistent sampleParse sampleCfg None
           [Serve quietEnv (eventRequest sampleBody); Ended; Ready;
            Serve quietEnv (eventRequest sampleBody)]
           "2026-11-02" "build_trace").
  - repeat constructor; vm_compute; discriminate.
  - vm_compute. discriminate.
Defined.

Lemma eventKeyOf_inj (d1 d2 : string) : eventKeyOf d1 = eventKeyOf d2 -> d1 = d2.
Proof.
  unfold eventKeyOf. intros H. inversion H as [Hrest]. exact Hrest.
Qed.

Lemma sessionKeyOf_inj (d1 d2 : string) :
  sessionKeyOf d1 = sessionKeyOf d2 -> d1 = d2.
Proof.
  unfold sessionKeyOf. intros H. inversion H as [Hrest]. exact Hrest.
Qed.

(** The session set at any key after a transaction. *)
Lemma set_at_eventTx_any db ek sk name sid key :
  Redis.set_at (Redis.exec (eventTx ek sk name sid) db) key
  = if isValidSessionId sid
    then if decide (key = sk) then {[str sid]} ∪ Redis.set_at db sk
         else Redis.set_at db key
    else Redis.set_at db key.
Proof.
  rewrite eventTx_closed. unfold Redis.set_at at 1. cbn [Redis.sets].
  destruct (isValidSessionId sid); [|reflexivity].
  destruct (decide (key = sk)) as [->|Hne].
  - rewrite lookup_insert_eq. reflexivity.
  - rewrite lookup_insert_ne by congruence. reflexivity.
Qed.

(** The total grows by one with a transaction, by two when the event is
    named [_total]. *)
Lemma total_after_tx (h : gmap string Z) name :
  (0 <= total_of h)%Z -> (total_of h + 2 <= Redis.int64_max)%Z ->
  (total_of h + 1 <= total_of (bump "_total" (bump name h))
   <= total_of h + 2)%Z.
Proof.
  intros Hlo Hhi. unfold total_of in *.
  unfold Redis.int64_max in *.
  destruct (decide (name = "_total")) as [->|Hne].
  - rewrite bump_lookup; rewrite bump_lookup;
      unfold Redis.int64_max, Redis.int64_min; lia.
  - rewrite bump_lookup; rewrite bump_lookup_ne by exact Hne;
      unfold Redis.int64_max, Redis.int64_min; lia.
Qed.

Lemma eventTx_sessions_bounded n db date0 name sid :
  (2 * n + 2 <= Redis.int64_max)%Z ->
  sessions_bounded (2 * n) db ->
  sessions_bounded (2 * (n + 1))
    (Redis.exec (eventTx (eventKeyOf date0) (sessionKeyOf date0) name sid) db).
Proof.
  intros Hmax Hdb date. specialize (Hdb date).
  rewrite hash_at_eventTx, set_at_eventTx_any.
  destruct (decide (date = date0)) as [->|Hne].
  - rewrite !decide_True by reflexivity.
    pose proof (total_after_tx (Redis.hash_at db (eventKeyOf date0)) name
                  ltac:(lia) ltac:(lia)) as Htotal.
    pose proof (sadd_size (str sid) (Redis.set_at db (sessionKeyOf date0)))
      as Hsize.
    destruct (isValidSessionId sid); lia.
  - rewrite (decide_False (P := eventKeyOf date = eventKeyOf date0))
      by (intros H; apply Hne, eventKeyOf_inj, H).
    rewrite (decide_False (P := sessionKeyOf date = sessionKeyOf date0))
      by (intros H; apply Hne, sessionKeyOf_inj, H).
    destruct (isValidSessionId sid); lia.
Qed.

Lemma run_sessions_bounded J cfg (steps : list Step) :
  forall n (w : World),
    (2 * (n + Z.of_nat (List.length steps)) <= Redis.int64_max)%Z ->
    (0 <= n)%Z ->
    sessions_bounded (2 * n) (db_of w) ->
    sessions_bounded (2 * (n + Z.of_nat (List.length steps)))
                     (db_of (run J cfg steps w)).
Proof.
  induction steps as [|s steps IH]; intros n w Hlen Hn Hw.
  - cbn [List.length run fold_left].
    replace (n + Z.of_nat 0)%Z with n by lia. exact Hw.
  - rewrite run_cons. cbn [List.length] in *.
    replace (n + Z.of_nat (S (List.length steps)))%Z
      with ((n + 1) + Z.of_nat (List.length steps))%Z by lia.
    apply IH; [lia|lia|].
    destruct (step_data J cfg s w) as [-> | (name & sid & date & _ & _ & ->)].
    + intros date. specialize (Hw date). lia.
    + apply eventTx_sessions_bounded; [lia|exact Hw].
Qed.

(** X11. The unique sessions of a day never outnumber its events: starting
    on an empty server, after any sequence of requests and client events
    (fewer than 2^62 of them), the session set of every day has at most as
    many members as the total counter of that day says.  This holds
    whatever the event names are. *)
Theorem sessions_at_most_total J cfg connectError (steps : list Step)
        (date : string) :
  (2 * Z.of_nat (List.length steps) <= Redis.int64_max)%Z ->
  let w := run J cfg steps (boot cfg Redis.empty connectError) in
  (Z.of_nat (size (sessions w date)) <= total_of (counters w date))%Z.
Proof.
  intros Hlen w.
  assert (Hstart : sessions_bounded (2 * 0)
                     (db_of (boot cfg Redis.empty connectError))).
  { assert (Hempty : db_of (boot cfg Redis.empty connectError) = Redis.empty).
    { destruct (db_of_boot cfg Redis.empty connectError); assumption. }
    rewrite Hempty. intros d. vm_compute. split; discriminate. }
  pose proof (run_sessions_bounded J cfg steps 0 _ ltac:(lia) ltac:(lia)
                Hstart date) as [Hle _].
  exact Hle.
Qed.

Lemma sessions_at_most_total_witness :
  let w := run sampleParse sampleCfg
               [Serve quietEnv (eventRequest sampleBody);
                Serve quietEnv (eventRequest sampleBody)]
               freshWorld in
  (Z.of_nat (size (sessions w "2026-11-02"))
   <= total_of (counters w "2026-11-02"))%Z.
Proof.
  apply (sessions_at_most_total sampleParse sampleCfg None
           [Serve quietEnv (eventRequest sampleBody);
            Serve quietEnv (eventRequest sampleBody)] "2026-11-02").
  vm_compute. discriminate.
Defined.

(** ** The order of ingestions *)

Lemma bump_comm f g (h : gmap string Z) :
  bump f (bump g h) = bump g (bump f h).
Proof.
  destruct (decide (f = g)) as [->|Hne]; [reflexivity|].
  unfold bump at 1 3. cbv zeta.
  rewrite (bump_lookup_ne g f h) by congruence.
  rewrite (bump_lookup_ne f g h) by exact Hne.
  unfold bump. cbv zeta.
  destruct ((Redis.int64_min <=? default 0 (h !! f) + 1)
            && (default 0 (h !! f) + 1 <=? Redis.int64_max))%Z;
    destruct ((Redis.int64_min <=? default 0 (h !! g) + 1)
              && (default 0 (h !! g) + 1 <=? Redis.int64_max))%Z;
    try reflexivity.
  apply insert_insert_ne. exact Hne.
Qed.

Lemma bumps_comm n1 n2 (h : gmap string Z) :
  bump "_total" (bump n1 (bump "_total" (bump n2 h)))
  = bump "_total" (bump n2 (bump "_total" (bump n1 h))).
Proof.
  rewrite (bump_comm n1 "_total"), (bump_comm n2 "_total" (bump n1 h)).
  rewrite (bump_comm n1 n2). reflexivity.
Qed.

Lemma insert_same_swap (a b : string) (t : Z) (m : gmap string Z) :
  <[a:=t]> (<[b:=t]> m) = <[b:=t]> (<[a:=t]> m).
Proof.
  destruct (decide (a = b)) as [->|Hne]; [reflexivity|].
  apply insert_insert_ne. exact Hne.
Qed.

Lemma db_eq (d1 d2 : Redis.Db) :
  Redis.hashes d1 = Redis.hashes d2 -> Redis.sets d1 = Redis.sets d2 ->
  Redis.ttl d1 = Redis.ttl d2 -> d1 = d2.
Proof.
  destruct d1, d2. cbn [Redis.hashes Redis.sets Redis.ttl].
  intros -> -> ->. reflexivity.
Qed.

Lemma union_swap (x y : string) (s : gset string) :
  {[x]} ∪ ({[y]} ∪ s) = {[y]} ∪ ({[x]} ∪ s).
Proof.
  rewrite !(assoc_L (∪)). rewrite (comm_L (∪) {[x]} {[y]}). reflexivity.
Qed.

(** Two transactions give the same data in either order. *)
Lemma eventTx_comm db ek1 sk1 n1 s1 ek2 sk2 n2 s2 :
  Redis.exec (eventTx ek1 sk1 n1 s1) (Redis.exec (eventTx ek2 sk2 n2 s2) db)
  = Redis.exec (eventTx ek2 sk2 n2 s2) (Redis.exec (eventTx ek1 sk1 n1 s1) db).
Proof.
  apply db_eq.
  - rewrite (eventTx_closed (Redis.exec (eventTx ek2 sk2 n2 s2) db)).
    rewrite (eventTx_closed (Redis.exec (eventTx ek1 sk1 n1 s1) db)).
    cbn [Redis.hashes]. rewrite !hash_at_eventTx.
    rewrite !eventTx_closed. cbn [Redis.hashes].
    destruct (decide (ek1 = ek2)) as [->|Hne].
    + rewrite !decide_True by reflexivity. rewrite !insert_insert_eq.
      rewrite bumps_comm. reflexivity.
    + rewrite (decide_False (P := ek2 = ek1)) by congruence.
      apply insert_insert_ne. exact Hne.
  - rewrite (eventTx_closed (Redis.exec (eventTx ek2 sk2 n2 s2) db)).
    rewrite (eventTx_closed (Redis.exec (eventTx ek1 sk1 n1 s1) db)).
    cbn [Redis.sets]. rewrite !set_at_eventTx_any.
    rewrite !eventTx_closed. cbn [Redis.sets].
    destruct (isValidSessionId s1); destruct (isValidSessionId s2);
      try reflexivity.
    destruct (decide (sk1 = sk2)) as [->|Hne].
    + rewrite !decide_True by reflexivity. rewrite !insert_insert_eq.
      rewrite union_swap. reflexivity.
    + rewrite (decide_False (P := sk2 = sk1)) by congruence.
      apply insert_insert_ne. exact Hne.
  - rewrite !eventTx_closed. cbn [Redis.ttl].
    destruct (isValidSessionId s1); destruct (isValidSessionId s2).
    + rewrite (insert_same_swap ek1 sk2), (insert_same_swap sk1 sk2).
      rewrite (insert_same_swap ek1 ek2), (insert_same_swap sk1 ek2).
      reflexivity.
    + rewrite (insert_same_swap ek1 ek2), (insert_same_swap sk1 ek2).
      reflexivity.
    + rewrite (insert_same_swap ek1 sk2), (insert_same_swap ek1 ek2).
      reflexivity.
    + apply insert_same_swap.
Qed.

(** The data after a call, from the data and the availability before. *)
Lemma storeEvent_db env name sid (w : World) date :
  utcDateOffset (clock env 0) 0 = inr date ->
  db_of (snd (storeEvent env name sid w))
  = if unavailable w then db_of w
    else if reached env name sid date
         then Redis.exec (eventTx (eventKeyOf date) (sessionKeyOf date)
                                  name sid) (db_of w)
         else db_of w.
Proof.
  intros Hdate. destruct (unavailable w) eqn:Hun.
  - rewrite (storeEvent_unavailable env name sid w Hun). reflexivity.
  - destruct (unavailable_false w Hun) as (db & Hdb & Hconn).
    pose proof (storeEvent_available env name sid w db date Hdb Hconn Hdate)
      as Hrun.
    cbv zeta in Hrun. rewrite Hrun. unfold reached, db_of. rewrite Hdb.
    destruct (fault env _); [destruct (applied_on_fault env)|]; reflexivity.
Qed.

Lemma storeEvent_similar env name sid (w1 w2 : World) :
  similar w1 w2 ->
  similar (snd (storeEvent env name sid w1))
          (snd (storeEvent env name sid w2)).
Proof.
  intros [Hdb Hun].
  destruct (utcDateOffset_today_returns (clock env 0)) as [date Hdate].
  destruct (storeEvent_outcome env name sid w1) as (b1 & v1 & H1 & Hu1 & _).
  destruct (storeEvent_outcome env name sid w2) as (b2 & v2 & H2 & Hu2 & _).
  split.
  - rewrite !(storeEvent_db env name sid _ date Hdate), Hdb, Hun.
    reflexivity.
  - rewrite H1, H2. cbn [snd]. congruence.
Qed.

Lemma storeEvent_swap env1 name1 sid1 env2 name2 sid2 (w : World) :
  similar (snd (storeEvent env2 name2 sid2
                           (snd (storeEvent env1 name1 sid1 w))))
          (snd (storeEvent env1 name1 sid1
                           (snd (storeEvent env2 name2 sid2 w)))).
Proof.
  destruct (utcDateOffset_today_returns (clock env1 0)) as [d1 Hd1].
  destruct (utcDateOffset_today_returns (clock env2 0)) as [d2 Hd2].
  destruct (storeEvent_outcome env1 name1 sid1 w) as (b1 & v1 & H1 & Hu1 & _).
  destruct (storeEvent_outcome env2 name2 sid2 w) as (b2 & v2 & H2 & Hu2 & _).
  destruct (storeEvent_outcome env2 name2 sid2 v1)
    as (b12 & v12 & H12 & Hu12 & _).
  destruct (storeEvent_outcome env1 name1 sid1 v2)
    as (b21 & v21 & H21 & Hu21 & _).
  split.
  - repeat first [rewrite (storeEvent_db env1 name1 sid1 _ d1 Hd1)
                 |rewrite (storeEvent_db env2 name2 sid2 _ d2 Hd2)].
    rewrite H1, H2. cbn [snd]. rewrite Hu1, Hu2.
    destruct (unavailable w); [reflexivity|].
    destruct (reached env1 name1 sid1 d1);
      destruct (reached env2 name2 sid2 d2); try reflexivity.
    apply eventTx_comm.
  - rewrite H1, H2. cbn [snd]. rewrite H12, H21. cbn [snd]. congruence.
Qed.

Lemma ingestAll_similar (calls : list Ingest) :
  forall w1 w2, similar w1 w2 ->
                similar (ingestAll calls w1) (ingestAll calls w2).
Proof.
  induction calls as [|c calls IH]; intros w1 w2 Hsim; [exact Hsim|].
  cbn [ingestAll]. apply IH. apply storeEvent_similar. exact Hsim.
Qed.

Lemma similar_trans (w1 w2 w3 : World) :
  similar w1 w2 -> similar w2 w3 -> similar w1 w3.
Proof. intros [H1 H2] [H3 H4]. split; congruence. Qed.

Lemma ingestAll_permutation (calls calls' : list Ingest) :
  Permutation calls calls' ->
  forall w1 w2, similar w1 w2 ->
                similar (ingestAll calls w1) (ingestAll calls' w2).
Proof.
  induction 1 as [|c l l' _ IH|c1 c2 l|l l' l'' _ IH1 _ IH2];
    intros w1 w2 Hsim.
  - exact Hsim.
  - cbn [ingestAll]. apply IH. apply storeEvent_similar. exact Hsim.
  - cbn [ingestAll]. apply ingestAll_similar.
    eapply similar_trans; [apply storeEvent_swap|].
    apply storeEvent_similar, storeEvent_similar. exact Hsim.
  - eapply similar_trans; [apply (IH1 w1 w2 Hsim)|].
    apply IH2. split; reflexivity.
Qed.

(** X12. The order of ingestions does not matter to the data: two
    sequences of [storeEvent] calls that are permutations of each other
    (each call with its own clock reading and its own failure, if any)
    leave the same hashes, sets and times-to-live behind, and the store as
    available as before. *)
Theorem ingestion_order_is_irrelevant (calls calls' : list Ingest)
        (w : World) :
  Permutation calls calls' ->
  db_of (ingestAll calls w) = db_of (ingestAll calls' w)
  /\ unavailable (ingestAll calls w) = unavailable (ingestAll calls' w).
Proof.
  intros Hperm.
  apply (ingestAll_permutation calls calls' Hperm w w).
  split; reflexivity.
Qed.

Lemma ingestion_order_is_irrelevant_witness :
  let a := {| i_env := quietEnv; i_name := "open_page";
              i_session := VString "abc-123" |} in
  let b := {| i_env := brokenEnv; i_name := "build_trace";
              i_session := VString "s-000001" |} in
  let c := {| i_env := quietEnv; i_name := "_total";
              i_session := VNull |} in
  db_of (ingestAll [a; b; c] freshWorld)
  = db_of (ingestAll [c; a; b] freshWorld).
Proof.
  cbv zeta.
  apply (ingestion_order_is_irrelevant
           [{| i_env := quietEnv; i_name := "open_page";
               i_session := VString "abc-123" |};
            {| i_env := brokenEnv; i_name := "build_trace";
               i_session := VString "s-000001" |};
            {| i_env := quietEnv; i_name := "_total";
               i_session := VNull |}]
           [{| i_env := quietEnv; i_name := "_total";
               i_session := VNull |};
            {| i_env := quietEnv; i_name := "open_page";
               i_session := VString "abc-123" |};
            {| i_env := brokenEnv; i_name := "build_trace";
               i_session := VString "s-000001" |}]
           freshWorld).
  apply Permutation_sym.
  apply (Permutation_cons_app [_; _] [] _ (Permutation_refl _)).
Defined.

(** ** Reading back what was ingested *)

Lemma bump_lookup_some field (h : gmap string Z) :
  (Redis.int64_min <= default 0 (h !! field) + 1 <= Redis.int64_max)%Z ->
  bump field h !! field = Some (default 0 (h !! field) + 1)%Z.
Proof.
  intros [Hlo Hhi]. unfold bump. cbv zeta.
  apply Z.leb_le in Hlo, Hhi. rewrite Hlo, Hhi. cbn [andb].
  apply lookup_insert_eq.
Qed.

Lemma bump_twice_lookup field (h : gmap string Z) :
  (Redis.int64_min <= default 0 (h !! field) + 1
   /\ default 0 (h !! field) + 2 <= Redis.int64_max)%Z ->
  bump field (bump field h) !! field = Some (default 0 (h !! field) + 2)%Z.
Proof.
  intros [Hlo Hhi].
  assert (H1 : bump field h !! field = Some (default 0 (h !! field) + 1)%Z)
    by (apply bump_lookup_some; lia).
  rewrite bump_lookup_some; rewrite H1; cbn [default from_option id];
    [f_equal; lia|lia].
Qed.

Lemma dateBack_same_day env1 env2 :
  Day (clock env2 0) = Day (clock env1 0) -> dateBack env2 0 = dateBack env1 0.
Proof. intros H. unfold dateBack. rewrite H. reflexivity. Qed.

(** X13. What is stored is reported.  After a call of [storeEvent] that
    returned [true], a statistics query for one day made on the same UTC
    day (clocks between 1970 and 9999, reads succeeding) returns one entry,
    dated that day, in which the counter of the event name is the old
    count plus one (plus two for the name [_total], which the transaction
    increments twice), in the decimal text the store replies, and whose
    [uniqueSessions] counts the session id if it is valid and ignores it
    otherwise. *)
Theorem stored_event_is_reported env1 env2 name sid (w : World) :
  unavailable w = false ->
  fst (storeEvent env1 name sid w) = inr true ->
  (0 <= ms (clock env1 0) <= isoMax)%Z ->
  (0 <= ms (clock env2 0) <= isoMax)%Z ->
  Day (clock env2 0) = Day (clock env1 0) ->
  readFault env2 0 = None ->
  let today := isoDay (Day (clock env1 0)) in
  (Redis.int64_min <= counter w today name + 1)%Z ->
  (counter w today name + 2 <= Redis.int64_max)%Z ->
  exists e w',
    buildStats env2 1 (snd (storeEvent env1 name sid w)) = (inr [e], w')
    /\ date e = today
    /\ events e !! name
       = Some (Redis.bulk
                 (counter w today name
                  + (if decide (name = "_total") then 2 else 1))%Z)
    /\ uniqueSessions e
       = Z.of_nat (size (if isValidSessionId sid
                         then {[str sid]} ∪ sessions w today
                         else sessions w today)).
Proof.
  intros Hun Hstored Hc1 Hc2 Hday Hread today Hlo Hhi.
  destruct (unavailable_false w Hun) as (db & Hdb & Hconn).
  assert (Htoday : dateBack env1 0 = today).
  { unfold dateBack, today. f_equal. cbn [Z.of_nat]. lia. }
  pose proof (utcDateOffset_dateBack env1 0 Hc1 ltac:(lia)) as Hdate.
  cbn [Z.of_nat] in Hdate. rewrite Htoday in Hdate.
  pose proof (storeEvent_available env1 name sid w db today Hdb Hconn Hdate)
    as Hrun.
  cbv zeta in Hrun. rewrite Hrun in Hstored |- *.
  destruct (fault env1 _); [discriminate Hstored|]. cbn [snd].
  set (db1 := Redis.exec _ db).
  set (w1 := {| redis := Some db1; redisState := _; issued := _ |}).
  destruct (buildStats_step env2 db1 0 0 [] w1 eq_refl Hc2 ltac:(lia))
    as (w' & _ & Hstep).
  rewrite Hread in Hstep. cbn [buildStats_from app] in Hstep.
  exists (dayEntry env2 db1 0), w'.
  split; [exact Hstep|].
  assert (Hsame : dateBack env2 0 = today).
  { rewrite (dateBack_same_day env1 env2 Hday). exact Htoday. }
  unfold dayEntry. cbn [date events uniqueSessions]. rewrite Hsame.
  split; [reflexivity|].
  assert (Hcounter : counter w today name
                     = default 0%Z (Redis.hash_at db (eventKeyOf today)
                                    !! name)).
  { unfold counter, counters, db_of. rewrite Hdb. reflexivity. }
  assert (Hsessions : sessions w today
                      = Redis.set_at db (sessionKeyOf today)).
  { unfold sessions, db_of. rewrite Hdb. reflexivity. }
  rewrite Hcounter in *. rewrite Hsessions. split.
  - unfold Redis.hgetall, db1. rewrite lookup_fmap.
    rewrite hash_at_eventTx, decide_True by reflexivity.
    destruct (decide (name = "_total")) as [Heq|Hne].
    + rewrite <- Heq. rewrite bump_twice_lookup by lia. reflexivity.
    + rewrite bump_lookup_ne by congruence.
      rewrite bump_lookup_some by lia. reflexivity.
  - unfold Redis.scard, db1. rewrite set_at_eventTx_any.
    destruct (isValidSessionId sid); [|reflexivity].
    rewrite decide_True by reflexivity. reflexivity.
Qed.

Lemma stored_event_is_reported_witness :
  exists e w',
    buildStats quietEnv 1
               (snd (storeEvent quietEnv "build_trace" (VString "abc-123")
                                freshWorld))
    = (inr [e], w')
    /\ date e = "2026-11-02"
    /\ events e !! "build_trace" = Some "1"
    /\ uniqueSessions e = 1%Z.
Proof.
  destruct (stored_event_is_reported quietEnv quietEnv "build_trace"
              (VString "abc-123") freshWorld)
    as (e & w' & Hrun & Hdate & Hcount & Hsessions).
  - reflexivity.
  - reflexivity.
  - vm_compute. split; discriminate.
  - vm_compute. split; discriminate.
  - reflexivity.
  - reflexivity.
  - vm_compute. discriminate.
  - vm_compute. discriminate.
  - exists e, w'. split; [exact Hrun|]. split; [rewrite Hdate|split].
    + vm_compute. reflexivity.
    + rewrite Hcount. vm_compute. reflexivity.
    + rewrite Hsessions. vm_compute. reflexivity.
Defined.

(** ** What [storeEvent] touches *)

(** X14. A call of [storeEvent] only touches the two keys of the day of
    its clock reading: the hash at every other key, the set at every other
    key and the time-to-live of every other key are as before.  A session
    id that is not valid (absent, not a string, too short, ...) is treated
    as no session: no set is changed at all. *)
Theorem storeEvent_touches_today_only env name sid (w : World) date :
  utcDateOffset (clock env 0) 0 = inr date ->
  let w' := snd (storeEvent env name sid w) in
  (forall key, key <> eventKeyOf date ->
               Redis.hash_at (db_of w') key = Redis.hash_at (db_of w) key)
  /\ (forall key, key <> sessionKeyOf date ->
                  Redis.set_at (db_of w') key = Redis.set_at (db_of w) key)
  /\ (isValidSessionId sid = false ->
      Redis.sets (db_of w') = Redis.sets (db_of w))
  /\ (forall key, key <> eventKeyOf date -> key <> sessionKeyOf date ->
                  Redis.ttl (db_of w') !! key = Redis.ttl (db_of w) !! key).
Proof.
  intros Hdate w'. subst w'.
  rewrite (storeEvent_db env name sid w date Hdate).
  destruct (unavailable w); [repeat split|].
  destruct (reached env name sid date); [|repeat split].
  split; [|split; [|split]].
  - intros key Hkey. rewrite hash_at_eventTx, decide_False by exact Hkey.
    reflexivity.
  - intros key Hkey. rewrite set_at_eventTx_any.
    destruct (isValidSessionId sid); [|reflexivity].
    rewrite decide_False by exact Hkey. reflexivity.
  - intros Hsid. rewrite eventTx_closed, Hsid. reflexivity.
  - intros key Hek Hsk. rewrite eventTx_closed. cbn [Redis.ttl].
    destruct (isValidSessionId sid);
      rewrite ?(lookup_insert_ne _ (sessionKeyOf date)) by congruence;
      rewrite lookup_insert_ne by congruence; reflexivity.
Qed.

Lemma storeEvent_touches_today_only_witness :
  Redis.sets (db_of (snd (storeEvent quietEnv "build_trace" (VString "abc")
                                     freshWorld)))
  = Redis.sets (db_of freshWorld).
Proof.
  destruct (storeEvent_touches_today_only quietEnv "build_trace"
              (VString "abc") freshWorld "2026-11-02" eq_refl)
    as (_ & _ & Hsets & _).
  apply Hsets. reflexivity.
Defined.



(** ** The configuration over the life of the process *)

Lemma handle_config J cfg env req (w : World) :
  enabled (redisState (snd (handle J cfg env req w)))
  = enabled (redisState w)
  /\ (redis (snd (handle J cfg env req w)) = None <-> redis w = None).
Proof.
  destruct (handle_route J cfg env req)
    as [(_ & _ & _ & H) | [(_ & _ & _ & H) | [(Hm & Hp & _ & H)
       | [(_ & _ & _ & H) | (_ & H)]]]]; rewrite H.
  - destruct (serveIndex_run env w) as (r & -> & _). split; reflexivity.
  - unfold bind. destruct (unavailable w) eqn:Hun.
    + destruct (buildHealth_unavailable env w Hun) as [ts ->].
      split; reflexivity.
    + destruct (unavailable_false w Hun) as (db & Hdb & Hconn).
      destruct (fault env OpPing) as [err|] eqn:Hfault.
      * destruct (buildHealth_failed env w db err Hdb Hconn Hfault) as [ts ->].
        cbn [snd ret redis redisState enabled]. rewrite Hdb.
        split; reflexivity.
      * destruct (buildHealth_ok env w db Hdb Hconn Hfault) as [ts ->].
        cbn [snd ret redis redisState enabled]. rewrite Hdb.
        split; reflexivity.
  - destruct (postEvents_outcome J env req w)
      as [[code H1] | [(parsed & e & _ & _ & H1)
         | (parsed & name & sid & stored & w1 & _ & _ & _ & _ & Hstore & H1)]];
      rewrite H1; cbn [snd]; [split; reflexivity..|].
    destruct (unavailable w) eqn:Hun.
    + rewrite (storeEvent_unavailable env name sid w Hun) in Hstore.
      inversion Hstore; subst. split; reflexivity.
    + destruct (unavailable_false w Hun) as (db & Hdb & Hconn).
      destruct (utcDateOffset_today_returns (clock env 0)) as [date Hdate].
      pose proof (storeEvent_available env name sid w db date Hdb Hconn Hdate)
        as Hrun.
      cbv zeta in Hrun. rewrite Hrun in Hstore.
      destruct (fault env _); apply (f_equal snd) in Hstore;
        cbn [snd] in Hstore; rewrite <- Hstore;
        cbn [redis redisState enabled]; rewrite Hdb;
        (split; [reflexivity|split; discriminate]).
  - destruct (getStats_frame cfg env req w) as (Hr & Hs & _).
    rewrite Hr, Hs. split; reflexivity.
  - split; reflexivity.
Qed.

Lemma step_config J cfg (s : Step) (w : World) :
  enabled (redisState (step J cfg s w)) = enabled (redisState w)
  /\ (redis (step J cfg s w) = None <-> redis w = None).
Proof.
  destruct s as [env req| | |err]; [apply handle_config|..];
    cbn [step]; unfold clientEvent; destruct (redis w) eqn:Hr;
    cbn [redis redisState enabled on_ready on_end on_error];
    rewrite ?Hr; split; reflexivity.
Qed.

(** X16. Whether telemetry is enabled is fixed at the start: after any
    sequence of requests and client events, [redisState.enabled] (the
    [redisEnabled] of every 202 response and the [enabled] of the health
    report) is [true] exactly when [REDIS_URL] is set and not empty, and a
    client exists exactly then. *)
Theorem enabled_is_fixed J cfg remote connectError (steps : list Step) :
  let w := run J cfg steps (boot cfg remote connectError) in
  enabled (redisState w) = negb (String.eqb (redisUrl cfg) "")
  /\ (redis w = None <-> redisUrl cfg = "").
Proof.
  cbv zeta.
  assert (Hstart :
            enabled (redisState (boot cfg remote connectError))
            = negb (String.eqb (redisUrl cfg) "")
            /\ (redis (boot cfg remote connectError) = None
                <-> redisUrl cfg = "")).
  { unfold boot. destruct (redisUrl cfg) as [|c url]; cbn.
    - split; [reflexivity|]. split; reflexivity.
    - destruct connectError; cbn; (split; [reflexivity|]);
        split; discriminate. }
  generalize dependent (boot cfg remote connectError).
  induction steps as [|s steps IH]; intros w Hw; [exact Hw|].
  rewrite run_cons. apply IH.
  destruct (step_config J cfg s w) as [He Hr]. destruct Hw as [Hw1 Hw2].
  split; [congruence|]. rewrite Hr. exact Hw2.
Qed.

Lemma enabled_is_fixed_witness :
  enabled (redisState (run sampleParse sampleCfg
                           [Errored (Other "reset"); Ended;
                            Serve brokenEnv (eventRequest sampleBody)]
                           downWorld))
  = true.
Proof.
  destruct (enabled_is_fixed sampleParse sampleCfg Redis.empty
              (Some (ErrorObj "connect ECONNREFUSED"))
              [Errored (Other "reset"); Ended;
               Serve brokenEnv (eventRequest sampleBody)]) as [Hen _].
  unfold downWorld. rewrite Hen. reflexivity.
Defined.

(** ** Day buckets are UTC days *)

Lemma era_day_ok_all : all_from era_day_ok (Z.to_nat 146097) 0 = true.
Proof. vm_cast_no_check (eq_refl true). Qed.

Lemma digits_value_app (a b : string) :
  forall acc, digits_value acc (a ++ b) = digits_value (digits_value acc a) b.
Proof.
  induction a as [|c a IH]; intros acc; [reflexivity|].
  cbn [String.append digits_value]. apply IH.
Qed.

Lemma digit_char_value (d : Z) :
  (Z.of_N (N_of_ascii (digit_char d)) - 48 = d mod 10)%Z.
Proof.
  unfold digit_char.
  pose proof (Z.mod_pos_bound d 10 ltac:(lia)) as Hd.
  rewrite N_ascii_embedding by lia. lia.
Qed.

(** Reading back what [pad] wrote gives the number modulo the width. *)
Lemma digits_value_pad (width : nat) :
  forall n, digits_value 0 (pad width n) = (n mod 10 ^ Z.of_nat width)%Z.
Proof.
  induction width as [|width IH]; intros n.
  - cbn [pad digits_value Z.of_nat]. rewrite Z.pow_0_r, Z.mod_1_r.
    reflexivity.
  - cbn [pad]. rewrite digits_value_app, IH. cbn [digits_value].
    rewrite digit_char_value, Nat2Z.inj_succ, Z.pow_succ_r by lia.
    rewrite (Z.rem_mul_r n 10 (10 ^ Z.of_nat width)) by lia. lia.
Qed.

Lemma pad_inj (width : nat) (n m : Z) :
  (0 <= n < 10 ^ Z.of_nat width)%Z -> (0 <= m < 10 ^ Z.of_nat width)%Z ->
  pad width n = pad width m -> n = m.
Proof.
  intros Hn Hm H. apply (f_equal (digits_value 0)) in H.
  rewrite !digits_value_pad in H.
  rewrite !Z.mod_small in H by assumption. exact H.
Qed.

Lemma append_inj (a1 : string) :
  forall a2 b1 b2,
    String.length a1 = String.length a2 ->
    a1 ++ b1 = a2 ++ b2 -> a1 = a2 /\ b1 = b2.
Proof.
  induction a1 as [|c a1 IH]; intros [|c2 a2] b1 b2 Hlen H;
    try discriminate Hlen.
  - split; [reflexivity|exact H].
  - cbn [String.append] in H. inversion H as [[Hc Hrest]].
    cbn [String.length] in Hlen.
    destruct (IH a2 b1 b2 ltac:(lia) Hrest) as [-> ->].
    split; reflexivity.
Qed.

(** Year, month and day of a date between March of the year 0 and the end
    of the year 9999. *)
Lemma civil_ranges (z : Z) :
  (-719468 <= z <= 2932896)%Z ->
  let '(y, m, d) := civil_from_days z in
  (0 <= y <= 9999 /\ 1 <= m <= 12 /\ 1 <= d <= 31)%Z.
Proof.
  intros Hz. pose proof (year_range z Hz) as Hy.
  unfold civil_from_days in *.
  pose proof (Z.mod_pos_bound (z + 719468) 146097 ltac:(lia)) as Hdoe.
  pose proof (era_split_join _ Hdoe) as Hsplit.
  assert (Hday : era_day_ok ((z + 719468) mod 146097) = true).
  { apply (all_from_spec era_day_ok _ 0%Z era_day_ok_all). lia. }
  unfold era_day_ok in Hday.
  destruct (era_split ((z + 719468) mod 146097)) as [[yoe mp] d].
  destruct Hsplit as (_ & Hmp & _). cbn [fst] in Hy.
  split; [exact Hy|]. split; [|lia].
  destruct (Z.ltb_spec mp 10); lia.
Qed.

Lemma isoDay_inj (z1 z2 : Z) :
  (-719468 <= z1 <= 2932896)%Z -> (-719468 <= z2 <= 2932896)%Z ->
  isoDay z1 = isoDay z2 -> z1 = z2.
Proof.
  intros H1 H2 Hiso.
  pose proof (civil_ranges z1 H1) as R1. pose proof (civil_ranges z2 H2) as R2.
  pose proof (MakeDay_civil z1) as M1. pose proof (MakeDay_civil z2) as M2.
  unfold isoDay in Hiso.
  destruct (civil_from_days z1) as [[y1 m1] d1].
  destruct (civil_from_days z2) as [[y2 m2] d2].
  destruct R1 as (Hy1 & Hm1 & Hd1). destruct R2 as (Hy2 & Hm2 & Hd2).
  unfold isoYear in Hiso.
  destruct (Z.leb_spec 0 y1); [|lia]. destruct (Z.leb_spec y1 9999); [|lia].
  destruct (Z.leb_spec 0 y2); [|lia]. destruct (Z.leb_spec y2 9999); [|lia].
  cbn [andb] in Hiso.
  apply append_inj in Hiso as [Hy Hiso]; [|rewrite !length_pad; reflexivity].
  apply append_inj in Hiso as [_ Hiso]; [|reflexivity].
  apply append_inj in Hiso as [Hm Hiso]; [|rewrite !length_pad; reflexivity].
  apply append_inj in Hiso as [_ Hd]; [|reflexivity].
  apply pad_inj in Hy; [|cbn; lia..].
  apply pad_inj in Hm; [|cbn; lia..].
  apply pad_inj in Hd; [|cbn; lia..].
  subst y2 m2 d2.
  specialize (M1 d1). specialize (M2 d1). lia.
Qed.

Lemma Day_range (t : Z) :
  (0 <= t <= isoMax)%Z -> (0 <= Day t <= 2932896)%Z.
Proof.
  intros H. unfold Day, msPerDay, isoMax in *.
  split; [apply Z.div_pos; lia|].
  apply Z.lt_succ_r. apply Z.div_lt_upper_bound; lia.
Qed.

(** X17. The day buckets are exactly the UTC days.  For clock readings
    between 1970 and 9999 and offsets up to 30 days, [utcDateOffset]
    returns a date, and the dates of two readings and offsets are the same
    exactly when the day of the one reading moved back by its offset is
    the day of the other moved back by its own.  The same holds of the
    keys made from the dates: two calls use the same hash key, and the same
    set key, exactly when their days are the same, and a hash key is never
    a set key. *)
Theorem buckets_are_utc_days (t1 t2 : TimeValue) (i j : nat) :
  (0 <= ms t1 <= isoMax)%Z -> (0 <= ms t2 <= isoMax)%Z ->
  (i <= 30)%nat -> (j <= 30)%nat ->
  exists d1 d2,
    utcDateOffset t1 (Z.of_nat i) = inr d1
    /\ utcDateOffset t2 (Z.of_nat j) = inr d2
    /\ (d1 = d2 <-> (Day t1 - Z.of_nat i = Day t2 - Z.of_nat j)%Z)
    /\ (eventKeyOf d1 = eventKeyOf d2
        <-> (Day t1 - Z.of_nat i = Day t2 - Z.of_nat j)%Z)
    /\ (sessionKeyOf d1 = sessionKeyOf d2
        <-> (Day t1 - Z.of_nat i = Day t2 - Z.of_nat j)%Z)
    /\ eventKeyOf d1 <> sessionKeyOf d2.
Proof.
  intros H1 H2 Hi Hj.
  exists (isoDay (Day t1 - Z.of_nat i)), (isoDay (Day t2 - Z.of_nat j)).
  split; [exact (utcDateOffset_back t1 i H1 Hi)|].
  split; [exact (utcDateOffset_back t2 j H2 Hj)|].
  pose proof (Day_range t1 H1) as Hd1. pose proof (Day_range t2 H2) as Hd2.
  assert (Hdates : isoDay (Day t1 - Z.of_nat i) = isoDay (Day t2 - Z.of_nat j)
                   <-> (Day t1 - Z.of_nat i = Day t2 - Z.of_nat j)%Z).
  { split.
    - intros Hiso. apply isoDay_inj in Hiso; lia.
    - intros ->. reflexivity. }
  split; [exact Hdates|].
  split; [|split].
  - rewrite <- Hdates. split; [apply eventKeyOf_inj|intros ->; reflexivity].
  - rewrite <- Hdates. split; [apply sessionKeyOf_inj|intros ->; reflexivity].
  - unfold eventKeyOf, sessionKeyOf. intros H. inversion H.
Qed.

Lemma buckets_are_utc_days_witness :
  exists d1 d2,
    utcDateOffset time_2026_11_02 1 = inr d1
    /\ utcDateOffset before_midnight 0 = inr d2
    /\ d1 <> d2 /\ eventKeyOf d1 <> eventKeyOf d2.
Proof.
  destruct (buckets_are_utc_days time_2026_11_02 before_midnight 1 0)
    as (d1 & d2 & H1 & H2 & Hdates & Hkeys & _).
  - vm_compute. split; discriminate.
  - vm_compute. split; discriminate.
  - lia.
  - lia.
  - exists d1, d2. split; [exact H1|]. split; [exact H2|].
    split.
    + intros H. apply Hdates in H. vm_compute in H. discriminate H.
    + intros H. apply Hkeys in H. vm_compute in H. discriminate H.
Defined.

(** ** A statistics query across midnight *)


(** ** The shape of the answers *)

Lemma buildStats_from_length env n :
  forall i result (w : World) stats w',
    buildStats_from env n i result w = (inr stats, w') ->
    List.length stats = (List.length result + n)%nat.
Proof.
  induction n as [|n IH]; intros i result w stats w' Hrun.
  - cbn [buildStats_from] in Hrun. unfold ret in Hrun.
    injection Hrun as <- _. lia.
  - rewrite buildStats_from_S in Hrun.
    destruct (utcDateOffset (clock env i) (Z.of_nat i)) as [e|date];
      [discriminate Hrun|].
    destruct (promiseAll2 (hgetall env (eventKeyOf date))
                (scard env (sessionKeyOf date)) w) as [[e|both] w1];
      [discriminate Hrun|].
    rewrite (IH _ _ _ _ _ Hrun), length_app. cbn [List.length]. lia.
Qed.

(** X18. A 200 answer of [GET /api/stats] is never partial: whatever the
    clock and the store did, its [days] field is the clamped request, from
    1 to 30, and its [stats] array has exactly that many entries. *)
Theorem stats_answer_is_complete J cfg env (req : Request) (w w' : World)
        (days : Z) (stats : list DayStats) :
  method req = "GET" -> pathname req = "/api/stats" ->
  handle J cfg env req w = (inr (Json 200 (PStats days stats)), w') ->
  days = requestedDays (query req)
  /\ (1 <= days <= 30)%Z
  /\ Z.of_nat (List.length stats) = days.
Proof.
  intros Hm Hp Hrun. rewrite (handle_get_stats J cfg env req Hm Hp) in Hrun.
  pose proof (requestedDays_range (query req)) as Hrange.
  unfold getStats in Hrun.
  destruct (String.eqb (adminToken cfg) ""); [discriminate Hrun|].
  destruct (differs (suppliedToken req) (adminToken cfg));
    [discriminate Hrun|].
  revert Hrun. run_m. destruct (unavailable w); [discriminate|].
  unfold buildStats.
  destruct (buildStats_from env (Z.to_nat (requestedDays (query req))) 0 [] w)
    as [[err|stats1] w1] eqn:Hloop; [discriminate|].
  intros Hrun. injection Hrun as <- <- _.
  apply buildStats_from_length in Hloop. cbn [List.length] in Hloop.
  split; [reflexivity|]. split; [exact Hrange|]. lia.
Qed.

Lemma stats_answer_is_complete_witness :
  exists stats w',
    handle sampleParse sampleCfg quietEnv
           (statsRequest (Some "secret") [("days", "31")]) freshWorld
    = (inr (Json 200 (PStats 30 stats)), w')
    /\ Z.of_nat (List.length stats) = 30%Z.
Proof.
  destruct (handle sampleParse sampleCfg quietEnv
              (statsRequest (Some "secret") [("days", "31")]) freshWorld)
    as [[e|[code p|code t|code t]] w'] eqn:Hrun;
    try (vm_compute in Hrun; discriminate Hrun).
  destruct p as [c|a b|l|d|days stats|t e c pm l];
    try (vm_compute in Hrun; discriminate Hrun).
  assert (Hcode : code = 200%Z).
  { apply (f_equal answered) in Hrun. vm_compute in Hrun.
    injection Hrun as Hc. symmetry. exact Hc. }
  subst code.
  destruct (stats_answer_is_complete sampleParse sampleCfg quietEnv
              (statsRequest (Some "secret") [("days", "31")]) freshWorld w'
              days stats eq_refl eq_refl Hrun) as (Hdays & _ & Hlen).
  assert (H30 : days = 30%Z) by (rewrite Hdays; reflexivity).
  subst days. exists stats, w'. split; [reflexivity|exact Hlen].
Defined.

(** The routes answer 404 exactly outside the six of them. *)
Lemma handle_404_iff J cfg env (req : Request) (w : World) :
  answered (handle J cfg env req w) = Some 404%Z <-> routed req = false.
Proof.
  destruct (String.eqb_spec (method req) "POST") as [Hm|Hm];
    [destruct (String.eqb_spec (pathname req) "/api/events") as [Hp|Hp]|].
  - assert (Hrouted : routed req = true).
    { unfold routed. rewrite Hm, Hp. reflexivity. }
    rewrite Hrouted, (handle_post_events J cfg env req Hm Hp).
    destruct (postEvents_outcome J env req w)
      as [[code H] | [(parsed & e & _ & _ & H)
         | (parsed & name & sid & stored & w1 & _ & _ & _ & _ & _ & H)]];
      rewrite H; unfold answered; cbn [fst statusCode_of];
      split; discriminate.
  - destruct (handle_answers J cfg env req w (or_intror Hp))
      as (r & w1 & H & _ & _ & Hiff).
    rewrite H. unfold answered. cbn [fst]. rewrite <- Hiff.
    split; [intros Hs; injection Hs as Hs; exact Hs|intros ->; reflexivity].
  - destruct (handle_answers J cfg env req w (or_introl Hm))
      as (r & w1 & H & _ & _ & Hiff).
    rewrite H. unfold answered. cbn [fst]. rewrite <- Hiff.
    split; [intros Hs; injection Hs as Hs; exact Hs|intros ->; reflexivity].
Qed.

(** X19. The callback of the server answers 404 exactly for the requests
    whose URL can be built and which are outside its six routes ([GET] on
    [/], [/index.html], [/keccak], [/api/health], [/api/stats] and [POST]
    on [/api/events]); in particular the method matters ([GET /api/events]
    and [POST /api/stats] are 404), no route of the API ever answers 404
    itself, and a request whose URL cannot be built gets no 404: the
    callback throws before it writes anything. *)
Theorem not_found_iff_unrouted J U cfg env (r : Incoming) (w : World) :
  (answered (onRequest J U cfg env r w) = Some 404%Z
   <-> exists url, requestUrl U r = Some url
                   /\ routed (routeRequest r url) = false)
  /\ (requestUrl U r = None -> answered (onRequest J U cfg env r w) = None).
Proof.
  unfold onRequest. destruct (requestUrl U r) as [url|].
  - split; [|discriminate].
    rewrite (handle_404_iff J cfg env (routeRequest r url) w). split.
    + intros H. exists url. split; [reflexivity|exact H].
    + intros (url' & Hurl & H). injection Hurl as <-. exact H.
  - split; [|reflexivity]. split.
    + intros H. discriminate H.
    + intros (url & Hurl & _). discriminate Hurl.
Qed.

Lemma not_found_iff_unrouted_witness :
  answered (onRequest sampleParse sampleUrl sampleCfg quietEnv
                      (incoming "GET" "/api/events" None sampleBody)
                      freshWorld)
  = Some 404%Z
  /\ answered (onRequest sampleParse sampleUrl sampleCfg quietEnv
                         (incoming "GET" "/nothing" (Some "a b") noBody)
                         freshWorld)
     = None.
Proof.
  split.
  - apply (proj1 (not_found_iff_unrouted sampleParse sampleUrl sampleCfg
                    quietEnv (incoming "GET" "/api/events" None sampleBody)
                    freshWorld)).
    exists ("/api/events", []). split; reflexivity.
  - apply (proj2 (not_found_iff_unrouted sampleParse sampleUrl sampleCfg
                    quietEnv (incoming "GET" "/nothing" (Some "a b") noBody)
                    freshWorld)).
    reflexivity.
Defined.

(** ** Sessions are counted once *)

(** X20. A session is counted once a day.  On an available store, a call
    of [storeEvent] with a valid session id that the set of the day already
    holds leaves that set as it is, whether the transaction fails or not;
    with a session id the set does not hold yet, a call that returns [true]
    makes the set one larger. *)
Theorem session_counted_once env name sid (w : World) date :
  unavailable w = false ->
  utcDateOffset (clock env 0) 0 = inr date ->
  isValidSessionId sid = true ->
  let w' := snd (storeEvent env name sid w) in
  (str sid ∈ sessions w date -> sessions w' date = sessions w date)
  /\ (str sid ∉ sessions w date ->
      fst (storeEvent env name sid w) = inr true ->
      size (sessions w' date) = S (size (sessions w date))).
Proof.
  intros Hun Hdate Hsid w'. subst w'. unfold sessions.
  rewrite (storeEvent_db env name sid w date Hdate), Hun.
  destruct (unavailable_false w Hun) as (db & Hdb & Hconn).
  pose proof (storeEvent_available env name sid w db date Hdb Hconn Hdate)
    as Hrun.
  cbv zeta in Hrun. rewrite Hrun. unfold reached.
  split.
  - intros Hin.
    destruct (fault env _); [destruct (applied_on_fault env)|];
      try reflexivity;
      rewrite set_at_eventTx_any, Hsid, decide_True by reflexivity;
      apply subseteq_union_1_L, singleton_subseteq_l; exact Hin.
  - intros Hnew Hstored.
    destruct (fault env _); [discriminate Hstored|].
    rewrite set_at_eventTx_any, Hsid, decide_True by reflexivity.
    rewrite size_union by (apply disjoint_singleton_l; exact Hnew).
    rewrite size_singleton. reflexivity.
Qed.

Lemma session_counted_once_witness :
  let w1 := snd (storeEvent quietEnv "open_page" (VString "abc-123")
                            freshWorld) in
  let w2 := snd (storeEvent quietEnv "build_trace" (VString "abc-123") w1) in
  size (sessions w1 "2026-11-02") = 1%nat
  /\ sessions w2 "2026-11-02" = sessions w1 "2026-11-02".
Proof.
  cbv zeta. split.
  - destruct (session_counted_once quietEnv "open_page" (VString "abc-123")
                freshWorld "2026-11-02" eq_refl eq_refl eq_refl)
      as [_ Hnew].
    rewrite Hnew; [reflexivity| |reflexivity].
    vm_compute. intros H. discriminate H.
  - destruct (session_counted_once quietEnv "build_trace" (VString "abc-123")
                (snd (storeEvent quietEnv "open_page" (VString "abc-123")
                                 freshWorld))
                "2026-11-02" eq_refl eq_refl eq_refl) as [Hold _].
    apply Hold. vm_compute. reflexivity.
Defined.
